(** * AutoDSE result database ([autodse/database.py])

    A shallow embedding of the [Database] base class and of its two
    concrete adapters, [RedisDatabase] and [PickleDatabase], followed by
    the properties of the result store, of the best-result cache and of
    the code-hash index.

    Python objects are first-order data, methods are computations in a
    small state-and-exception monad, and what the module takes from
    elsewhere (the clock, pickle, jsonpickle, the key generator of
    [parameter.py], the exceptions of the priority queue, the order in
    which Redis lists a hash) is a field of the environment class
    [Env]. *)

From Stdlib Require Import ZArith ZifyBool String List Sorting.Sorted Permutation.
From stdpp Require Import gmap strings list fin_maps pretty sorting.

Local Open Scope Z_scope.
Local Open Scope string_scope.

(** ** Python values *)

(** Raw bytes, as pickle produces them and Redis stores them. *)
Definition bytes := list Byte.byte.

(** Modelled from the spec: the [Result.RetCode] enumeration is declared in
    [result.py], which is not part of the sources; section 3 of the
    specification lists it as [enum{VALID, DUPLICATED, ...}].  The code only
    ever compares a return code with [DUPLICATED]. *)
Inductive RetCode := VALID | DUPLICATED | OTHER (name : string).

#[global] Instance RetCode_eq_dec : EqDecision RetCode.
Proof. solve_decision. Defined.

(** Modelled from the spec: a design point is a parameter assignment
    ([parameter.py] is not part of the sources); the database only passes
    it to [gen_key_from_design_point]. *)
Definition DesignPoint := list (string * Z).

(** A Python float.  The database computes with no float, it only lets
    the priority queue compare them, so a number (finite or infinite) is
    kept by its rank among the floats: two numbers compare as their ranks
    do, [-0.0] and [0.0] sharing a rank.  [NaN] is not a number: every
    comparison with it, [nan == nan] included, is false. *)
Inductive pyfloat := NaN | Num (rank : Z).

#[global] Instance pyfloat_eq_dec : EqDecision pyfloat.
Proof. solve_decision. Defined.

(** [x < y], [x == y] and [x <= y] on floats *)
Definition float_ltb (x y : pyfloat) : bool :=
  match x, y with Num a, Num b => (a <? b)%Z | _, _ => false end.

Definition float_eqb (x y : pyfloat) : bool :=
  match x, y with Num a, Num b => (a =? b)%Z | _, _ => false end.

Definition float_leb (x y : pyfloat) : bool :=
  match x, y with Num a, Num b => (a <=? b)%Z | _, _ => false end.

(** An object of some class.  The class hierarchy lives in [result.py];
    the three [isinstance] tests the database performs are therefore
    fields of the object, next to the attributes the database reads.
    [quality] is a Python float. *)
Record instance := mkInstance {
  is_Result : bool;
  is_HLSResult : bool;
  is_MerlinResult : bool;
  point : option DesignPoint;
  ret_code : RetCode;
  valid : bool;
  quality : pyfloat;
  code_hash : option string;
}.

#[global] Instance instance_eq_dec : EqDecision instance.
Proof. solve_decision. Defined.

(** What a caller may commit ([result: Any]) and what a backend may hand
    back: a boolean ([pickledb] answers [False] for a missing key), a
    string (a jsonpickle encoding, or any other payload), or an object. *)
Inductive pyval :=
| PyBool (b : bool)
| PyStr (s : string)
| PyInst (r : instance).

#[global] Instance pyval_eq_dec : EqDecision pyval.
Proof. solve_decision. Defined.

Definition isinstance_bool (v : pyval) : bool :=
  match v with PyBool _ => true | _ => false end.

Definition isinstance_Result (v : pyval) : bool :=
  match v with PyInst r => is_Result r | _ => false end.

(** [ret_code != Result.RetCode.DUPLICATED] *)
Definition not_duplicated (r : instance) : bool :=
  bool_decide (ret_code r ≠ DUPLICATED).

(** ** Exceptions, outcomes and the monad *)

Inductive exn :=
| ValueError (msg : string)
| AssertionError
| RuntimeError
| OtherError (cls msg : string).

Definition str_of_exn (e : exn) : string :=
  match e with
  | ValueError msg => msg
  | AssertionError => ""
  | RuntimeError => ""
  | OtherError _ msg => msg
  end.

(** A call returns, leaves through [sys.exit(code)] ([SystemExit] is not an
    [Exception], no handler of this module catches it), or raises. *)
Inductive outcome (S A : Type) :=
| Ret (a : A) (s : S)
| SysExit (code : Z) (s : S)
| Raise (e : exn) (s : S).
Arguments Ret {S A} a s.
Arguments SysExit {S A} code s.
Arguments Raise {S A} e s.

Definition M (S A : Type) := S -> outcome S A.

Definition ret {S A} (a : A) : M S A := fun s => Ret a s.

Definition bind {S A B} (m : M S A) (f : A -> M S B) : M S B :=
  fun s => match m s with
           | Ret a s' => f a s'
           | SysExit c s' => SysExit c s'
           | Raise e s' => Raise e s'
           end.

Declare Scope py_scope.
Delimit Scope py_scope with py.
Notation "x <- m ;; k" := (bind m (fun x => k))
  (at level 100, m at next level, right associativity) : py_scope.
Notation "m ;;; k" := (bind m (fun _ => k))
  (at level 100, right associativity) : py_scope.
Local Open Scope py_scope.

Definition gets {S A} (f : S -> A) : M S A := fun s => Ret (f s) s.
Definition modify {S} (f : S -> S) : M S unit := fun s => Ret tt (f s).
Definition sys_exit {S A} (code : Z) : M S A := fun s => SysExit code s.
Definition raise {S A} (e : exn) : M S A := fun s => Raise e s.

(** [try: m  except ValueError as err: h err] *)
Definition try_except_ValueError {S A} (m : M S A) (h : string -> M S A) : M S A :=
  fun s => match m s with
           | Raise (ValueError msg) s' => h msg s'
           | o => o
           end.

(** [try: m  except Exception as err: h err] *)
Definition try_except_Exception {S A} (m : M S A) (h : exn -> M S A) : M S A :=
  fun s => match m s with
           | Raise e s' => h e s'
           | o => o
           end.

(** [[f x for x in l]] *)
Fixpoint map_m {S A C} (f : A -> M S C) (l : list A) : M S (list C) :=
  match l with
  | [] => ret []
  | x :: l' => y <- f x ;; ys <- map_m f l' ;; ret (y :: ys)
  end.

(** [for x in l: body x] *)
Fixpoint for_each {S A} (l : list A) (body : A -> M S unit) : M S unit :=
  match l with
  | [] => ret tt
  | x :: l' => body x ;;; for_each l' body
  end.

(** Did the call leave through [sys.exit]? *)
Definition exits {S A} (o : outcome S A) : bool :=
  match o with SysExit _ _ => true | _ => false end.

(** ** Python dictionaries

    A [dict] keeps its keys in insertion order and assignment to an
    existing key updates it in place. *)
Definition dict (V : Type) := list (string * V).

Fixpoint dict_get {V} (k : string) (d : dict V) : option V :=
  match d with
  | [] => None
  | (k', v) :: d' => if String.eqb k k' then Some v else dict_get k d'
  end.

Fixpoint dict_set {V} (k : string) (v : V) (d : dict V) : dict V :=
  match d with
  | [] => [(k, v)]
  | (k', v') :: d' =>
      if String.eqb k k' then (k, v) :: d' else (k', v') :: dict_set k v d'
  end.

Definition dict_keys {V} (d : dict V) : list string := map fst d.

Definition dict_contains {V} (k : string) (d : dict V) : bool :=
  match dict_get k d with Some _ => true | None => false end.

(** [{k: v for k, v in pairs}] and [d.update(pairs)] *)
Definition dict_update {V} (d : dict V) (pairs : list (string * V)) : dict V :=
  fold_left (fun acc kv => dict_set (fst kv) (snd kv) acc) pairs d.

Definition dict_of_pairs {V} (pairs : list (string * V)) : dict V :=
  dict_update [] pairs.

(** [len(x)] is a Python int. *)
Definition len {A} (l : list A) : Z := Z.of_nat (length l).

(** An element of the best cache: [(quality, timestamp, result)]. *)
Definition entry : Type := pyfloat * Z * instance.

Definition entry_quality (e : entry) : pyfloat := e.1.1.
Definition entry_time (e : entry) : Z := e.1.2.
Definition entry_result (e : entry) : instance := e.2.

(** ** The environment *)

Class Env := {
  (** [time()], by the number of earlier calls: a float that is a number,
      kept by its rank as the numbers of [pyfloat] are *)
  time : nat -> Z;
  (** [parameter.gen_key_from_design_point] *)
  gen_key_from_design_point : DesignPoint -> string;
  (** [pickle.dumps] and [pickle.loads] on values *)
  pickle_dumps : pyval -> bytes;
  pickle_loads : bytes -> exn + pyval;
  (** [pickle.dump] and [pickle.load] on the dumped Redis hash *)
  pickle_dump_file : dict (option bytes) -> bytes;
  pickle_load_file : bytes -> exn + dict bytes;
  (** [jsonpickle.encode] and [jsonpickle.decode] *)
  jsonpickle_encode : pyval -> string;
  jsonpickle_decode : pyval -> exn + pyval;
  (** [PriorityQueue.put] of an entry next to the entries already queued:
      the exception it raises, if any, and the entries it then leaves in
      the queue.  (The heap compares entries as tuples; two entries that
      agree on quality and timestamp are compared on their result objects,
      whose ordering, if any, is declared in [result.py].) *)
  put_raises : list entry -> entry -> option (exn * list entry);
  (** the order in which Redis lists the fields of a hash ([HKEYS],
      [HGETALL]): every field once, in an order of Redis's own *)
  hash_order : gmap string bytes -> list string;
  hash_order_lists : forall h, hash_order h ≡ₚ (map_to_list h).*1;
}.

(** Run a library call that may raise. *)
Definition call {S A} (r : exn + A) : M S A :=
  match r with inl e => raise e | inr a => ret a end.

(** ** The state of a database object *)

Inductive log_level := INFO | WARNING | ERROR.

(** What the adapter methods touch: the backend handle [self.database],
    the logger [self.log], and the standard output. *)
Record Store (B : Type) := mkStore {
  database : B;
  log : list (log_level * string);
  stdout : list string;
}.
Arguments mkStore {B} _ _ _.
Arguments database {B} _.
Arguments log {B} _.
Arguments stdout {B} _.

(** The whole object: the adapter's part, [self.best_cache],
    [self.code_hash_map], and the number of [time()] calls made so far. *)
Record Database (B : Type) := mkDatabase {
  store : Store B;
  best_cache : list entry;
  code_hash_map : gmap string string;
  ticks : nat;
}.
Arguments mkDatabase {B} _ _ _ _.
Arguments store {B} _.
Arguments best_cache {B} _.
Arguments code_hash_map {B} _.
Arguments ticks {B} _.

Definition set_database {B} (f : B -> B) (st : Store B) : Store B :=
  mkStore (f (database st)) (log st) (stdout st).

Definition log_to {B} (lvl : log_level) (msg : string) : M (Store B) unit :=
  modify (fun st => mkStore (database st) (log st ++ [(lvl, msg)]) (stdout st)).

Definition print {B} (line : string) : M (Store B) unit :=
  modify (fun st => mkStore (database st) (log st) (stdout st ++ [line])).

Definition with_store {B} (st : Store B) (d : Database B) : Database B :=
  mkDatabase st (best_cache d) (code_hash_map d) (ticks d).

(** Run an adapter method on the adapter's part of the object. *)
Definition lift {B A} (m : M (Store B) A) : M (Database B) A :=
  fun d =>
    match m (store d) with
    | Ret a st => Ret a (with_store st d)
    | SysExit c st => SysExit c (with_store st d)
    | Raise e st => Raise e (with_store st d)
    end.

(** [time()] *)
Definition time_now {env : Env} {B} : M (Database B) Z :=
  fun d => Ret (time (ticks d))
               (mkDatabase (store d) (best_cache d) (code_hash_map d) (S (ticks d))).

(** ** [queue.PriorityQueue]

    The queue is unbounded, so [put] never blocks; its content is kept in
    insertion order.  [put] adds the entry unless the environment makes it
    raise.  Entries are compared as Python compares tuples: on the first
    component on which they are not [==], with [<]; [entry_ltb] is that
    comparison on quality and timestamp.  As long as the entries of the
    queue are totally ordered by it, [get] hands out the least of them.
    Where they are not, because two entries agree on quality and
    timestamp or because a quality is [NaN], what the heap hands out
    depends on its layout; [PriorityQueue_get] then makes a choice of its
    own, and no statement below relies on that choice. *)
Definition PriorityQueue_put {env : Env} {B} (e : entry) : M (Database B) unit :=
  fun d =>
    match put_raises (best_cache d) e with
    | None =>
        Ret tt (mkDatabase (store d) (best_cache d ++ [e]) (code_hash_map d) (ticks d))
    | Some (err, kept) =>
        Raise err (mkDatabase (store d) kept (code_hash_map d) (ticks d))
    end.

Definition entry_ltb (e1 e2 : entry) : bool :=
  float_ltb (entry_quality e1) (entry_quality e2)
  || (float_eqb (entry_quality e1) (entry_quality e2)
      && (entry_time e1 <? entry_time e2)%Z).

Fixpoint PriorityQueue_get (q : list entry) : option (entry * list entry) :=
  match q with
  | [] => None
  | e :: q' =>
      match PriorityQueue_get q' with
      | None => Some (e, [])
      | Some (m, rest) =>
          if entry_ltb m e then Some (m, e :: rest) else Some (e, q')
      end
  end.

(** Modelled from the spec: the consumer that drains the best cache is not
    part of the sources; section 4.2 describes it as repeatedly popping
    the minimum. *)
Fixpoint drain (n : nat) (q : list entry) : list entry :=
  match n with
  | O => []
  | S n' =>
      match PriorityQueue_get q with
      | None => []
      | Some (e, q') => e :: drain n' q'
      end
  end.

Definition drain_all (q : list entry) : list entry := drain (length q) q.

(** ** The abstract methods of [Database] *)

Class DatabaseImpl (B : Type) := {
  query : string -> M (Store B) (option pyval);
  batch_query : list string -> M (Store B) (list (option pyval));
  query_keys : M (Store B) (list string);
  commit_impl : string -> pyval -> M (Store B) bool;
  batch_commit_impl : list (string * pyval) -> M (Store B) Z;
  count : M (Store B) Z;
  persist : M (Store B) bool;
}.

(** ** The base class [Database] *)

Section Database.
Context {env : Env} {B : Type} {impl : DatabaseImpl B}.

(** [[v for v in self.batch_query(self.query_keys()) if v is not None]] *)
Definition query_all : M (Store B) (list pyval) :=
  keys <- query_keys ;;
  vs <- batch_query keys ;;
  ret (omap id vs).

(** [isinstance(r, HLSResult) and r.valid] *)
Definition valid_HLSResult (r : pyval) : option instance :=
  match r with
  | PyInst i => if is_HLSResult i && valid i then Some i else None
  | _ => None
  end.

Definition init_best_cache : M (Database B) unit :=
  n <- lift count ;;
  if (n =? 0)%Z then ret tt
  else
    rs <- lift query_all ;;
    for_each (omap valid_HLSResult rs) (fun result =>
      if not_duplicated result then
        t <- time_now ;;
        PriorityQueue_put (quality result, t, result)
      else ret tt).

(** [isinstance(r, MerlinResult)] *)
Definition as_MerlinResult (r : pyval) : option instance :=
  match r with
  | PyInst i => if is_MerlinResult i then Some i else None
  | _ => None
  end.

(** [self.code_hash_map[code_hash] = key] *)
Definition code_hash_map_set (code_hash key : string) : M (Database B) unit :=
  modify (fun d => mkDatabase (store d) (best_cache d)
                              (<[code_hash := key]> (code_hash_map d)) (ticks d)).

Definition init_code_hash_map : M (Database B) unit :=
  n <- lift count ;;
  if (n =? 0)%Z then ret tt
  else
    rs <- lift query_all ;;
    for_each (omap as_MerlinResult rs) (fun result =>
      match code_hash result with
      | Some h =>
          if not_duplicated result then
            match point result with
            | Some p => code_hash_map_set h (gen_key_from_design_point p)
            | None => raise AssertionError
            end
          else ret tt
      | None => ret tt
      end).

Definition add_code_hash (code_hash key : string) : M (Database B) (option string) :=
  m <- gets code_hash_map ;;
  match m !! code_hash with
  | Some owner => ret (Some owner)
  | None => code_hash_map_set code_hash key ;;; ret None
  end.

Definition update_best (result : instance) : M (Database B) unit :=
  if not_duplicated result then
    try_except_Exception
      (t <- time_now ;;
       PriorityQueue_put (quality result, t, result))
      (fun err =>
         lift (log_to ERROR ("Failed to update best cache: " ++ str_of_exn err)) ;;;
         raise RuntimeError)
  else ret tt.

(** [if isinstance(result, Result): self.update_best(result)] *)
Definition update_best_if_Result (result : pyval) : M (Database B) unit :=
  match result with
  | PyInst r => if is_Result r then update_best r else ret tt
  | _ => ret tt
  end.

Definition commit (key : string) (result : pyval) : M (Database B) unit :=
  ok <- lift (commit_impl key result) ;;
  (if negb ok then
     lift (log_to ERROR "Failed to commit results to the database") ;;;
     lift (print "Error: Database connection error") ;;;
     sys_exit 1
   else ret tt) ;;;
  update_best_if_Result result.

Definition batch_commit (pairs : list (string * pyval)) : M (Database B) unit :=
  n <- lift (batch_commit_impl pairs) ;;
  (if negb (n =? len pairs)%Z then
     lift (log_to ERROR "Failed to commit results to the database") ;;;
     lift (print "Error: Database connection error") ;;;
     sys_exit 1
   else ret tt) ;;;
  for_each pairs (fun kv => update_best_if_Result (snd kv)).

End Database.

(** ** [RedisDatabase] *)

(** The Redis hash stored under [self.db_id], a finite map from fields to
    blobs, and the content of the file at [self.db_file_path] when that
    file exists. *)
Record Redis := mkRedis {
  redis_hash : gmap string bytes;
  redis_file : option bytes;
}.

(** What [HGETALL] answers, as the dict the client makes of the reply:
    the fields with their blobs, in the order in which Redis lists
    them. *)
Definition listed {env : Env} (h : gmap string bytes) : dict bytes :=
  omap (fun key => (fun blob => (key, blob)) <$> h !! key) (hash_order h).

(** The hash once the fields of a mapping have been set. *)
Definition hash_update (h : gmap string bytes) (data : dict bytes) : gmap string bytes :=
  fold_left (fun acc kv => <[fst kv := snd kv]> acc) data h.

(** [if pickled_obj:] — neither [None] nor empty *)
Definition truthy (pickled_obj : option bytes) : option bytes :=
  match pickled_obj with
  | Some (b :: bs) => Some (b :: bs)
  | _ => None
  end.

Module RedisDatabase.
Section RedisDatabase.
Context {env : Env}.

Definition hexists (key : string) : M (Store Redis) bool :=
  gets (fun st => match redis_hash (database st) !! key with
                  | Some _ => true
                  | None => false
                  end).

Definition hget (key : string) : M (Store Redis) (option bytes) :=
  gets (fun st => redis_hash (database st) !! key).

Definition hmget (keys : list string) : M (Store Redis) (list (option bytes)) :=
  gets (fun st => map (fun key => redis_hash (database st) !! key) keys).

Definition hkeys : M (Store Redis) (list string) :=
  gets (fun st => hash_order (redis_hash (database st))).

Definition hgetall : M (Store Redis) (dict bytes) :=
  gets (fun st => listed (redis_hash (database st))).

Definition hset (key : string) (value : bytes) : M (Store Redis) unit :=
  modify (set_database (fun r => mkRedis (<[key := value]> (redis_hash r)) (redis_file r))).

(** The client refuses an empty mapping before it talks to the server. *)
Definition hmset (data : dict bytes) : M (Store Redis) unit :=
  match data with
  | [] => raise (OtherError "DataError" "'hmset' with 'mapping' of length 0")
  | _ =>
      modify (set_database
                (fun r => mkRedis (hash_update (redis_hash r) data) (redis_file r)))
  end.

Definition deserialize_error (key err : string) : string :=
  "Failed to deserialize the result of " ++ key ++ ": " ++ err.

Definition query (key : string) : M (Store Redis) (option pyval) :=
  present <- hexists key ;;
  if negb present then ret None
  else
    pickled_obj <- hget key ;;
    match truthy pickled_obj with
    | Some blob =>
        try_except_ValueError
          (v <- call (pickle_loads blob) ;; ret (Some v))
          (fun err => log_to ERROR (deserialize_error key err) ;;; ret None)
    | None => ret None
    end.

(** The loop of [batch_query]; [data] is the list built so far. *)
Fixpoint batch_query_loop (items : list (string * option bytes))
    (data : list (option pyval)) : M (Store Redis) (list (option pyval)) :=
  match items with
  | [] => ret data
  | (key, pickled_obj) :: items' =>
      data' <- match truthy pickled_obj with
               | Some blob =>
                   try_except_ValueError
                     (v <- call (pickle_loads blob) ;; ret (data ++ [Some v])%list)
                     (fun err =>
                        log_to ERROR (deserialize_error key err) ;;;
                        ret (data ++ [None])%list)
               | None => ret (data ++ [None])%list
               end ;;
      batch_query_loop items' data'
  end.

Definition batch_query (keys : list string) : M (Store Redis) (list (option pyval)) :=
  match keys with
  | [] => ret []
  | _ =>
      blobs <- hmget keys ;;
      batch_query_loop (zip keys blobs) []
  end.

(** Keys are kept as strings; the UTF-8 decoding of what [hkeys] returns
    undoes the encoding the client applied when the key was written. *)
Definition query_keys : M (Store Redis) (list string) := hkeys.

Definition persist : M (Store Redis) bool :=
  all <- hgetall ;;
  items <- map_m (fun key => value <- hget key ;; ret (key, value)) (dict_keys all) ;;
  let dump_db := dict_of_pairs items in
  modify (set_database (fun r => mkRedis (redis_hash r) (Some (pickle_dump_file dump_db)))) ;;;
  ret true.

Definition commit_impl (key : string) (result : pyval) : M (Store Redis) bool :=
  let pickled_result := pickle_dumps result in
  hset key pickled_result ;;;
  persist ;;;
  ret true.

Definition batch_commit_impl (pairs : list (string * pyval)) : M (Store Redis) Z :=
  let data := dict_of_pairs (map (fun kv => (fst kv, pickle_dumps (snd kv))) pairs) in
  hmset data ;;;
  persist ;;;
  ret (len data).

Definition count : M (Store Redis) Z :=
  keys <- hkeys ;; ret (len keys).

#[local] Instance impl : DatabaseImpl Redis :=
  Build_DatabaseImpl Redis
    query batch_query query_keys commit_impl batch_commit_impl count persist.

Definition load : M (Database Redis) unit :=
  file <- lift (gets (fun st => redis_file (database st))) ;;
  match file with
  | Some content =>
      data <- lift (try_except_ValueError
                      (call (pickle_load_file content))
                      (fun err =>
                         print ("Failed to initialize the database: " ++ err) ;;;
                         sys_exit 1)) ;;
      lift (log_to INFO ("Load " ++ pretty (length data)
                         ++ " data from an existing database")) ;;;
      lift (hmset data)
  | None => ret tt
  end ;;;
  init_best_cache ;;;
  init_code_hash_map.

(** [__del__]: the hash of this object is deleted from Redis. *)
Definition del : M (Store Redis) unit :=
  modify (set_database (fun r => mkRedis ∅ (redis_file r))).

End RedisDatabase.
End RedisDatabase.

#[global] Existing Instance RedisDatabase.impl.

(** ** [PickleDatabase] *)

(** The [pickledb] object: its in-memory dictionary, and what the last
    [dump()] wrote to [self.db_file_path]. *)
Record PickleDB := mkPickleDB {
  pickle_db : dict pyval;
  pickle_file : option (dict pyval);
}.

Module PickleDatabase.
Section PickleDatabase.
Context {env : Env}.

(** [pickledb.get]: the stored value, or [False] for a missing key *)
Definition get (key : string) : M (Store PickleDB) pyval :=
  gets (fun st => default (PyBool false) (dict_get key (pickle_db (database st)))).

Definition set (key : string) (value : pyval) : M (Store PickleDB) unit :=
  modify (set_database (fun p => mkPickleDB (dict_set key value (pickle_db p)) (pickle_file p))).

Definition getall : M (Store PickleDB) (list string) :=
  gets (fun st => dict_keys (pickle_db (database st))).

Definition totalkeys : M (Store PickleDB) Z :=
  gets (fun st => len (pickle_db (database st))).

Definition dump : M (Store PickleDB) bool :=
  modify (set_database (fun p => mkPickleDB (pickle_db p) (Some (pickle_db p)))) ;;;
  ret true.

(** [None if isinstance(value, bool) else value] *)
Definition none_if_bool (value : pyval) : option pyval :=
  if isinstance_bool value then None else Some value.

Definition query (key : string) : M (Store PickleDB) (option pyval) :=
  value <- get key ;;
  ret (none_if_bool value).

(** The loop of [batch_query]; [values] is the list built so far. *)
Fixpoint batch_query_loop (keys : list string) (values : list (option pyval))
    : M (Store PickleDB) (list (option pyval)) :=
  match keys with
  | [] => ret values
  | key :: keys' =>
      value <- get key ;;
      batch_query_loop keys' (values ++ [none_if_bool value])%list
  end.

Definition batch_query (keys : list string) : M (Store PickleDB) (list (option pyval)) :=
  match keys with
  | [] => ret []
  | _ => batch_query_loop keys []
  end.

Definition query_keys : M (Store PickleDB) (list string) := getall.

Definition commit_impl (key : string) (result : pyval) : M (Store PickleDB) bool :=
  set key result ;;;
  ret true.

Definition batch_commit_impl (pairs : list (string * pyval)) : M (Store PickleDB) Z :=
  for_each pairs (fun kv => set (fst kv) (snd kv)) ;;;
  ret (len pairs).

Definition count : M (Store PickleDB) Z := totalkeys.

Definition persist : M (Store PickleDB) bool :=
  keys <- getall ;;
  for_each keys (fun key =>
    value <- get key ;;
    let pickled_obj := jsonpickle_encode value in
    set key (PyStr pickled_obj)) ;;;
  dump.

#[local] Instance impl : DatabaseImpl PickleDB :=
  Build_DatabaseImpl PickleDB
    query batch_query query_keys commit_impl batch_commit_impl count persist.

Definition load : M (Database PickleDB) unit :=
  lift (try_except_ValueError
          (keys <- getall ;;
           for_each keys (fun key =>
             value <- get key ;;
             obj <- call (jsonpickle_decode value) ;;
             set key obj) ;;;
           n <- count ;;
           log_to INFO ("Load " ++ pretty n ++ " data from an existing database"))
          (fun err =>
             print ("Failed to load the data from the database: " ++ err) ;;;
             sys_exit 1)) ;;;
  init_best_cache ;;;
  init_code_hash_map.

End PickleDatabase.
End PickleDatabase.

#[global] Existing Instance PickleDatabase.impl.

(** ** Call sequences used in the statements *)

(** A sequence of [add_code_hash(code_hash, key)] calls. *)
Definition add_code_hashes {B} (calls : list (string * string)) : M (Database B) unit :=
  for_each calls (fun c => add_code_hash (fst c) (snd c) ;;; ret tt).

(** The entries that [update_best] pushes for the results [rs] when the
    clock has been read [n] times before. *)
Fixpoint stamped {env : Env} (n : nat) (rs : list instance) : list entry :=
  match rs with
  | [] => []
  | r :: rs' => (quality r, time n, r) :: stamped (S n) rs'
  end.

(** The committed values that [commit] and [batch_commit] hand to the best
    cache: the [Result] instances that are not [DUPLICATED]. *)
Definition best_candidate (v : pyval) : option instance :=
  match v with
  | PyInst r => if is_Result r && not_duplicated r then Some r else None
  | _ => None
  end.

(** A best-cache entry without its timestamp. *)
Definition untimed (e : entry) : pyfloat * instance := (entry_quality e, entry_result e).

(** What the Redis adapter makes of the blob stored for one key: a value,
    [None], or the exception that escapes the handler. *)
Definition unpickled {env : Env} (pickled_obj : option bytes) : exn + option pyval :=
  match truthy pickled_obj with
  | None => inr None
  | Some blob =>
      match pickle_loads blob with
      | inr v => inr (Some v)
      | inl (ValueError _) => inr None
      | inl e => inl e
      end
  end.

(** The log line it writes on the way. *)
Definition unpickle_log {env : Env} (key : string) (pickled_obj : option bytes)
    : list (log_level * string) :=
  match truthy pickled_obj with
  | None => []
  | Some blob =>
      match pickle_loads blob with
      | inl (ValueError msg) => [(ERROR, RedisDatabase.deserialize_error key msg)]
      | _ => []
      end
  end.

Definition add_log {B} (lines : list (log_level * string)) (st : Store B) : Store B :=
  mkStore (database st) (log st ++ lines) (stdout st).

(** What the Pickle adapter answers for one key. *)
Definition pickle_lookup (st : Store PickleDB) (key : string) : option pyval :=
  PickleDatabase.none_if_bool
    (default (PyBool false) (dict_get key (pickle_db (database st)))).

(** The value part of an answer that did not raise. *)
Definition answer_of (r : exn + option pyval) : option pyval :=
  match r with inr a => a | inl _ => None end.

Definition answers (r : exn + option pyval) : bool :=
  match r with inr _ => true | inl _ => false end.

(** [x <= y] on floats, as a proposition. *)
Definition float_le (x y : pyfloat) : Prop := float_leb x y = true.

(** Python's tuple order on the first two components of an entry. *)
Definition entry_lt (e1 e2 : entry) : Prop :=
  float_ltb (entry_quality e1) (entry_quality e2) = true
  \/ (float_eqb (entry_quality e1) (entry_quality e2) = true
      /\ (entry_time e1 < entry_time e2)%Z).

(** No quality in the queue is [NaN]. *)
Definition numbers (q : list entry) : Prop :=
  Forall (fun e => entry_quality e <> NaN) q.

(** Timestamps are assigned in strictly increasing order. *)
Definition time_increasing (q : list entry) : Prop :=
  StronglySorted (fun e1 e2 => (entry_time e1 < entry_time e2)%Z) q.

(** A database object as its constructor leaves it when it is given a
    file path: nothing logged, both indices empty, the clock not yet
    read. *)
Definition fresh {B} (backend : B) : Database B :=
  mkDatabase (mkStore backend [] []) [] ∅ 0.

(** What [PickleDatabase.persist] leaves in the dictionary for the results
    [kvs]: every value replaced by its jsonpickle encoding. *)
Definition persisted {env : Env} (kvs : list (string * instance)) : dict pyval :=
  map (fun kr => (fst kr, PyStr (jsonpickle_encode (PyInst (snd kr))))) kvs.

(** The same dictionary once [load] has decoded it. *)
Definition decoded (kvs : list (string * instance)) : dict pyval :=
  map (fun kr => (fst kr, PyInst (snd kr))) kvs.

(** Committing the results [kvs] one after the other. *)
Definition commit_all {env : Env} {B} {impl : DatabaseImpl B} (kvs : list (string * instance))
    : M (Database B) unit :=
  for_each kvs (fun kr => commit (fst kr) (PyInst (snd kr))).

(** The [add_code_hash(code_hash, key)] calls for the results [kvs] that
    carry a hash. *)
Definition hash_calls (kvs : list (string * instance)) : list (string * string) :=
  omap (fun kr => h ← code_hash (snd kr); Some (h, fst kr)) kvs.

(** The binding that the loop of [init_code_hash_map] writes for one
    result, when it writes one. *)
Definition hash_binding {env : Env} (r : instance) : option (string * string) :=
  match code_hash r, point r with
  | Some h, Some p =>
      if not_duplicated r then Some (h, gen_key_from_design_point p) else None
  | _, _ => None
  end.

(** [m[h] = k] for every binding, in order. *)
Definition write_bindings (m : gmap string string) (bs : list (string * string))
    : gmap string string :=
  fold_left (fun acc b => <[fst b := snd b]> acc) bs m.

(** [PriorityQueue.put] never raises in this environment. *)
Definition put_never_raises {env : Env} : Prop :=
  forall q e, put_raises q e = None.

(** The object once the results [rs] went into the best cache, with [st]
    for its store. *)
Definition pushed {env : Env} {B} (rs : list instance) (st : Store B) (d : Database B)
    : Database B :=
  mkDatabase st (best_cache d ++ stamped (ticks d) rs) (code_hash_map d)
             (ticks d + length rs).

(** ** A concrete environment and sample data *)

Definition point_1 : DesignPoint := [("PARA", 1)].
Definition point_2 : DesignPoint := [("PARA", 2)].

(** An [HLSResult] that is valid, with the given quality. *)
Definition hls_result (p : DesignPoint) (q : Z) : instance :=
  mkInstance true true false (Some p) VALID true (Num q) None.

(** A [MerlinResult] with the given code hash. *)
Definition merlin_result (p : DesignPoint) (h : string) : instance :=
  mkInstance true false true (Some p) VALID false (Num 0) (Some h).

(** A [MerlinResult] marked as a duplicate. *)
Definition duplicated_result (p : DesignPoint) (h : string) : instance :=
  mkInstance true false true (Some p) DUPLICATED false (Num 0) (Some h).

(** The values the sample serializers know. *)
Definition sample_values : list pyval :=
  [ PyInst (hls_result point_1 5); PyInst (hls_result point_2 3);
    PyInst (merlin_result point_1 "abc"); PyInst (merlin_result point_2 "abc");
    PyInst (merlin_result point_2 "xyz"); PyInst (duplicated_result point_2 "abc");
    PyStr "note" ].

Definition sample_index (v : pyval) : nat :=
  match list_find (fun w => w = v) sample_values with
  | Some (i, _) => i
  | None => length sample_values
  end.

(** A key in the style of [gen_key_from_design_point]: [name-value] joined
    by dots. *)
Definition sample_key (p : DesignPoint) : string :=
  String.concat "." (map (fun nv => fst nv ++ "-" ++ pretty (snd nv)) p).

(** A pickle: a protocol byte followed by as many bytes as the index of the
    value.  Reading an index out of range is a [ValueError], reading
    anything that does not start with the protocol byte an
    [UnpicklingError], which is not a [ValueError]. *)
Definition sample_dumps (v : pyval) : bytes :=
  Byte.x80 :: replicate (sample_index v) Byte.x2e.

Definition sample_loads (blob : bytes) : exn + pyval :=
  match blob with
  | Byte.x80 :: rest =>
      match sample_values !! length rest with
      | Some v => inr v
      | None => inl (ValueError "unsupported pickle protocol")
      end
  | _ => inl (OtherError "UnpicklingError" "invalid load key")
  end.

Definition sample_encode (v : pyval) : string :=
  String.concat "" (replicate (sample_index v) "#").

Definition sample_decode (v : pyval) : exn + pyval :=
  match v with
  | PyStr s =>
      match sample_values !! String.length s with
      | Some w => inr w
      | None => inl (ValueError "Expecting value")
      end
  | _ => inl (OtherError "TypeError" "the JSON object must be str")
  end.

(** A dump file: the protocol bytes [80 04], then item after item.  A
    number is written in unary; an item is the length of its key, the
    key, and a zero byte for [None] or a one byte, the length of the blob
    and the blob. *)
Definition unary (n : nat) : bytes := (replicate n Byte.x01 ++ [Byte.x00])%list.

Fixpoint read_unary (l : bytes) : option (nat * bytes) :=
  match l with
  | Byte.x00 :: rest => Some (0%nat, rest)
  | Byte.x01 :: rest =>
      match read_unary rest with
      | Some (n, rest') => Some (S n, rest')
      | None => None
      end
  | _ => None
  end.

Definition sample_dump_file (d : dict (option bytes)) : bytes :=
  Byte.x80 :: Byte.x04
  :: mjoin (map (fun kv =>
                   unary (String.length (fst kv)) ++ list_byte_of_string (fst kv)
                   ++ match snd kv with
                      | Some blob => Byte.x01 :: unary (length blob) ++ blob
                      | None => [Byte.x00]
                      end)%list d).

Fixpoint file_items (fuel : nat) (l : bytes) : option (dict bytes) :=
  match l, fuel with
  | [], _ => Some []
  | _, O => None
  | _, S fuel' =>
      match read_unary l with
      | Some (n, l1) =>
          match drop n l1 with
          | Byte.x01 :: l2 =>
              match read_unary l2 with
              | Some (m, l3) =>
                  match file_items fuel' (drop m l3) with
                  | Some items =>
                      Some ((string_of_list_byte (take n l1), take m l3) :: items)
                  | None => None
                  end
              | None => None
              end
          | _ => None
          end
      | None => None
      end
  end.

(** Reading a file of another protocol is a [ValueError], reading
    anything else that is not a dump an [UnpicklingError]. *)
Definition sample_load_file (content : bytes) : exn + dict bytes :=
  match content with
  | Byte.x80 :: Byte.x04 :: items =>
      match file_items (length items) items with
      | Some d => inr d
      | None => inl (OtherError "UnpicklingError" "pickle data was truncated")
      end
  | Byte.x80 :: _ :: _ => inl (ValueError "unsupported pickle protocol")
  | _ => inl (OtherError "UnpicklingError" "invalid load key")
  end.

(** Redis lists the fields of a hash in an order that has nothing to do
    with the order in which they were set; here, in the order of the
    finite map. *)
Definition sample_order (h : gmap string bytes) : list string := (map_to_list h).*1.

(** The sample environment; its clock advances with every reading. *)
Definition sample_env : Env := {|
  time := Z.of_nat;
  gen_key_from_design_point := sample_key;
  pickle_dumps := sample_dumps;
  pickle_loads := sample_loads;
  pickle_dump_file := sample_dump_file;
  pickle_load_file := sample_load_file;
  jsonpickle_encode := sample_encode;
  jsonpickle_decode := sample_decode;
  put_raises := fun _ _ => None;
  hash_order := sample_order;
  hash_order_lists := fun h => Permutation_refl _;
|}.

(** The same environment with a clock that reads the same value twice in a
    row. *)
Definition coarse_clock_env : Env := {|
  time := fun n => Z.of_nat (n / 2);
  gen_key_from_design_point := sample_key;
  pickle_dumps := sample_dumps;
  pickle_loads := sample_loads;
  pickle_dump_file := sample_dump_file;
  pickle_load_file := sample_load_file;
  jsonpickle_encode := sample_encode;
  jsonpickle_decode := sample_decode;
  put_raises := fun _ _ => None;
  hash_order := sample_order;
  hash_order_lists := fun h => Permutation_refl _;
|}.

(** A backend that refuses every write. *)
#[local] Instance RefusingDatabase : DatabaseImpl unit := {|
  query := fun _ => ret None;
  batch_query := fun keys => ret (map (fun _ => None) keys);
  query_keys := ret [];
  commit_impl := fun _ _ => ret false;
  batch_commit_impl := fun _ => ret 0%Z;
  count := ret 0%Z;
  persist := ret false;
|}.

(** Empty backends. *)
Definition empty_pickle : PickleDB := mkPickleDB [] None.
Definition empty_redis : Redis := mkRedis ∅ None.

(** Two valid HLS results of different quality, under the keys of their
    points. *)
Definition sample_hls : list (string * instance) :=
  [("PARA-1", hls_result point_1 5); ("PARA-2", hls_result point_2 3)].

(** Two Merlin results with different code hashes. *)
Definition sample_merlin : list (string * instance) :=
  [("PARA-1", merlin_result point_1 "abc"); ("PARA-2", merlin_result point_2 "xyz")].

(** Two Merlin results, neither [DUPLICATED], with the same code hash. *)
Definition sample_same_hash : list (string * instance) :=
  [("PARA-1", merlin_result point_1 "abc"); ("PARA-2", merlin_result point_2 "abc")].

(** A Redis hash with a good blob, a blob of an unsupported protocol, an
    empty blob and a corrupted blob. *)
Definition sample_hash : gmap string bytes :=
  list_to_map
    [("good", sample_dumps (PyStr "note"));
     ("stale", Byte.x80 :: replicate 9 Byte.x2e);
     ("empty", []);
     ("corrupt", [Byte.x00])].

Definition sample_store : Store Redis := mkStore (mkRedis sample_hash None) [] [].

(** ** More call sequences and environments *)

(** The state an outcome ends in. *)
Definition final_state {S A} (o : outcome S A) : S :=
  match o with
  | Ret _ s => s
  | SysExit _ s => s
  | Raise _ s => s
  end.

(** A method that leaves a part of the state alone, whatever its
    outcome. *)
Definition keeps {S A X} (part : S -> X) (m : M S A) : Prop :=
  forall s, part (final_state (m s)) = part s.

(** The backend data of a database object. *)
Definition backend {B} (d : Database B) : B := database (store d).

(** Committing the pairs one after the other. *)
Definition commits {env : Env} {B} {impl : DatabaseImpl B} (pairs : list (string * pyval))
    : M (Database B) unit :=
  for_each pairs (fun kv => commit (fst kv) (snd kv)).

(** What [PickleDatabase.persist] makes of a dictionary: every value
    replaced by its jsonpickle encoding. *)
Definition encoded {env : Env} (db : dict pyval) : dict pyval :=
  map (fun kv => (fst kv, PyStr (jsonpickle_encode (snd kv)))) db.

(** The dictionary that [RedisDatabase.persist] dumps for what [HGETALL]
    has answered. *)
Definition dumped (h : dict bytes) : dict (option bytes) :=
  map (fun kv => (fst kv, Some (snd kv))) h.

(** The mapping that a dump of the results [kvs] holds: each result
    pickled under its key, in persisted order. *)
Definition pickled {env : Env} (kvs : list (string * instance)) : dict bytes :=
  map (fun kr => (fst kr, pickle_dumps (PyInst (snd kr)))) kvs.

(** The sample environment with a queue in which every [put] finds two
    results that cannot be compared. *)
Definition put_fails_env : Env := {|
  time := Z.of_nat;
  gen_key_from_design_point := sample_key;
  pickle_dumps := sample_dumps;
  pickle_loads := sample_loads;
  pickle_dump_file := sample_dump_file;
  pickle_load_file := sample_load_file;
  jsonpickle_encode := sample_encode;
  jsonpickle_decode := sample_decode;
  put_raises := fun q e =>
    Some (OtherError "TypeError" "'<' not supported between instances", (q ++ [e])%list);
  hash_order := sample_order;
  hash_order_lists := fun h => Permutation_refl _;
|}.


(** * Properties *)

Local Open Scope list_scope.

(** ** Dictionaries *)

Section Dict.
Context {V : Type}.
Implicit Types (d : dict V) (k : string) (v : V) (pairs : list (string * V)).

Lemma dict_get_set_eq k v d : dict_get k (dict_set k v d) = Some v.
Proof.
  induction d as [|[k' v'] d IH]; simpl.
  - by rewrite String.eqb_refl.
  - destruct (String.eqb k k') eqn:E; simpl; rewrite ?String.eqb_refl, ?E; done.
Qed.

Lemma dict_get_set_ne k k' v d : k ≠ k' -> dict_get k' (dict_set k v d) = dict_get k' d.
Proof.
  intros Hne. induction d as [|[k0 v0] d IH]; simpl.
  - destruct (String.eqb k' k) eqn:E; [|done].
    apply String.eqb_eq in E. congruence.
  - destruct (String.eqb k k0) eqn:E; simpl.
    + apply String.eqb_eq in E. subst k0.
      destruct (String.eqb k' k) eqn:E'; [|done].
      apply String.eqb_eq in E'. congruence.
    + by rewrite IH.
Qed.

Lemma dict_get_None k d : dict_get k d = None <-> k ∉ dict_keys d.
Proof.
  induction d as [|[k' v'] d IH]; simpl.
  - split; [intros _; apply not_elem_of_nil | done].
  - destruct (String.eqb k k') eqn:E.
    + apply String.eqb_eq in E. subst. split; [done|].
      intros Hn. exfalso. apply Hn. left.
    + apply String.eqb_neq in E. rewrite IH, not_elem_of_cons. tauto.
Qed.

Lemma dict_set_fresh k v d : k ∉ dict_keys d -> dict_set k v d = (d ++ [(k, v)])%list.
Proof.
  induction d as [|[k' v'] d IH]; simpl; [done|].
  rewrite not_elem_of_cons. intros [Hne Hnin].
  apply String.eqb_neq in Hne. rewrite Hne. by rewrite IH.
Qed.

Lemma dict_keys_set_known k v d : k ∈ dict_keys d -> dict_keys (dict_set k v d) = dict_keys d.
Proof.
  induction d as [|[k' v'] d IH]; simpl.
  - intros Hin. by apply elem_of_nil in Hin.
  - intros Hin. destruct (String.eqb k k') eqn:E; simpl.
    + apply String.eqb_eq in E. by subst.
    + apply String.eqb_neq in E. apply elem_of_cons in Hin as [?|Hin]; [done|].
      by rewrite IH.
Qed.

Lemma dict_keys_set k v d :
  dict_keys (dict_set k v d)
  = if decide (k ∈ dict_keys d) then dict_keys d else (dict_keys d ++ [k])%list.
Proof.
  case_decide as Hin.
  - by apply dict_keys_set_known.
  - rewrite dict_set_fresh by done. unfold dict_keys. by rewrite map_app.
Qed.

Lemma dict_keys_set_elem k k' v d :
  k' ∈ dict_keys (dict_set k v d) <-> k' = k \/ k' ∈ dict_keys d.
Proof.
  rewrite dict_keys_set. case_decide as Hin.
  - split; [tauto|]. intros [->|?]; done.
  - rewrite elem_of_app, list_elem_of_singleton. tauto.
Qed.

Lemma dict_keys_set_NoDup k v d : NoDup (dict_keys d) -> NoDup (dict_keys (dict_set k v d)).
Proof.
  intros Hnd. rewrite dict_keys_set. case_decide as Hin; [done|].
  apply NoDup_app. split; [done|]. split.
  - intros x Hx Hk. apply list_elem_of_singleton in Hk. by subst.
  - apply NoDup_singleton.
Qed.

Lemma dict_update_keys_NoDup pairs : forall d,
  NoDup (dict_keys d) -> NoDup (dict_keys (dict_update d pairs)).
Proof.
  induction pairs as [|[k v] pairs IH]; intros d Hnd; simpl; [done|].
  apply IH. by apply dict_keys_set_NoDup.
Qed.

Lemma dict_update_keys_elem pairs : forall d k,
  k ∈ dict_keys (dict_update d pairs) <-> k ∈ dict_keys d \/ k ∈ map fst pairs.
Proof.
  induction pairs as [|[k0 v0] pairs IH]; intros d k; simpl.
  - rewrite elem_of_nil. tauto.
  - unfold dict_update in *. simpl. rewrite IH, dict_keys_set_elem, elem_of_cons. tauto.
Qed.

(** Distinct fresh keys are appended in order. *)
Lemma dict_update_fresh pairs : forall d,
  NoDup (map fst pairs) ->
  (forall k, k ∈ map fst pairs -> k ∉ dict_keys d) ->
  dict_update d pairs = (d ++ pairs)%list.
Proof.
  induction pairs as [|[k v] pairs IH]; intros d Hnd Hfresh; simpl.
  - by rewrite app_nil_r.
  - simpl in Hnd. apply NoDup_cons in Hnd as [Hk Hnd].
    unfold dict_update in *. simpl.
    rewrite dict_set_fresh by (apply Hfresh; left).
    rewrite IH; [by rewrite <- app_assoc | done |].
    intros k' Hk'. unfold dict_keys. rewrite map_app, elem_of_app. simpl.
    intros [Hin|Hin].
    + apply (Hfresh k'); [by right | done].
    + apply list_elem_of_singleton in Hin. by subst.
Qed.

Lemma dict_of_pairs_NoDup pairs : NoDup (map fst pairs) -> dict_of_pairs pairs = pairs.
Proof.
  intros Hnd. unfold dict_of_pairs. rewrite dict_update_fresh; [done..|].
  intros k _. apply not_elem_of_nil.
Qed.

(** A dictionary built from pairs has one item per distinct key. *)
Lemma dict_of_pairs_length pairs :
  length (dict_of_pairs pairs) = length (remove_dups (map fst pairs)).
Proof.
  transitivity (length (dict_keys (dict_of_pairs pairs))).
  { unfold dict_keys. by rewrite length_map. }
  apply Permutation_length, NoDup_Permutation.
  - apply dict_update_keys_NoDup, NoDup_nil_2.
  - apply NoDup_remove_dups.
  - intros k. unfold dict_of_pairs. rewrite dict_update_keys_elem, elem_of_remove_dups.
    simpl. rewrite elem_of_nil. tauto.
Qed.

Lemma dict_get_NoDup k v d : NoDup (dict_keys d) -> (k, v) ∈ d -> dict_get k d = Some v.
Proof.
  induction d as [|[k' v'] d IH]; simpl; intros Hnd Hin.
  - by apply elem_of_nil in Hin.
  - apply NoDup_cons in Hnd as [Hk Hnd].
    apply elem_of_cons in Hin as [Heq|Hin].
    + injection Heq as -> ->. by rewrite String.eqb_refl.
    + destruct (String.eqb k k') eqn:E; [|by apply IH].
      apply String.eqb_eq in E. subst k'. exfalso. apply Hk.
      apply list_elem_of_fmap. by exists (k, v).
Qed.

End Dict.


(** ** The code-hash index *)

Section CodeHashIndex.
Context {B : Type}.
Implicit Types (d : Database B) (h k : string).

Lemma add_code_hash_new h k d :
  code_hash_map d !! h = None ->
  add_code_hash h k d
  = Ret None (mkDatabase (store d) (best_cache d) (<[h := k]> (code_hash_map d)) (ticks d)).
Proof.
  intros Hnew. unfold add_code_hash, bind, gets. rewrite Hnew. reflexivity.
Qed.

Lemma add_code_hash_known h k owner d :
  code_hash_map d !! h = Some owner ->
  add_code_hash h k d = Ret (Some owner) d.
Proof.
  intros Hold. unfold add_code_hash, bind, gets. rewrite Hold. reflexivity.
Qed.

(** No call of [add_code_hash] changes the owner of a recorded hash. *)
Lemma add_code_hashes_keep calls : forall h owner d,
  code_hash_map d !! h = Some owner ->
  exists d', add_code_hashes calls d = Ret tt d'
             /\ code_hash_map d' !! h = Some owner.
Proof.
  induction calls as [|[h' k'] calls IH]; intros h owner d Hown.
  - exists d. split; [reflexivity | assumption].
  - unfold add_code_hashes. simpl. unfold bind at 1 2.
    destruct (code_hash_map d !! h') as [owner'|] eqn:Hh'.
    + rewrite (add_code_hash_known _ _ _ _ Hh'). simpl.
      apply (IH h owner d Hown).
    + rewrite (add_code_hash_new _ _ _ Hh'). simpl.
      apply IH. simpl.
      rewrite lookup_insert_ne; [assumption|].
      intros ->. rewrite Hown in Hh'. discriminate.
Qed.

(** C4: on a map that does not contain [h], [add_code_hash h k1] answers
    [None] and records [k1]; after any further [add_code_hash] calls,
    [add_code_hash h k2] answers [k1] and changes nothing. *)
Theorem add_code_hash_check_and_set h k1 k2 calls d :
  code_hash_map d !! h = None ->
  exists d1 d2,
    add_code_hash h k1 d = Ret None d1
    /\ code_hash_map d1 !! h = Some k1
    /\ add_code_hashes calls d1 = Ret tt d2
    /\ add_code_hash h k2 d2 = Ret (Some k1) d2
    /\ code_hash_map d2 !! h = Some k1.
Proof.
  intros Hnew.
  pose proof (add_code_hash_new h k1 d Hnew) as Hfirst.
  set (d1 := mkDatabase (store d) (best_cache d) (<[h := k1]> (code_hash_map d)) (ticks d)) in *.
  assert (Hrec : code_hash_map d1 !! h = Some k1) by apply lookup_insert_eq.
  destruct (add_code_hashes_keep calls h k1 d1 Hrec) as (d2 & Hrun & Hkeep).
  exists d1, d2. repeat split; try assumption.
  apply add_code_hash_known, Hkeep.
Qed.

End CodeHashIndex.

(** ** Feeding the best cache *)

Section UpdateBest.
Context {env : Env} {B : Type}.
Implicit Types (d : Database B) (r : instance).

Lemma pushed_nil (st : Store B) d : pushed [] st d = with_store st d.
Proof. unfold pushed, with_store. simpl. by rewrite app_nil_r, Nat.add_0_r. Qed.

Lemma pushed_nil_store d : pushed [] (store d) d = d.
Proof. rewrite pushed_nil. by destruct d. Qed.

Lemma stamped_app rs1 : forall n rs2,
  stamped n (rs1 ++ rs2) = stamped n rs1 ++ stamped (n + length rs1) rs2.
Proof.
  induction rs1 as [|r rs1 IH]; intros n rs2; simpl.
  - by rewrite Nat.add_0_r.
  - rewrite IH. do 3 f_equal. lia.
Qed.

Lemma pushed_pushed rs1 rs2 (st1 st2 : Store B) d :
  pushed rs2 st2 (pushed rs1 st1 d) = pushed (rs1 ++ rs2) st2 d.
Proof.
  unfold pushed. cbn [best_cache code_hash_map ticks].
  by rewrite stamped_app, length_app, <- app_assoc, Nat.add_assoc.
Qed.

Lemma stamped_untimed rs : forall n,
  map untimed (stamped n rs) = map (fun r => (quality r, r)) rs.
Proof. induction rs as [|r rs IH]; intros n; simpl; [done|]. by rewrite IH. Qed.

(** What one call does, by what [put] does. *)
Lemma update_best_run r d :
  update_best r d
  = if not_duplicated r then
      match put_raises (best_cache d) (quality r, time (ticks d), r) with
      | None => Ret tt (pushed [r] (store d) d)
      | Some (err, kept) =>
          Raise RuntimeError
                (mkDatabase
                   (add_log [(ERROR, "Failed to update best cache: " ++ str_of_exn err)%string]
                            (store d))
                   kept (code_hash_map d) (S (ticks d)))
      end
    else Ret tt d.
Proof.
  unfold update_best. destruct (not_duplicated r); [|reflexivity].
  unfold try_except_Exception, bind at 1, time_now, PriorityQueue_put.
  cbn [best_cache store code_hash_map ticks].
  destruct (put_raises _ _) as [[err kept]|]; [reflexivity|].
  unfold pushed. cbn [stamped length]. by rewrite Nat.add_1_r.
Qed.

Lemma update_best_if_Result_skip v d :
  best_candidate v = None -> update_best_if_Result v d = Ret tt d.
Proof.
  destruct v as [b|s|r]; simpl; try done.
  destruct (is_Result r); simpl; [|done].
  rewrite update_best_run. by destruct (not_duplicated r).
Qed.

(** A call either pushes its candidate or fails because [put] raised. *)
Lemma update_best_if_Result_cases v d :
  update_best_if_Result v d = Ret tt (pushed (omap best_candidate [v]) (store d) d)
  \/ ((exists d', update_best_if_Result v d = Raise RuntimeError d')
      /\ ~ put_never_raises).
Proof.
  destruct (best_candidate v) as [r|] eqn:Hc.
  - destruct v as [b|s|r']; simpl in Hc; try done.
    destruct (is_Result r') eqn:HR; simpl in Hc; [|done].
    destruct (not_duplicated r') eqn:Hnd; [|done]. injection Hc as ->.
    cbn [update_best_if_Result omap list_omap best_candidate].
    rewrite HR, Hnd. cbn [andb]. rewrite update_best_run, Hnd.
    destruct (put_raises _ _) as [[err kept]|] eqn:Hput; [right|by left].
    split; [eauto|]. intros Hnever. by rewrite Hnever in Hput.
  - left. rewrite (update_best_if_Result_skip _ _ Hc).
    cbn [omap list_omap]. rewrite Hc. by rewrite pushed_nil_store.
Qed.

(** The loop of [batch_commit] pushes every candidate, or fails because
    [put] raised. *)
Lemma update_best_loop_cases (pairs : list (string * pyval)) : forall d,
  for_each pairs (fun kv => update_best_if_Result (snd kv)) d
  = Ret tt (pushed (omap best_candidate (map snd pairs)) (store d) d)
  \/ ((exists d', for_each pairs (fun kv => update_best_if_Result (snd kv)) d
                  = Raise RuntimeError d')
      /\ ~ put_never_raises).
Proof.
  induction pairs as [|[k v] pairs IH]; intros d.
  - left. simpl. by rewrite pushed_nil_store.
  - cbn [for_each map snd]. unfold bind.
    destruct (update_best_if_Result_cases v d) as [->|[[d' ->] Hput]].
    + destruct (IH (pushed (omap best_candidate [v]) (store d) d))
        as [->|[[d' ->] Hput]]; [left|right; eauto].
      cbn [store pushed]. rewrite pushed_pushed, <- omap_app. done.
    + right. eauto.
Qed.

(** A loop whose body pushes one result at a time pushes them all, or
    fails because [put] raised. *)
Lemma pushing_loop_cases (body : instance -> M (Database B) unit) :
  (forall r d,
      body r d = Ret tt (if not_duplicated r then pushed [r] (store d) d else d)
      \/ ((exists err d', body r d = Raise err d') /\ ~ put_never_raises)) ->
  forall rs d,
    for_each rs body d
    = Ret tt (pushed (filter (fun r => ret_code r ≠ DUPLICATED) rs) (store d) d)
    \/ ((exists err d', for_each rs body d = Raise err d') /\ ~ put_never_raises).
Proof.
  intros Hbody rs. induction rs as [|r rs IH]; intros d.
  - left. simpl. by rewrite pushed_nil_store.
  - cbn [for_each]. rewrite filter_cons. unfold bind.
    destruct (Hbody r d) as [->|[(err & d' & ->) Hput]]; [|right; eauto].
    unfold not_duplicated. case_bool_decide; case_decide; try done.
    destruct (IH (pushed [r] (store d) d)) as [->|[(err & d' & ->) Hput]];
      [left|right; eauto].
    cbn [store pushed]. by rewrite pushed_pushed.
Qed.

Lemma update_best_cases r d :
  update_best r d = Ret tt (if not_duplicated r then pushed [r] (store d) d else d)
  \/ ((exists err d', update_best r d = Raise err d') /\ ~ put_never_raises).
Proof.
  rewrite update_best_run. destruct (not_duplicated r); [|by left].
  destruct (put_raises _ _) as [[err kept]|] eqn:Hput; [right|by left].
  split; [eauto|]. intros Hnever. by rewrite Hnever in Hput.
Qed.

End UpdateBest.

(** ** The commit paths *)

Section Commit.
Context {env : Env} {B : Type} {impl : DatabaseImpl B}.
Implicit Types (d : Database B) (st : Store B).

(** What the fatal branch leaves behind: the error is logged and the
    message printed. *)
Lemma commit_rejected key result d st :
  commit_impl key result (store d) = Ret false st ->
  commit key result d
  = SysExit 1 (with_store
                 (mkStore (database st)
                          (log st ++ [(ERROR, "Failed to commit results to the database")])
                          (stdout st ++ ["Error: Database connection error"]))
                 d).
Proof.
  intros Himpl. unfold commit, bind, lift. rewrite Himpl. reflexivity.
Qed.

Lemma batch_commit_rejected pairs d n st :
  batch_commit_impl pairs (store d) = Ret n st ->
  n ≠ len pairs ->
  batch_commit pairs d
  = SysExit 1 (with_store
                 (mkStore (database st)
                          (log st ++ [(ERROR, "Failed to commit results to the database")])
                          (stdout st ++ ["Error: Database connection error"]))
                 d).
Proof.
  intros Himpl Hn. unfold batch_commit, bind, lift. rewrite Himpl.
  apply Z.eqb_neq in Hn. rewrite Hn. reflexivity.
Qed.

Lemma commit_cases key result d st :
  commit_impl key result (store d) = Ret true st ->
  commit key result d = Ret tt (pushed (omap best_candidate [result]) st d)
  \/ ((exists d', commit key result d = Raise RuntimeError d') /\ ~ put_never_raises).
Proof.
  intros Himpl. unfold commit, bind, lift. rewrite Himpl. simpl. unfold ret.
  destruct (update_best_if_Result_cases result (with_store st d)) as [->|[[d' ->] Hput]].
  - by left.
  - right. eauto.
Qed.

Lemma batch_commit_cases pairs d st :
  batch_commit_impl pairs (store d) = Ret (len pairs) st ->
  batch_commit pairs d = Ret tt (pushed (omap best_candidate (map snd pairs)) st d)
  \/ ((exists d', batch_commit pairs d = Raise RuntimeError d') /\ ~ put_never_raises).
Proof.
  intros Himpl. unfold batch_commit, bind, lift. rewrite Himpl.
  rewrite Z.eqb_refl. simpl. unfold ret.
  destruct (update_best_loop_cases pairs (with_store st d)) as [->|[[d' ->] Hput]].
  - by left.
  - right. eauto.
Qed.

Lemma commit_accepted key result d st :
  put_never_raises ->
  commit_impl key result (store d) = Ret true st ->
  commit key result d = Ret tt (pushed (omap best_candidate [result]) st d).
Proof.
  intros Hput Himpl. by destruct (commit_cases key result d st Himpl) as [?|[_ ?]].
Qed.

Lemma batch_commit_accepted pairs d st :
  put_never_raises ->
  batch_commit_impl pairs (store d) = Ret (len pairs) st ->
  batch_commit pairs d = Ret tt (pushed (omap best_candidate (map snd pairs)) st d).
Proof.
  intros Hput Himpl. by destruct (batch_commit_cases pairs d st Himpl) as [?|[_ ?]].
Qed.

(** When [commit] returns, the object is the one with the candidate
    pushed. *)
Lemma commit_returns key result d st d' :
  commit_impl key result (store d) = Ret true st ->
  commit key result d = Ret tt d' ->
  d' = pushed (omap best_candidate [result]) st d.
Proof.
  intros Himpl Hrun.
  destruct (commit_cases key result d st Himpl) as [Hok|[[d'' Hfail] _]]; congruence.
Qed.

Lemma batch_commit_returns pairs d st d' :
  batch_commit_impl pairs (store d) = Ret (len pairs) st ->
  batch_commit pairs d = Ret tt d' ->
  d' = pushed (omap best_candidate (map snd pairs)) st d.
Proof.
  intros Himpl Hrun.
  destruct (batch_commit_cases pairs d st Himpl) as [Hok|[[d'' Hfail] _]]; congruence.
Qed.

(** Without a candidate nothing is put, and the call returns. *)
Lemma commit_skip key result d st :
  commit_impl key result (store d) = Ret true st ->
  best_candidate result = None ->
  commit key result d = Ret tt (with_store st d).
Proof.
  intros Himpl Hnone. unfold commit, bind, lift. rewrite Himpl. simpl. unfold ret.
  by apply update_best_if_Result_skip.
Qed.

Lemma update_best_loop_skip (pairs : list (string * pyval)) : forall d,
  Forall (fun kv => best_candidate (snd kv) = None) pairs ->
  for_each pairs (fun kv => update_best_if_Result (snd kv)) d = Ret tt d.
Proof.
  induction pairs as [|[k v] pairs IH]; intros d Hnone; [done|].
  apply Forall_cons in Hnone as [Hv Hnone]. cbn [for_each snd]. unfold bind.
  rewrite (update_best_if_Result_skip _ _ Hv). by apply IH.
Qed.

Lemma batch_commit_skip pairs d st :
  batch_commit_impl pairs (store d) = Ret (len pairs) st ->
  Forall (fun kv => best_candidate (snd kv) = None) pairs ->
  batch_commit pairs d = Ret tt (with_store st d).
Proof.
  intros Himpl Hnone. unfold batch_commit, bind, lift. rewrite Himpl.
  rewrite Z.eqb_refl. simpl. unfold ret. by apply update_best_loop_skip.
Qed.

(** C7: when [commit_impl] answers [False], or [batch_commit_impl] reports
    fewer writes than there are pairs, the call logs an error and leaves
    through [sys.exit(1)]; the best cache is as it was before the call. *)
Theorem write_failure_is_fatal key result pairs d st1 n st2 :
  commit_impl key result (store d) = Ret false st1 ->
  batch_commit_impl pairs (store d) = Ret n st2 ->
  (n < len pairs)%Z ->
  (exists d',
      commit key result d = SysExit 1 d'
      /\ log (store d') = log st1 ++ [(ERROR, "Failed to commit results to the database")]
      /\ best_cache d' = best_cache d
      /\ code_hash_map d' = code_hash_map d)
  /\ (exists d',
         batch_commit pairs d = SysExit 1 d'
         /\ log (store d') = log st2 ++ [(ERROR, "Failed to commit results to the database")]
         /\ best_cache d' = best_cache d
         /\ code_hash_map d' = code_hash_map d)
  /\ (1 ≠ 0)%Z.
Proof.
  intros Hc Hb Hlt. split; [|split; [|done]].
  - eexists. split; [by apply commit_rejected|done].
  - eexists. split; [apply (batch_commit_rejected _ _ n st2); [done|lia]|done].
Qed.

End Commit.

(** ** The Pickle adapter *)

Section PickleAdapter.
Context {env : Env}.
Implicit Types (st : Store PickleDB) (d : Database PickleDB).

Lemma pickle_query_run key st :
  PickleDatabase.query key st = Ret (pickle_lookup st key) st.
Proof. reflexivity. Qed.

Lemma pickle_batch_query_loop keys : forall values st,
  PickleDatabase.batch_query_loop keys values st
  = Ret (values ++ map (pickle_lookup st) keys) st.
Proof.
  induction keys as [|key keys IH]; intros values st; simpl.
  - by rewrite app_nil_r.
  - unfold bind, PickleDatabase.get, gets. rewrite IH, <- app_assoc. reflexivity.
Qed.

Lemma pickle_batch_query_run keys st :
  PickleDatabase.batch_query keys st = Ret (map (pickle_lookup st) keys) st.
Proof.
  destruct keys as [|key keys]; [reflexivity|].
  unfold PickleDatabase.batch_query. by rewrite pickle_batch_query_loop.
Qed.

Lemma pickle_commit_impl_run key v st :
  PickleDatabase.commit_impl key v st
  = Ret true (mkStore (mkPickleDB (dict_set key v (pickle_db (database st)))
                                  (pickle_file (database st)))
                      (log st) (stdout st)).
Proof. reflexivity. Qed.

Lemma pickle_set_loop (pairs : list (string * pyval)) : forall st,
  for_each pairs (fun kv => PickleDatabase.set (fst kv) (snd kv)) st
  = Ret tt (mkStore (mkPickleDB (dict_update (pickle_db (database st)) pairs)
                                (pickle_file (database st)))
                    (log st) (stdout st)).
Proof.
  induction pairs as [|[k v] pairs IH]; intros st.
  - by destruct st as [[] ? ?].
  - cbn [for_each]. unfold bind at 1. unfold PickleDatabase.set at 1, modify.
    rewrite IH. reflexivity.
Qed.

Lemma pickle_batch_commit_impl_run pairs st :
  PickleDatabase.batch_commit_impl pairs st
  = Ret (len pairs)
        (mkStore (mkPickleDB (dict_update (pickle_db (database st)) pairs)
                             (pickle_file (database st)))
                 (log st) (stdout st)).
Proof.
  unfold PickleDatabase.batch_commit_impl, bind. by rewrite pickle_set_loop.
Qed.

Lemma pickle_lookup_set key v st :
  isinstance_bool v = false ->
  pickle_lookup
    (mkStore (mkPickleDB (dict_set key v (pickle_db (database st)))
                         (pickle_file (database st)))
             (log st) (stdout st)) key
  = Some v.
Proof.
  intros Hv. unfold pickle_lookup. simpl. rewrite dict_get_set_eq. simpl.
  unfold PickleDatabase.none_if_bool. by rewrite Hv.
Qed.

End PickleAdapter.

(** ** Redis hashes *)

Section RedisHash.
Context {env : Env}.
Implicit Types (h : gmap string bytes).

Lemma hash_order_NoDup h : NoDup (hash_order h).
Proof. rewrite hash_order_lists. apply NoDup_fst_map_to_list. Qed.

Lemma elem_of_hash_order h k : k ∈ hash_order h <-> is_Some (h !! k).
Proof.
  rewrite hash_order_lists, list_elem_of_fmap. split.
  - intros ([k' v] & -> & Hin). apply elem_of_map_to_list in Hin. by exists v.
  - intros [v Hv]. exists (k, v). split; [done|]. by apply elem_of_map_to_list.
Qed.

Lemma hash_order_length h : length (hash_order h) = size h.
Proof.
  rewrite (Permutation_length (hash_order_lists h)), length_fmap.
  by rewrite length_map_to_list.
Qed.

Lemma hash_order_Permutation h (keys : list string) :
  NoDup keys -> (forall k, k ∈ keys <-> is_Some (h !! k)) -> hash_order h ≡ₚ keys.
Proof.
  intros Hnd Hkeys. apply NoDup_Permutation; [apply hash_order_NoDup|done|].
  intros k. by rewrite elem_of_hash_order, Hkeys.
Qed.

(** What [HGETALL] answers holds every field with its blob. *)
Lemma listed_items h :
  map (fun key => (key, h !! key)) (hash_order h) = map (fun kv => (fst kv, Some (snd kv))) (listed h).
Proof.
  unfold listed.
  assert (Hin : forall k, k ∈ hash_order h -> is_Some (h !! k))
    by (intros k; apply elem_of_hash_order).
  induction (hash_order h) as [|k keys IH]; [done|].
  cbn [map omap list_omap].
  destruct (Hin k ltac:(left)) as [v Hv]. rewrite Hv. cbn.
  f_equal. apply IH. intros k' Hk'. apply Hin. by right.
Qed.

Lemma listed_keys h : dict_keys (listed h) = hash_order h.
Proof.
  pose proof (f_equal (map fst) (listed_items h)) as Hfst.
  rewrite !map_map in Hfst. cbn [fst] in Hfst. rewrite map_id in Hfst.
  unfold dict_keys. rewrite Hfst. by apply map_ext.
Qed.

Lemma listed_NoDup h : NoDup (dict_keys (listed h)).
Proof. rewrite listed_keys. apply hash_order_NoDup. Qed.

Lemma listed_elem h k v : (k, v) ∈ listed h <-> h !! k = Some v.
Proof.
  unfold listed. rewrite list_elem_of_omap. split.
  - intros (k' & _ & Hk'). destruct (h !! k') as [v'|] eqn:Hv; [|done].
    cbn in Hk'. by injection Hk' as -> ->.
  - intros Hv. exists k. split; [apply elem_of_hash_order; eauto|]. by rewrite Hv.
Qed.

Lemma hash_update_app h (ps1 ps2 : dict bytes) :
  hash_update h (ps1 ++ ps2) = hash_update (hash_update h ps1) ps2.
Proof. apply fold_left_app. Qed.

Lemma hash_update_other (ps : dict bytes) : forall h k,
  k ∉ map fst ps -> hash_update h ps !! k = h !! k.
Proof.
  induction ps as [|[k' v'] ps IH]; intros h k Hnin; [done|].
  cbn [map fst] in Hnin. apply not_elem_of_cons in Hnin as [Hne Hnin].
  cbn. fold (hash_update (<[k' := v']> h) ps).
  rewrite IH by done. by rewrite lookup_insert_ne.
Qed.

(** The last value set for a field is the one that stays. *)
Lemma hash_update_last h (ps1 ps2 : dict bytes) k v :
  k ∉ map fst ps2 -> hash_update h (ps1 ++ (k, v) :: ps2) !! k = Some v.
Proof.
  intros Hnin. rewrite hash_update_app. cbn.
  fold (hash_update (<[k := v]> (hash_update h ps1)) ps2).
  rewrite hash_update_other by done. apply lookup_insert_eq.
Qed.

Lemma hash_update_elem h (ps : dict bytes) k v :
  NoDup (map fst ps) -> (k, v) ∈ ps -> hash_update h ps !! k = Some v.
Proof.
  intros Hnd Hin. apply list_elem_of_split in Hin as (ps1 & ps2 & ->).
  apply hash_update_last.
  rewrite map_app in Hnd. apply NoDup_app in Hnd as (_ & _ & Hnd).
  cbn [map fst] in Hnd. by apply NoDup_cons in Hnd as [? _].
Qed.

Lemma hash_update_is_Some (ps : dict bytes) : forall h k,
  is_Some (hash_update h ps !! k) <-> k ∈ map fst ps \/ is_Some (h !! k).
Proof.
  induction ps as [|[k' v'] ps IH]; intros h k.
  - cbn. rewrite elem_of_nil. tauto.
  - cbn. fold (hash_update (<[k' := v']> h) ps).
    rewrite IH, elem_of_cons, lookup_insert_is_Some.
    destruct (decide (k' = k)) as [->|Hne]; [tauto|].
    split; [intros [?|[?|[? ?]]]|intros [[?|?]|?]]; try tauto; congruence.
Qed.

(** Setting what [HGETALL] has answered on an empty hash gives the hash
    back. *)
Lemma hash_update_listed h : hash_update ∅ (listed h) = h.
Proof.
  apply map_eq. intros k. destruct (h !! k) as [v|] eqn:Hv.
  - apply hash_update_elem; [apply listed_NoDup|]. by apply listed_elem.
  - rewrite hash_update_other; [apply lookup_empty|].
    fold (dict_keys (listed h)). rewrite listed_keys, elem_of_hash_order, Hv.
    by intros [? ?].
Qed.

End RedisHash.

(** ** The Redis adapter *)

Section RedisAdapter.
Context {env : Env}.
Implicit Types (st : Store Redis) (d : Database Redis).

Lemma redis_dump_items (keys : list string) st :
  map_m (fun key => value <- RedisDatabase.hget key ;; ret (key, value)) keys st
  = Ret (map (fun key => (key, redis_hash (database st) !! key)) keys) st.
Proof.
  induction keys as [|key keys IH]; [done|].
  cbn [map_m]. unfold bind at 1 2. unfold RedisDatabase.hget at 1, gets, ret at 1.
  unfold bind at 1. by rewrite IH.
Qed.

(** [persist] writes the whole hash to the file. *)
Lemma redis_persist_file st :
  RedisDatabase.persist st
  = Ret true (mkStore (mkRedis (redis_hash (database st))
                               (Some (pickle_dump_file
                                        (map (fun kv => (fst kv, Some (snd kv)))
                                             (listed (redis_hash (database st)))))))
                      (log st) (stdout st)).
Proof.
  unfold RedisDatabase.persist, bind at 1, RedisDatabase.hgetall, gets.
  unfold bind at 1. rewrite redis_dump_items, listed_keys, listed_items.
  unfold bind, modify, set_database, ret. cbn [database log stdout redis_hash].
  rewrite dict_of_pairs_NoDup; [done|].
  rewrite map_map. cbn [fst]. apply listed_NoDup.
Qed.

Lemma redis_persist_run st :
  exists file,
    RedisDatabase.persist st
    = Ret true (mkStore (mkRedis (redis_hash (database st)) (Some file))
                        (log st) (stdout st)).
Proof. eexists. apply redis_persist_file. Qed.

Lemma redis_commit_impl_run key v st :
  exists file,
    RedisDatabase.commit_impl key v st
    = Ret true (mkStore (mkRedis (<[key := pickle_dumps v]> (redis_hash (database st)))
                                 (Some file))
                        (log st) (stdout st)).
Proof.
  unfold RedisDatabase.commit_impl, bind at 1, RedisDatabase.hset, modify.
  unfold bind at 1.
  destruct (redis_persist_run
              (set_database
                 (fun r => mkRedis (<[key := pickle_dumps v]> (redis_hash r))
                                   (redis_file r)) st)) as [file ->].
  by exists file.
Qed.

(** An empty batch is refused by the client. *)
Lemma redis_batch_commit_impl_empty st :
  RedisDatabase.batch_commit_impl [] st
  = Raise (OtherError "DataError" "'hmset' with 'mapping' of length 0") st.
Proof. reflexivity. Qed.

Lemma dict_of_pairs_nonempty {V} (pairs : list (string * V)) :
  pairs <> [] -> dict_of_pairs pairs <> [].
Proof.
  intros Hne Hnil. apply (f_equal (@length _)) in Hnil.
  rewrite dict_of_pairs_length in Hnil.
  destruct pairs as [|[k v] pairs]; [done|].
  cbn [map fst] in Hnil.
  assert (Hin : k ∈ remove_dups (k :: map fst pairs)) by (apply elem_of_remove_dups; left).
  destruct (remove_dups (k :: map fst pairs)); [by apply elem_of_nil in Hin|done].
Qed.

Lemma redis_batch_commit_impl_run pairs st :
  pairs <> [] ->
  let data := dict_of_pairs (map (fun kv => (fst kv, pickle_dumps (snd kv))) pairs) in
  exists file,
    RedisDatabase.batch_commit_impl pairs st
    = Ret (len data)
          (mkStore (mkRedis (hash_update (redis_hash (database st)) data) (Some file))
                   (log st) (stdout st)).
Proof.
  intros Hne data.
  assert (Hdata : data <> []).
  { apply dict_of_pairs_nonempty. by destruct pairs. }
  unfold RedisDatabase.batch_commit_impl, bind at 1. fold data.
  unfold RedisDatabase.hmset. destruct data as [|kv data'] eqn:Hd; [done|].
  unfold modify. unfold bind at 1.
  destruct (redis_persist_run
              (set_database
                 (fun r => mkRedis (hash_update (redis_hash r) (kv :: data')) (redis_file r))
                 st))
    as [file ->].
  by exists file.
Qed.

(** [query] answers from the blob of its key alone. *)
Lemma redis_query_run key st :
  let blob := redis_hash (database st) !! key in
  RedisDatabase.query key st
  = match unpickled blob with
    | inr r => Ret r (add_log (unpickle_log key blob) st)
    | inl e => Raise e st
    end.
Proof.
  destruct st as [[h f] lg out]. cbv zeta.
  unfold RedisDatabase.query, bind, RedisDatabase.hexists, RedisDatabase.hget, gets.
  unfold unpickled, unpickle_log, add_log, log_to, modify.
  cbv beta. cbn [database redis_hash log stdout].
  destruct (h !! key) as [[|b bs]|] eqn:Hc; cbn [truthy negb]; cbv beta;
    cbn [database redis_hash]; rewrite ?Hc; cbn [truthy]; unfold ret.
  - by rewrite app_nil_r.
  - unfold try_except_ValueError, bind, call.
    destruct (pickle_loads (b :: bs)) as [[msg| | |cls msg]|v]; cbn;
      rewrite ?app_nil_r; reflexivity.
  - by rewrite app_nil_r.
Qed.

Lemma zip_with_image {A C} (f : A -> C) (l : list A) :
  zip l (map f l) = map (fun x => (x, f x)) l.
Proof. induction l as [|x l IH]; simpl; [done|]. by rewrite IH. Qed.

Lemma add_log_add_log (l1 l2 : list (log_level * string)) st :
  add_log l2 (add_log l1 st) = add_log (l1 ++ l2) st.
Proof. unfold add_log. simpl. by rewrite app_assoc. Qed.

Lemma add_log_nil st : add_log [] st = st.
Proof. destruct st. unfold add_log. simpl. by rewrite app_nil_r. Qed.

(** One round of the [batch_query] loop. *)
Lemma redis_batch_query_step key blob items data st :
  RedisDatabase.batch_query_loop ((key, blob) :: items) data st
  = match unpickled blob with
    | inr r => RedisDatabase.batch_query_loop items (data ++ [r])
                 (add_log (unpickle_log key blob) st)
    | inl e => Raise e st
    end.
Proof.
  cbn [RedisDatabase.batch_query_loop]. unfold unpickled, unpickle_log, bind at 1.
  destruct (truthy blob) as [b|].
  - unfold try_except_ValueError, bind, call.
    destruct (pickle_loads b) as [[msg| | |cls msg]|v]; simpl;
      rewrite ?add_log_nil; reflexivity.
  - simpl. by rewrite add_log_nil.
Qed.

(** As long as no exception escapes, the loop answers key by key. *)
Lemma redis_batch_query_loop items : forall data st,
  Forall (fun kb => answers (unpickled (snd kb)) = true) items ->
  RedisDatabase.batch_query_loop items data st
  = Ret (data ++ map (fun kb => answer_of (unpickled (snd kb))) items)
        (add_log (mjoin (map (fun kb => unpickle_log (fst kb) (snd kb)) items)) st).
Proof.
  induction items as [|[key blob] items IH]; intros data st Hok.
  - simpl. by rewrite app_nil_r, add_log_nil.
  - apply Forall_cons in Hok as [Hhd Hok]. simpl in Hhd.
    rewrite redis_batch_query_step.
    destruct (unpickled blob) as [e|r] eqn:Hb; [done|].
    rewrite (IH _ _ Hok), add_log_add_log, <- app_assoc. simpl.
    by rewrite Hb.
Qed.

(** The first exception that escapes ends the loop. *)
Lemma redis_batch_query_loop_raises items key blob rest e : forall data st,
  Forall (fun kb => answers (unpickled (snd kb)) = true) items ->
  unpickled blob = inl e ->
  RedisDatabase.batch_query_loop (items ++ (key, blob) :: rest) data st
  = Raise e (add_log (mjoin (map (fun kb => unpickle_log (fst kb) (snd kb)) items)) st).
Proof.
  induction items as [|[key' blob'] items IH]; intros data st Hok He.
  - simpl app. rewrite redis_batch_query_step, He. simpl. by rewrite add_log_nil.
  - apply Forall_cons in Hok as [Hhd Hok]. simpl in Hhd.
    simpl app. rewrite redis_batch_query_step.
    destruct (unpickled blob') as [e'|r] eqn:Hb; [done|].
    rewrite (IH _ _ Hok He), add_log_add_log. reflexivity.
Qed.

Lemma redis_batch_query_unfold keys st :
  RedisDatabase.batch_query keys st
  = RedisDatabase.batch_query_loop
      (map (fun k => (k, redis_hash (database st) !! k)) keys) [] st.
Proof.
  destruct keys as [|key keys]; [reflexivity|].
  unfold RedisDatabase.batch_query, bind, RedisDatabase.hmget, gets.
  by rewrite zip_with_image.
Qed.

End RedisAdapter.

(** ** Commit, then query *)

Section Visibility.
Context {env : Env}.

Lemma with_store_store {B} (d : Database B) : with_store (store d) d = d.
Proof. by destruct d. Qed.

Lemma lift_run {B A} (m : M (Store B) A) (a : A) (d : Database B) :
  m (store d) = Ret a (store d) -> lift m d = Ret a d.
Proof. intros Hm. unfold lift. by rewrite Hm, with_store_store. Qed.

Lemma pickle_commit_query key v (d d' : Database PickleDB) :
  isinstance_bool v = false ->
  commit key v d = Ret tt d' ->
  lift (query key) d' = Ret (Some v) d'.
Proof.
  intros Hv Hrun.
  rewrite (commit_returns (impl := PickleDatabase.impl) key v d _ d'
             (pickle_commit_impl_run key v (store d)) Hrun).
  apply lift_run. cbn [store pushed query PickleDatabase.impl].
  rewrite pickle_query_run. by rewrite pickle_lookup_set.
Qed.

Lemma redis_commit_query key v (d d' : Database Redis) :
  pickle_loads (pickle_dumps v) = inr v ->
  pickle_dumps v ≠ [] ->
  commit key v d = Ret tt d' ->
  lift (query key) d' = Ret (Some v) d'.
Proof.
  intros Hround Hne Hrun.
  destruct (redis_commit_impl_run key v (store d)) as [file Himpl].
  rewrite (commit_returns (impl := RedisDatabase.impl) key v d _ d' Himpl Hrun).
  apply lift_run. cbn [store pushed query RedisDatabase.impl].
  rewrite redis_query_run. cbn [database redis_hash].
  rewrite lookup_insert_eq. unfold unpickled, unpickle_log.
  destruct (pickle_dumps v) as [|b bs] eqn:Hd; [done|]. cbn [truthy].
  rewrite Hround. by rewrite add_log_nil.
Qed.

(** C6: after [commit(k, r)] has returned, [query(k)] answers [r]; for the
    Redis adapter this needs pickle to give [r] back from the non-empty
    blob it made of it.  [commit] does return when [put] does not raise. *)
Theorem commit_then_query (key : string) (r : instance) :
  (forall d d' : Database PickleDB,
      commit key (PyInst r) d = Ret tt d' ->
      lift (query key) d' = Ret (Some (PyInst r)) d')
  /\ (pickle_loads (pickle_dumps (PyInst r)) = inr (PyInst r) ->
      pickle_dumps (PyInst r) ≠ [] ->
      forall d d' : Database Redis,
        commit key (PyInst r) d = Ret tt d' ->
        lift (query key) d' = Ret (Some (PyInst r)) d')
  /\ (put_never_raises ->
      (forall d : Database PickleDB, exists d', commit key (PyInst r) d = Ret tt d')
      /\ (forall d : Database Redis, exists d', commit key (PyInst r) d = Ret tt d')).
Proof.
  split; [|split].
  - intros d d'. by apply pickle_commit_query.
  - intros Hround Hne d d'. by apply redis_commit_query.
  - intros Hput. split; intros d.
    + eexists. apply (commit_accepted (impl := PickleDatabase.impl)); [done|].
      apply pickle_commit_impl_run.
    + destruct (redis_commit_impl_run key (PyInst r) (store d)) as [file Himpl].
      eexists. by apply (commit_accepted (impl := RedisDatabase.impl) _ _ _ _ Hput Himpl).
Qed.

End Visibility.

(** ** The type gate of the commit paths *)

Section TypeGate.
Context {env : Env}.

Lemma stamped_result rs : forall n e, e ∈ stamped n rs -> entry_result e ∈ rs.
Proof.
  induction rs as [|r rs IH]; intros n e; simpl.
  - intros Hin. by apply elem_of_nil in Hin.
  - rewrite !elem_of_cons. intros [->|Hin]; [by left|].
    right. by apply (IH (S n)).
Qed.

Lemma best_candidate_Some v r :
  best_candidate v = Some r ->
  v = PyInst r /\ is_Result r = true /\ ret_code r ≠ DUPLICATED.
Proof.
  destruct v as [b|s|r']; simpl; try done.
  destruct (is_Result r') eqn:HR; simpl; [|done].
  unfold not_duplicated. case_bool_decide; [|done].
  intros [= ->]. done.
Qed.

Lemma best_candidates_elem r (vs : list pyval) :
  r ∈ omap best_candidate vs ->
  PyInst r ∈ vs /\ is_Result r = true /\ ret_code r ≠ DUPLICATED.
Proof.
  rewrite list_elem_of_omap. intros (v & Hv & Hc).
  apply best_candidate_Some in Hc as (-> & ? & ?). done.
Qed.

Lemma best_candidate_not_Result v : isinstance_Result v = false -> best_candidate v = None.
Proof.
  destruct v as [b|s|r]; simpl; try done. by intros ->.
Qed.

Lemma best_candidates_not_Result (vs : list pyval) :
  Forall (fun v => isinstance_Result v = false) vs -> omap best_candidate vs = [].
Proof.
  induction 1 as [|v vs Hv _ IH]; simpl; [done|].
  by rewrite (best_candidate_not_Result _ Hv).
Qed.

Lemma pushed_entries {B} (rs : list instance) (st : Store B) (d : Database B) e :
  e ∈ best_cache (pushed rs st d) -> e ∈ best_cache d \/ entry_result e ∈ rs.
Proof.
  cbn [pushed best_cache]. rewrite elem_of_app. intros [?|Hin]; [by left|right].
  by apply stamped_result in Hin.
Qed.

Lemma dict_update_app {V} (d : dict V) (ps1 ps2 : list (string * V)) :
  dict_update d (ps1 ++ ps2) = dict_update (dict_update d ps1) ps2.
Proof. apply fold_left_app. Qed.

Lemma dict_get_update_other {V} (ps : list (string * V)) : forall (d : dict V) k,
  k ∉ map fst ps -> dict_get k (dict_update d ps) = dict_get k d.
Proof.
  induction ps as [|[k' v'] ps IH]; intros d k Hnin; [done|].
  cbn [map fst] in Hnin. apply not_elem_of_cons in Hnin as [Hne Hnin].
  cbn. fold (dict_update (dict_set k' v' d) ps).
  rewrite IH by done. by apply dict_get_set_ne.
Qed.

(** The last value written for a key is the one that stays. *)
Lemma dict_get_update_last {V} (d : dict V) (ps1 ps2 : list (string * V)) k v :
  k ∉ map fst ps2 -> dict_get k (dict_update d (ps1 ++ (k, v) :: ps2)) = Some v.
Proof.
  intros Hnin. rewrite dict_update_app. cbn.
  fold (dict_update (dict_set k v (dict_update d ps1)) ps2).
  rewrite dict_get_update_other by done. apply dict_get_set_eq.
Qed.

Lemma dict_update_get_elem {V} (ps : list (string * V)) : forall (d : dict V) k v,
  dict_get k (dict_update d ps) = Some v ->
  dict_get k d = Some v \/ (k, v) ∈ ps.
Proof.
  induction ps as [|[k' v'] ps IH]; intros d k v Hget; [by left|].
  cbn in Hget. fold (dict_update (dict_set k' v' d) ps) in Hget.
  destruct (IH _ _ _ Hget) as [Hset|Hin]; [|right; by right].
  destruct (decide (k = k')) as [->|Hne].
  - rewrite dict_get_set_eq in Hset. injection Hset as ->. right. left.
  - rewrite dict_get_set_ne in Hset by done. by left.
Qed.

(** The blob that a Redis batch leaves under the key of its last pair
    for that key. *)
Lemma redis_batch_stores_last (h : gmap string bytes) (pairs1 pairs2 : list (string * pyval))
    key v :
  key ∉ map fst pairs2 ->
  hash_update h
    (dict_of_pairs (map (fun kv => (fst kv, pickle_dumps (snd kv)))
                        (pairs1 ++ (key, v) :: pairs2)))
  !! key = Some (pickle_dumps v).
Proof.
  intros Hlast.
  set (data := dict_of_pairs _).
  assert (Hget : dict_get key data = Some (pickle_dumps v)).
  { subst data. unfold dict_of_pairs. rewrite map_app. cbn [map fst snd].
    apply dict_get_update_last. by rewrite map_map. }
  assert (Hnd : NoDup (dict_keys data)).
  { subst data. apply dict_update_keys_NoDup. constructor. }
  clearbody data.
  apply hash_update_elem; [exact Hnd|].
  clear Hnd. induction data as [|[k' v'] data IH]; [done|].
  cbn in Hget. destruct (String.eqb key k') eqn:E.
  - apply String.eqb_eq in E. subst k'. injection Hget as ->. left.
  - right. by apply IH.
Qed.

(** With the Redis adapter, [batch_commit] returns only after the batch
    has been set and dumped. *)
Lemma redis_batch_commit_returns pairs (d d' : Database Redis) :
  batch_commit pairs d = Ret tt d' ->
  exists file,
    d' = pushed (omap best_candidate (map snd pairs))
           (mkStore (mkRedis
                       (hash_update (redis_hash (database (store d)))
                          (dict_of_pairs
                             (map (fun kv => (fst kv, pickle_dumps (snd kv))) pairs)))
                       (Some file))
                    (log (store d)) (stdout (store d)))
           d.
Proof.
  intros Hrun. destruct pairs as [|kv pairs].
  { unfold batch_commit, bind at 1, lift at 1 in Hrun.
    cbn [batch_commit_impl RedisDatabase.impl] in Hrun.
    by rewrite redis_batch_commit_impl_empty in Hrun. }
  destruct (redis_batch_commit_impl_run (kv :: pairs) (store d)) as [file Himpl]; [done|].
  cbv zeta in Himpl. exists file.
  pose proof Hrun as Hexit.
  unfold batch_commit, bind at 1, lift at 1 in Hexit.
  cbn [batch_commit_impl RedisDatabase.impl] in Hexit. rewrite Himpl in Hexit.
  destruct (len (dict_of_pairs
                   (map (fun kv : string * pyval => (fst kv, pickle_dumps (snd kv)))
                        (kv :: pairs)))
            =? len (kv :: pairs))%Z eqn:Hn.
  - apply Z.eqb_eq in Hn. rewrite Hn in Himpl.
    exact (batch_commit_returns (impl := RedisDatabase.impl) _ d _ d' Himpl Hrun).
  - cbn [negb] in Hexit. unfold bind, lift, log_to, print, modify, sys_exit in Hexit.
    cbn in Hexit. discriminate Hexit.
Qed.

(** C9: a committed value that is not a [Result] instance is stored and
    leaves the best cache as it was, on its own and as a pair of a batch;
    whatever a commit path has added to the best cache when it returns is
    a committed [Result] instance.  Both adapters store the value of
    [commit], and of a batch the value of every pair, the last one for a
    key that occurs more than once. *)
Theorem commit_type_gate {B : Type} {impl : DatabaseImpl B}
    key v pairs (d : Database B) (st1 st2 : Store B) :
  commit_impl key v (store d) = Ret true st1 ->
  batch_commit_impl pairs (store d) = Ret (len pairs) st2 ->
  (isinstance_Result v = false -> commit key v d = Ret tt (with_store st1 d))
  /\ (Forall (fun kv => isinstance_Result (snd kv) = false) pairs ->
      batch_commit pairs d = Ret tt (with_store st2 d))
  /\ (forall d1,
         commit key v d = Ret tt d1 ->
         store d1 = st1
         /\ forall e, e ∈ best_cache d1 ->
                      e ∈ best_cache d
                      \/ (v = PyInst (entry_result e) /\ is_Result (entry_result e) = true))
  /\ (forall d2,
         batch_commit pairs d = Ret tt d2 ->
         store d2 = st2
         /\ forall e, e ∈ best_cache d2 ->
                      e ∈ best_cache d
                      \/ (PyInst (entry_result e) ∈ map snd pairs
                          /\ is_Result (entry_result e) = true))
  /\ (forall st : Store PickleDB,
         exists st', PickleDatabase.commit_impl key v st = Ret true st'
                     /\ dict_get key (pickle_db (database st')) = Some v)
  /\ (forall st : Store Redis,
         exists st', RedisDatabase.commit_impl key v st = Ret true st'
                     /\ redis_hash (database st') !! key = Some (pickle_dumps v))
  /\ (forall (dP dP' : Database PickleDB) pairs1 pairs2,
         pairs = (pairs1 ++ (key, v) :: pairs2)%list ->
         key ∉ map fst pairs2 ->
         batch_commit pairs dP = Ret tt dP' ->
         dict_get key (pickle_db (database (store dP'))) = Some v)
  /\ (forall (dR dR' : Database Redis) pairs1 pairs2,
         pairs = (pairs1 ++ (key, v) :: pairs2)%list ->
         key ∉ map fst pairs2 ->
         batch_commit pairs dR = Ret tt dR' ->
         redis_hash (database (store dR')) !! key = Some (pickle_dumps v)).
Proof.
  intros Hc Hb.
  split; [|split; [|split; [|split; [|split; [|split; [|split]]]]]].
  - intros Hv. apply commit_skip; [done|]. by apply best_candidate_not_Result.
  - intros Hvs. apply batch_commit_skip; [done|].
    eapply Forall_impl; [exact Hvs|]. intros kv. apply best_candidate_not_Result.
  - intros d1 Hrun. rewrite (commit_returns key v d st1 d1 Hc Hrun).
    split; [done|]. intros e He.
    apply pushed_entries in He as [?|Hin]; [by left|right].
    apply best_candidates_elem in Hin as (Hin & HR & _).
    apply list_elem_of_singleton in Hin. done.
  - intros d2 Hrun. rewrite (batch_commit_returns pairs d st2 d2 Hb Hrun).
    split; [done|]. intros e He.
    apply pushed_entries in He as [?|Hin]; [by left|right].
    apply best_candidates_elem in Hin as (Hin & HR & _). done.
  - intros st. eexists. split; [apply pickle_commit_impl_run|].
    simpl. apply dict_get_set_eq.
  - intros st. destruct (redis_commit_impl_run key v st) as [file Hrun].
    eexists. split; [exact Hrun|]. simpl. apply lookup_insert_eq.
  - intros dP dP' pairs1 pairs2 -> Hlast Hrun.
    rewrite (batch_commit_returns (impl := PickleDatabase.impl) _ dP _ dP'
               (pickle_batch_commit_impl_run _ (store dP)) Hrun).
    cbn [store pushed database pickle_db]. by apply dict_get_update_last.
  - intros dR dR' pairs1 pairs2 -> Hlast Hrun.
    apply (redis_batch_commit_returns _ dR dR') in Hrun as (file & ->).
    cbn [store pushed database redis_hash].
    apply redis_batch_stores_last. exact Hlast.
Qed.

End TypeGate.

(** ** Reading *)

Section Reads.
Context {env : Env}.
Implicit Types (st : Store Redis) (stP : Store PickleDB).

Lemma redis_query_never_exits key st : exits (RedisDatabase.query key st) = false.
Proof.
  rewrite redis_query_run. cbv zeta.
  by destruct (unpickled ((redis_hash (database st) !! key))).
Qed.

Lemma redis_batch_query_loop_never_exits items : forall data st,
  exits (RedisDatabase.batch_query_loop items data st) = false.
Proof.
  induction items as [|[key blob] items IH]; intros data st; [done|].
  rewrite redis_batch_query_step. destruct (unpickled blob); [done|apply IH].
Qed.

Lemma only_ValueError_answers (pickled_obj : option bytes) :
  (forall blob e, truthy pickled_obj = Some blob -> pickle_loads blob = inl e ->
                  exists msg, e = ValueError msg) ->
  answers (unpickled pickled_obj) = true.
Proof.
  intros Hve. unfold unpickled.
  destruct (truthy pickled_obj) as [blob|]; [|done].
  destruct (pickle_loads blob) as [e|v] eqn:Hl; [|done].
  destruct (Hve blob e eq_refl Hl) as [msg ->]. done.
Qed.

Lemma redis_query_answers key st :
  answers (unpickled ((redis_hash (database st) !! key))) = true ->
  RedisDatabase.query key st
  = Ret (answer_of (unpickled ((redis_hash (database st) !! key))))
        (add_log (unpickle_log key ((redis_hash (database st) !! key))) st).
Proof.
  intros Hok. rewrite redis_query_run. cbv zeta.
  by destruct (unpickled ((redis_hash (database st) !! key))).
Qed.

(** What the reads do guarantee: no read leaves through [sys.exit]; a
    key whose blob is absent or empty reads as [None]; a key whose blob
    makes [pickle.loads] raise [ValueError] reads as [None] with the
    failure logged, and then [batch_query] answers every key as [query]
    does on its own; any other exception of [pickle.loads] escapes from
    [query] and from [batch_query]. *)
Theorem reads_degrade_to_None (key : string) (keys : list string) st stP :
  exits (RedisDatabase.query key st) = false
  /\ exits (RedisDatabase.batch_query keys st) = false
  /\ exits (PickleDatabase.query key stP) = false
  /\ exits (PickleDatabase.batch_query keys stP) = false
  /\ (truthy ((redis_hash (database st) !! key)) = None ->
      RedisDatabase.query key st = Ret None st)
  /\ (forall blob msg,
         truthy ((redis_hash (database st) !! key)) = Some blob ->
         pickle_loads blob = inl (ValueError msg) ->
         RedisDatabase.query key st
         = Ret None (add_log [(ERROR, RedisDatabase.deserialize_error key msg)] st))
  /\ (forall blob e,
         truthy ((redis_hash (database st) !! key)) = Some blob ->
         pickle_loads blob = inl e ->
         (forall msg, e ≠ ValueError msg) ->
         RedisDatabase.query key st = Raise e st)
  /\ (Forall (fun k => forall blob e,
                  truthy ((redis_hash (database st) !! k)) = Some blob ->
                  pickle_loads blob = inl e ->
                  exists msg, e = ValueError msg) keys ->
      exists rs st',
        RedisDatabase.batch_query keys st = Ret rs st'
        /\ database st' = database st
        /\ Forall2 (fun k r =>
                      exists st'', RedisDatabase.query k st = Ret r st''
                                   /\ forall line, line ∈ log st'' -> line ∈ log st')
                   keys rs)
  /\ (forall keys1 k keys2 blob e,
         keys = keys1 ++ k :: keys2 ->
         Forall (fun k => forall blob e,
                    truthy ((redis_hash (database st) !! k)) = Some blob ->
                    pickle_loads blob = inl e ->
                    exists msg, e = ValueError msg) keys1 ->
         truthy ((redis_hash (database st) !! k)) = Some blob ->
         pickle_loads blob = inl e ->
         (forall msg, e ≠ ValueError msg) ->
         exists st', RedisDatabase.batch_query keys st = Raise e st')
  /\ (dict_get key (pickle_db (database stP)) = None ->
      PickleDatabase.query key stP = Ret None stP)
  /\ (exists rs,
         PickleDatabase.batch_query keys stP = Ret rs stP
         /\ Forall2 (fun k r => PickleDatabase.query k stP = Ret r stP) keys rs).
Proof.
  split; [apply redis_query_never_exits|].
  split; [rewrite redis_batch_query_unfold; apply redis_batch_query_loop_never_exits|].
  split; [done|].
  split; [by rewrite pickle_batch_query_run|].
  split; [|split; [|split; [|split; [|split; [|split]]]]].
  - intros Hnone. rewrite redis_query_run. cbv zeta.
    unfold unpickled, unpickle_log. rewrite Hnone. by rewrite add_log_nil.
  - intros blob msg Hblob Hload. rewrite redis_query_run. cbv zeta.
    unfold unpickled, unpickle_log. by rewrite Hblob, Hload.
  - intros blob e Hblob Hload Hother. rewrite redis_query_run. cbv zeta.
    unfold unpickled. rewrite Hblob, Hload.
    destruct e as [msg| | |cls msg]; try done. by destruct (Hother msg).
  - intros Honly.
    set (h := redis_hash (database st)) in *.
    assert (Hok : Forall (fun k => answers (unpickled (h !! k)) = true) keys).
    { eapply Forall_impl; [exact Honly|]. intros k Hk. by apply only_ValueError_answers. }
    exists (map (fun k => answer_of (unpickled (h !! k))) keys),
      (add_log (mjoin (map (fun k => unpickle_log k (h !! k)) keys)) st).
    split; [|split].
    + rewrite redis_batch_query_unfold, redis_batch_query_loop.
      * by rewrite !map_map.
      * apply Forall_fmap. eapply Forall_impl; [exact Hok|]. done.
    + done.
    + apply Forall2_fmap_r, Forall_Forall2_diag.
      apply Forall_forall. intros k Hk.
      rewrite Forall_forall in Hok.
      eexists. split; [apply redis_query_answers, Hok, Hk|].
      cbn [log add_log]. intros line. rewrite !elem_of_app.
      intros [?|Hline]; [by left|right].
      apply list_elem_of_join. eexists. split; [exact Hline|].
      apply list_elem_of_fmap. by exists k.
  - intros keys1 k keys2 blob e -> Honly Hblob Hload Hother.
    set (h := redis_hash (database st)) in *.
    eexists. rewrite redis_batch_query_unfold, map_app. cbn [map].
    apply redis_batch_query_loop_raises.
    + apply Forall_fmap. eapply Forall_impl; [exact Honly|].
      intros k' Hk'. by apply only_ValueError_answers.
    + fold h. unfold unpickled. rewrite Hblob, Hload.
      destruct e as [msg| | |cls msg]; try done. by destruct (Hother msg).
  - intros Hnone. rewrite pickle_query_run. unfold pickle_lookup. by rewrite Hnone.
  - eexists. split; [apply pickle_batch_query_run|].
    apply Forall2_fmap_r, Forall_Forall2_diag, Forall_forall.
    intros k _. apply pickle_query_run.
Qed.

End Reads.

(** ** The order of the best cache *)

Section QueueOrder.
Implicit Types (e m : entry) (q : list entry).

Lemma entry_ltb_lt e1 e2 : entry_ltb e1 e2 = true <-> entry_lt e1 e2.
Proof.
  unfold entry_ltb, entry_lt.
  rewrite orb_true_iff, andb_true_iff, Z.ltb_lt. done.
Qed.

Lemma entry_ltb_ge e1 e2 : entry_ltb e1 e2 = false <-> ~ entry_lt e1 e2.
Proof. rewrite <- entry_ltb_lt. by destruct (entry_ltb e1 e2). Qed.

(** Turn comparisons of entries whose qualities are numbers into linear
    arithmetic. *)
Ltac entry_order :=
  repeat match goal with
         | H : entry_lt _ _ |- _ => apply entry_ltb_lt in H
         | H : ~ entry_lt _ _ |- _ => apply entry_ltb_ge in H
         | |- entry_lt _ _ => apply entry_ltb_lt
         | |- ~ entry_lt _ _ => apply entry_ltb_ge
         end;
  unfold entry_ltb, float_le, entry_quality, entry_time in *;
  repeat match goal with e : entry |- _ => destruct e as [[[|?] ?] ?] end;
  cbn [fst snd float_ltb float_eqb float_leb] in *;
  repeat match goal with H : Num _ = Num _ |- _ => injection H as H end;
  try congruence; lia.

Lemma numbers_Permutation q1 q2 : q1 ≡ₚ q2 -> numbers q1 -> numbers q2.
Proof. unfold numbers. by intros ->. Qed.

Lemma PriorityQueue_get_None q : PriorityQueue_get q = None -> q = [].
Proof.
  destruct q as [|e q]; [done|]. simpl.
  destruct (PriorityQueue_get q) as [[m rest]|]; [|done].
  by destruct (entry_ltb m e).
Qed.

Lemma PriorityQueue_get_Permutation q : forall m rest,
  PriorityQueue_get q = Some (m, rest) -> q ≡ₚ m :: rest.
Proof.
  induction q as [|e q IH]; intros m rest; simpl; [done|].
  destruct (PriorityQueue_get q) as [[m' rest']|] eqn:Hget.
  - destruct (entry_ltb m' e); intros [= <- <-]; [|done].
    rewrite (IH _ _ eq_refl). apply perm_swap.
  - apply PriorityQueue_get_None in Hget. subst q. by intros [= <- <-].
Qed.

(** In a queue without [NaN], [get] hands out an entry that no other
    entry precedes. *)
Lemma PriorityQueue_get_least q : forall m rest,
  numbers q ->
  PriorityQueue_get q = Some (m, rest) ->
  Forall (fun e => entry_ltb e m = false) q.
Proof.
  induction q as [|e q IH]; intros m rest Hnum; simpl; [done|].
  apply Forall_cons in Hnum as [He Hnum].
  destruct (PriorityQueue_get q) as [[m' rest']|] eqn:Hget.
  - specialize (IH _ _ Hnum eq_refl).
    assert (Hm' : entry_quality m' <> NaN).
    { pose proof (PriorityQueue_get_Permutation _ _ _ Hget) as Hperm.
      apply (numbers_Permutation _ _ Hperm) in Hnum.
      by apply Forall_cons in Hnum as [? _]. }
    destruct (entry_ltb m' e) eqn:Hlt; intros [= <- <-].
    + constructor; [entry_order|done].
    + constructor; [entry_order|].
      apply Forall_forall. intros x Hx.
      rewrite Forall_forall in IH, Hnum.
      specialize (IH x Hx). specialize (Hnum x Hx). cbv beta in IH, Hnum.
      entry_order.
  - apply PriorityQueue_get_None in Hget. subst q. intros [= <- <-].
    constructor; [entry_order|done].
Qed.

Lemma drain_Permutation n : forall q, length q = n -> drain n q ≡ₚ q.
Proof.
  induction n as [|n IH]; intros q Hlen.
  - by destruct q.
  - simpl. destruct (PriorityQueue_get q) as [[m rest]|] eqn:Hget.
    + pose proof (PriorityQueue_get_Permutation _ _ _ Hget) as Hperm.
      rewrite Hperm. constructor. apply IH.
      apply Permutation_length in Hperm. simpl in Hperm. lia.
    + apply PriorityQueue_get_None in Hget. by subst q.
Qed.

Lemma drain_sorted n : forall q,
  numbers q ->
  length q = n ->
  StronglySorted (fun e1 e2 => entry_ltb e2 e1 = false) (drain n q).
Proof.
  induction n as [|n IH]; intros q Hnum Hlen; simpl; [constructor|].
  destruct (PriorityQueue_get q) as [[m rest]|] eqn:Hget; [|constructor].
  pose proof (PriorityQueue_get_Permutation _ _ _ Hget) as Hperm.
  pose proof (PriorityQueue_get_least _ _ _ Hnum Hget) as Hleast.
  assert (Hrest : length rest = n).
  { apply Permutation_length in Hperm. simpl in Hperm. lia. }
  assert (Hnum' : numbers rest).
  { apply (numbers_Permutation _ _ Hperm) in Hnum. by apply Forall_cons in Hnum as [_ ?]. }
  constructor; [by apply IH|].
  rewrite (drain_Permutation n rest Hrest).
  rewrite Hperm in Hleast. by apply Forall_cons in Hleast as [_ ?].
Qed.

Lemma StronglySorted_weaken {A} (R1 R2 : A -> A -> Prop) (l : list A) :
  (forall x y, x ∈ l -> y ∈ l -> R1 x y -> R2 x y) ->
  StronglySorted R1 l -> StronglySorted R2 l.
Proof.
  intros Himp Hs. induction Hs as [|x l Hs IH Hall]; constructor.
  - apply IH. intros y z Hy Hz. apply Himp; by right.
  - apply Forall_forall. intros y Hy. rewrite Forall_forall in Hall.
    apply Himp; [by left|by right|by apply Hall].
Qed.

Lemma drain_all_Permutation q : drain_all q ≡ₚ q.
Proof. by apply drain_Permutation. Qed.

Lemma drain_all_quality q :
  numbers q ->
  StronglySorted (fun e1 e2 => float_le (entry_quality e1) (entry_quality e2))
                 (drain_all q).
Proof.
  intros Hnum.
  eapply StronglySorted_weaken; [|by apply (drain_sorted (length q) q)].
  intros e1 e2 H1 H2 Hge. cbv beta in Hge.
  apply (numbers_Permutation _ _ (symmetry (drain_all_Permutation q))) in Hnum.
  unfold numbers in Hnum. rewrite Forall_forall in Hnum.
  pose proof (Hnum _ H1). pose proof (Hnum _ H2). clear Hnum H1 H2.
  entry_order.
Qed.

Lemma StronglySorted_lookup {A} (R : A -> A -> Prop) (l : list A) : forall i j x y,
  StronglySorted R l -> (i < j)%nat -> l !! i = Some x -> l !! j = Some y -> R x y.
Proof.
  induction l as [|z l IH]; intros i j x y Hs Hij Hi Hj; [done|].
  apply StronglySorted_cons in Hs as [Hall Hs].
  destruct j as [|j]; [lia|]. simpl in Hj.
  destruct i as [|i]; simpl in Hi.
  - injection Hi as ->. rewrite Forall_forall in Hall.
    apply Hall. apply list_elem_of_lookup. eauto.
  - apply (IH i j); [done|lia|done..].
Qed.

(** Of two entries of equal quality, the one put earlier is drained
    earlier, as long as timestamps grow with every [put] and no quality
    is [NaN]. *)
Lemma drain_all_stable q i j ei ej :
  numbers q ->
  time_increasing q ->
  (i < j)%nat -> q !! i = Some ei -> q !! j = Some ej ->
  entry_quality ei = entry_quality ej ->
  exists a b, (a < b)%nat /\ drain_all q !! a = Some ei /\ drain_all q !! b = Some ej.
Proof.
  intros Hnum Hinc Hij Hi Hj Hq.
  pose proof (StronglySorted_lookup _ _ _ _ _ _ Hinc Hij Hi Hj) as Ht. simpl in Ht.
  assert (Hnumi : entry_quality ei <> NaN).
  { unfold numbers in Hnum. rewrite Forall_forall in Hnum.
    apply Hnum, list_elem_of_lookup. eauto. }
  assert (Hini : ei ∈ drain_all q).
  { rewrite drain_all_Permutation. apply list_elem_of_lookup. eauto. }
  assert (Hinj : ej ∈ drain_all q).
  { rewrite drain_all_Permutation. apply list_elem_of_lookup. eauto. }
  apply list_elem_of_lookup in Hini as [a Ha].
  apply list_elem_of_lookup in Hinj as [b Hb].
  exists a, b. split; [|done].
  destruct (Nat.lt_trichotomy a b) as [?|[->|Hba]]; [done| |].
  - rewrite Ha in Hb. injection Hb as ->. lia.
  - pose proof (StronglySorted_lookup _ _ _ _ _ _
                  (drain_sorted (length q) q Hnum eq_refl) Hba Hb Ha) as Hge.
    simpl in Hge. clear Hnum Hinc Hi Hj Ha Hb. entry_order.
Qed.

End QueueOrder.

Section BestCacheOrder.
Context {env : Env} {B : Type}.
Implicit Types (d : Database B) (rs : list instance).

(** A run of [update_best] calls pushes every result that is not
    [DUPLICATED], as long as [put] does not raise. *)
Lemma update_best_calls rs : forall d,
  put_never_raises ->
  for_each rs update_best d
  = Ret tt (pushed (filter (fun r => ret_code r ≠ DUPLICATED) rs) (store d) d).
Proof.
  intros d Hput.
  by destruct (pushing_loop_cases update_best update_best_cases rs d) as [?|[_ ?]].
Qed.

Lemma stamped_times rs : forall n e,
  e ∈ stamped n rs -> exists k, (n <= k)%nat /\ entry_time e = time k.
Proof.
  induction rs as [|r rs IH]; intros n e; simpl.
  - intros Hin. by apply elem_of_nil in Hin.
  - rewrite elem_of_cons. intros [->|Hin]; [by exists n|].
    destruct (IH _ _ Hin) as (k & Hk & Ht). exists k. split; [lia|done].
Qed.

Lemma stamped_time_increasing rs : forall n,
  (forall i j : nat, (i < j)%nat -> time i < time j) ->
  time_increasing (stamped n rs).
Proof.
  intros n Hclock. revert n.
  induction rs as [|r rs IH]; intros n; simpl; constructor; [apply IH|].
  apply Forall_forall. intros e Hin.
  destruct (stamped_times _ _ _ Hin) as (k & Hk & ->).
  simpl. apply Hclock. lia.
Qed.

Lemma stamped_numbers rs : forall n,
  Forall (fun r => quality r <> NaN) rs -> numbers (stamped n rs).
Proof.
  induction rs as [|r rs IH]; intros n Hrs; [constructor|].
  apply Forall_cons in Hrs as [Hr Hrs]. constructor; [exact Hr|by apply IH].
Qed.

(** C3, as amended: [update_best] stamps every result that is not
    [DUPLICATED] with the clock reading of the call.  When successive
    readings of the clock increase strictly, [put] does not raise and no
    quality is [NaN], every timestamp exceeds all those assigned before,
    and draining the cache yields the entries in non-decreasing quality,
    the earlier insertion first among entries of equal quality. *)
Theorem best_cache_order rs d :
  put_never_raises ->
  (forall i j : nat, (i < j)%nat -> time i < time j) ->
  time_increasing (best_cache d) ->
  Forall (fun e => entry_time e < time (ticks d)) (best_cache d) ->
  numbers (best_cache d) ->
  Forall (fun r => quality r <> NaN) rs ->
  exists d',
    for_each rs update_best d = Ret tt d'
    /\ best_cache d'
       = best_cache d ++ stamped (ticks d) (filter (fun r => ret_code r ≠ DUPLICATED) rs)
    /\ time_increasing (best_cache d')
    /\ drain_all (best_cache d') ≡ₚ best_cache d'
    /\ StronglySorted (fun e1 e2 => float_le (entry_quality e1) (entry_quality e2))
                      (drain_all (best_cache d'))
    /\ (forall i j ei ej,
           (i < j)%nat ->
           best_cache d' !! i = Some ei -> best_cache d' !! j = Some ej ->
           entry_quality ei = entry_quality ej ->
           exists a b, (a < b)%nat
                       /\ drain_all (best_cache d') !! a = Some ei
                       /\ drain_all (best_cache d') !! b = Some ej).
Proof.
  intros Hput Hclock Hinc Hpast Hnum Hrs.
  eexists. split; [by apply update_best_calls|].
  cbn [pushed best_cache]. split; [done|].
  assert (Hinc' : time_increasing
                    (best_cache d
                     ++ stamped (ticks d) (filter (fun r => ret_code r ≠ DUPLICATED) rs))).
  { apply StronglySorted_app_2; [|done|by apply stamped_time_increasing].
    intros e1 e2 H1 H2. rewrite Forall_forall in Hpast.
    destruct (stamped_times _ _ _ H2) as (k & Hk & ->).
    specialize (Hpast _ H1).
    destruct (decide (k = ticks d)) as [->|Hne]; [done|].
    specialize (Hclock (ticks d) k). lia. }
  assert (Hnum' : numbers
                    (best_cache d
                     ++ stamped (ticks d) (filter (fun r => ret_code r ≠ DUPLICATED) rs))).
  { apply Forall_app. split; [done|]. apply stamped_numbers.
    apply Forall_forall. intros r Hr. apply list_elem_of_filter in Hr as [_ Hr].
    rewrite Forall_forall in Hrs. by apply Hrs. }
  split; [done|].
  split; [apply drain_all_Permutation|].
  split; [by apply drain_all_quality|].
  intros i j ei ej. by apply drain_all_stable.
Qed.

End BestCacheOrder.

(** ** Rebuilding the indices *)

Section Rebuild.
Context {env : Env} {B : Type} {impl : DatabaseImpl B}.
Implicit Types (d : Database B) (st : Store B) (rs : list instance).

(** The loop of [init_best_cache] pushes every result that is not
    [DUPLICATED], or fails because [put] raised. *)
Lemma best_cache_loop_cases rs d :
  let body := fun result : instance =>
    if not_duplicated result then
      t <- time_now ;;
      PriorityQueue_put (B := B) (quality result, t, result)
    else ret tt in
  for_each rs body d
  = Ret tt (pushed (filter (fun r => ret_code r ≠ DUPLICATED) rs) (store d) d)
  \/ ((exists err d', for_each rs body d = Raise err d') /\ ~ put_never_raises).
Proof.
  intros body. apply pushing_loop_cases. clear rs d. intros r d. subst body.
  cbv beta. destruct (not_duplicated r); [|by left].
  unfold bind, time_now, PriorityQueue_put. cbn [best_cache store code_hash_map ticks].
  destruct (put_raises _ _) as [[err kept]|] eqn:Hput.
  - right. split; [by eexists _, _|]. intros Hnever. by rewrite Hnever in Hput.
  - left. unfold pushed. cbn [stamped length]. by rewrite Nat.add_1_r.
Qed.

(** The outcome of [init_best_cache], by the outcomes of the two reads,
    when [put] does not raise. *)
Lemma init_best_cache_unfold d :
  put_never_raises ->
  init_best_cache d
  = match count (store d) with
    | Ret n st1 =>
        if (n =? 0)%Z then Ret tt (with_store st1 d)
        else match query_all st1 with
             | Ret vs st2 =>
                 Ret tt (pushed (filter (fun r => ret_code r ≠ DUPLICATED)
                                        (omap valid_HLSResult vs)) st2 d)
             | SysExit c st2 => SysExit c (with_store st2 d)
             | Raise e st2 => Raise e (with_store st2 d)
             end
    | SysExit c st1 => SysExit c (with_store st1 d)
    | Raise e st1 => Raise e (with_store st1 d)
    end.
Proof.
  intros Hput. unfold init_best_cache, bind at 1, lift at 1.
  destruct (count (store d)) as [n st1|c st1|e st1]; try reflexivity.
  destruct (n =? 0)%Z; [reflexivity|].
  unfold bind at 1, lift at 1. cbn [store with_store].
  destruct (query_all st1) as [vs st2|c st2|e st2]; try reflexivity.
  cbv beta.
  match goal with
  | |- for_each ?l _ ?x = _ =>
      destruct (best_cache_loop_cases l x) as [Hok|[_ ?]]; [|done]
  end.
  cbv zeta in Hok. rewrite Hok. reflexivity.
Qed.

(** When [init_best_cache] returns, it has pushed results that are valid
    HLS results and not [DUPLICATED], and nothing else. *)
Lemma init_best_cache_returns d d' :
  init_best_cache d = Ret tt d' ->
  exists st rs,
    d' = pushed rs st d
    /\ Forall (fun r => ret_code r ≠ DUPLICATED /\ is_HLSResult r = true
                        /\ valid r = true) rs.
Proof.
  unfold init_best_cache, bind at 1, lift at 1.
  destruct (count (store d)) as [n st1|c st1|e st1]; try done.
  destruct (n =? 0)%Z.
  - intros [= <-]. exists st1, []. by rewrite pushed_nil.
  - unfold bind at 1, lift at 1. cbn [store with_store].
    destruct (query_all st1) as [vs st2|c st2|e st2]; try done.
    cbv beta.
    match goal with
    | |- for_each ?l _ ?x = _ -> _ =>
        destruct (best_cache_loop_cases l x) as [Hok|[(err & d'' & Hfail) _]]
    end; cbv zeta in *.
    + rewrite Hok. intros [= <-].
      exists st2, (filter (fun r => ret_code r ≠ DUPLICATED) (omap valid_HLSResult vs)).
      split; [done|]. apply Forall_forall. intros r Hin.
      apply list_elem_of_filter in Hin as [Hnd Hin]. split; [done|].
      apply list_elem_of_omap in Hin as (v & _ & Hv).
      destruct v as [b|s|r']; simpl in Hv; try done.
      destruct (is_HLSResult r') eqn:HH; simpl in Hv; [|done].
      destruct (valid r') eqn:HV; [|done]. by injection Hv as <-.
    + rewrite Hfail. done.
Qed.

(** The loop of [init_code_hash_map]: it touches the map only, and every
    binding it writes comes from a result that is not [DUPLICATED]. *)
Lemma code_hash_loop_bindings rs : forall d d',
  for_each rs (fun result =>
    match code_hash result with
    | Some h =>
        if not_duplicated result then
          match point result with
          | Some p => code_hash_map_set h (gen_key_from_design_point p)
          | None => raise AssertionError
          end
        else ret tt
    | None => ret tt
    end) d = Ret tt d' ->
  store d' = store d /\ best_cache d' = best_cache d /\ ticks d' = ticks d
  /\ forall h k,
       code_hash_map d' !! h = Some k ->
       code_hash_map d !! h = Some k
       \/ exists r p, r ∈ rs /\ ret_code r ≠ DUPLICATED /\ code_hash r = Some h
                      /\ point r = Some p /\ k = gen_key_from_design_point p.
Proof.
  induction rs as [|r rs IH]; intros d d'.
  - intros [= <-]. auto.
  - cbn [for_each]. unfold bind at 1.
    assert (Hskip : for_each rs
              (fun result =>
                 match code_hash result with
                 | Some h =>
                     if not_duplicated result then
                       match point result with
                       | Some p => code_hash_map_set h (gen_key_from_design_point p)
                       | None => raise AssertionError
                       end
                     else ret tt
                 | None => ret tt
                 end) d = Ret tt d' ->
              store d' = store d /\ best_cache d' = best_cache d /\ ticks d' = ticks d
              /\ forall h k,
                  code_hash_map d' !! h = Some k ->
                  code_hash_map d !! h = Some k
                  \/ exists r0 p, r0 ∈ r :: rs /\ ret_code r0 ≠ DUPLICATED
                                  /\ code_hash r0 = Some h /\ point r0 = Some p
                                  /\ k = gen_key_from_design_point p).
    { intros Hrun. destruct (IH _ _ Hrun) as (? & ? & ? & Hb).
      repeat split; try done. intros h k Hk.
      destruct (Hb h k Hk) as [?|(r0 & p & ? & ?)]; [by left|right].
      exists r0, p. split; [by right|done]. }
    destruct (code_hash r) as [h0|] eqn:Hh; [|exact Hskip].
    unfold not_duplicated. case_bool_decide as Hdup; [|exact Hskip].
    destruct (point r) as [p0|] eqn:Hp; [|done].
    unfold code_hash_map_set at 1, modify. intros Hrun.
    destruct (IH _ _ Hrun) as (Hst & Hbc & Ht & Hb). cbn in Hst, Hbc, Ht.
    repeat split; try done. intros h k Hk.
    destruct (Hb h k Hk) as [Hold|(r0 & p & ? & ?)].
    + cbn in Hold. destruct (decide (h0 = h)) as [->|Hne].
      * rewrite lookup_insert_eq in Hold. injection Hold as <-.
        right. exists r, p0. split; [by left|done].
      * rewrite lookup_insert_ne in Hold by done. by left.
    + right. exists r0, p. split; [by right|done].
Qed.

Lemma as_MerlinResult_elem r (vs : list pyval) :
  r ∈ omap as_MerlinResult vs -> PyInst r ∈ vs /\ is_MerlinResult r = true.
Proof.
  rewrite list_elem_of_omap. intros (v & Hv & Hm).
  destruct v as [b|s|r']; simpl in Hm; try done.
  destruct (is_MerlinResult r') eqn:HM; [|done]. by injection Hm as ->.
Qed.

Lemma init_best_cache_bindings d d' :
  init_best_cache d = Ret tt d' ->
  code_hash_map d' = code_hash_map d
  /\ forall e, e ∈ best_cache d' ->
               e ∈ best_cache d
               \/ (ret_code (entry_result e) ≠ DUPLICATED
                   /\ is_HLSResult (entry_result e) = true
                   /\ valid (entry_result e) = true).
Proof.
  intros Hrun. apply init_best_cache_returns in Hrun as (st & rs & -> & Hrs).
  split; [done|]. intros e He.
  apply pushed_entries in He as [?|Hin]; [by left|right].
  rewrite Forall_forall in Hrs. by apply Hrs.
Qed.

Lemma init_code_hash_map_bindings d n st1 vs st2 d' :
  count (store d) = Ret n st1 ->
  query_all st1 = Ret vs st2 ->
  init_code_hash_map d = Ret tt d' ->
  best_cache d' = best_cache d
  /\ forall h k,
       code_hash_map d' !! h = Some k ->
       code_hash_map d !! h = Some k
       \/ exists r p, PyInst r ∈ vs /\ is_MerlinResult r = true
                      /\ ret_code r ≠ DUPLICATED /\ code_hash r = Some h
                      /\ point r = Some p /\ k = gen_key_from_design_point p.
Proof.
  intros Hcount Hall. unfold init_code_hash_map, bind at 1, lift at 1.
  rewrite Hcount. destruct (n =? 0)%Z.
  - intros [= <-]. split; [done|]. intros h k Hk. by left.
  - unfold bind at 1, lift at 1. cbn [store with_store]. rewrite Hall.
    intros Hrun. apply code_hash_loop_bindings in Hrun as (_ & Hbc & _ & Hb).
    split; [done|]. intros h k Hk.
    destruct (Hb h k Hk) as [?|(r & p & Hin & ? & ? & ? & ?)]; [by left|right].
    apply as_MerlinResult_elem in Hin as [? ?]. by exists r, p.
Qed.

End Rebuild.

Section Duplicated.
Context {env : Env}.

Lemma pickle_count_run (st : Store PickleDB) :
  count st = Ret (len (pickle_db (database st))) st.
Proof. reflexivity. Qed.

Lemma pickle_query_all_run (st : Store PickleDB) :
  query_all st
  = Ret (omap id (map (pickle_lookup st) (dict_keys (pickle_db (database st))))) st.
Proof.
  unfold query_all, bind. cbn [query_keys batch_query PickleDatabase.impl].
  unfold PickleDatabase.query_keys, PickleDatabase.getall, gets.
  by rewrite pickle_batch_query_run.
Qed.

Lemma pickle_init_best_cache_returns (d : Database PickleDB) :
  put_never_raises -> exists d', init_best_cache d = Ret tt d'.
Proof.
  intros Hput. rewrite init_best_cache_unfold by done. rewrite pickle_count_run.
  destruct (_ =? 0)%Z; [eauto|].
  rewrite pickle_query_all_run. eauto.
Qed.

Lemma best_candidate_duplicated r :
  ret_code r = DUPLICATED -> best_candidate (PyInst r) = None.
Proof.
  intros Hdup. simpl. unfold not_duplicated. rewrite Hdup.
  by destruct (is_Result r).
Qed.

(** C5: a [DUPLICATED] result is stored by [commit] and answered by
    [query], and it enters neither the best cache (through [update_best] or
    [init_best_cache]) nor the code-hash index (through
    [init_code_hash_map]). *)
Theorem duplicated_results_stay_out (key : string) (r : instance) :
  ret_code r = DUPLICATED ->
  (forall d : Database PickleDB,
      exists d', commit key (PyInst r) d = Ret tt d'
                 /\ lift (query key) d' = Ret (Some (PyInst r)) d'
                 /\ best_cache d' = best_cache d
                 /\ code_hash_map d' = code_hash_map d)
  /\ (pickle_loads (pickle_dumps (PyInst r)) = inr (PyInst r) ->
      pickle_dumps (PyInst r) ≠ [] ->
      forall d : Database Redis,
        exists d', commit key (PyInst r) d = Ret tt d'
                   /\ lift (query key) d' = Ret (Some (PyInst r)) d'
                   /\ best_cache d' = best_cache d
                   /\ code_hash_map d' = code_hash_map d)
  /\ (forall (B : Type) (d : Database B), update_best r d = Ret tt d)
  /\ (forall (B : Type) (impl : DatabaseImpl B) (d d' : Database B),
         init_best_cache d = Ret tt d' ->
         code_hash_map d' = code_hash_map d
         /\ forall e, e ∈ best_cache d' -> entry_result e = r -> e ∈ best_cache d)
  /\ (put_never_raises ->
      forall d : Database PickleDB, exists d', init_best_cache d = Ret tt d')
  /\ (forall (B : Type) (impl : DatabaseImpl B) (d d' : Database B) n st1 vs st2,
         count (store d) = Ret n st1 ->
         query_all st1 = Ret vs st2 ->
         init_code_hash_map d = Ret tt d' ->
         best_cache d' = best_cache d
         /\ forall h k,
              code_hash_map d' !! h = Some k ->
              code_hash_map d !! h = Some k
              \/ exists r' p, r' ≠ r /\ PyInst r' ∈ vs /\ is_MerlinResult r' = true
                              /\ ret_code r' ≠ DUPLICATED /\ code_hash r' = Some h
                              /\ point r' = Some p
                              /\ k = gen_key_from_design_point p).
Proof.
  intros Hdup. split; [|split; [|split; [|split; [|split]]]].
  - intros d.
    pose proof (commit_skip (impl := PickleDatabase.impl) key (PyInst r) d _
                  (pickle_commit_impl_run key (PyInst r) (store d))
                  (best_candidate_duplicated r Hdup)) as Hc.
    eexists. split; [exact Hc|]. split; [|done].
    by apply (pickle_commit_query key (PyInst r) d).
  - intros Hround Hne d.
    destruct (redis_commit_impl_run key (PyInst r) (store d)) as [file Hrun].
    pose proof (commit_skip (impl := RedisDatabase.impl) key (PyInst r) d _ Hrun
                  (best_candidate_duplicated r Hdup)) as Hc.
    eexists. split; [exact Hc|]. split; [|done].
    by apply (redis_commit_query key (PyInst r) d).
  - intros B d. rewrite update_best_run. unfold not_duplicated. by rewrite Hdup.
  - intros B impl d d' Hrun.
    destruct (init_best_cache_bindings d d' Hrun) as [Hmap Hnew].
    split; [done|]. intros e He Hr.
    destruct (Hnew e He) as [?|(Hnd & _)]; [done|]. by rewrite Hr in Hnd.
  - intros Hput d. by apply pickle_init_best_cache_returns.
  - intros B impl d d' n st1 vs st2 Hcount Hall Hrun.
    destruct (init_code_hash_map_bindings d n st1 vs st2 d' Hcount Hall Hrun)
      as [Hbc Hnew].
    split; [done|]. intros h k Hk.
    destruct (Hnew h k Hk) as [?|(r' & p & ? & ? & Hnd & ?)]; [by left|right].
    exists r', p. split; [|done]. intros ->. done.
Qed.

End Duplicated.

(** ** Rebuilding compared with committing *)

Section RebuildVersusCommit.
Context {env : Env}.

(** As long as no assertion fails, the loop of [init_code_hash_map] writes
    the bindings of its results in order, later ones over earlier ones. *)
Lemma code_hash_loop_run {B} (rs : list instance) : forall d : Database B,
  Forall (fun r => is_Some (code_hash r) -> ret_code r ≠ DUPLICATED -> is_Some (point r)) rs ->
  for_each rs (fun result =>
    match code_hash result with
    | Some h =>
        if not_duplicated result then
          match point result with
          | Some p => code_hash_map_set h (gen_key_from_design_point p)
          | None => raise AssertionError
          end
        else ret tt
    | None => ret tt
    end) d
  = Ret tt (mkDatabase (store d) (best_cache d)
                       (write_bindings (code_hash_map d) (omap hash_binding rs))
                       (ticks d)).
Proof.
  induction rs as [|r rs IH]; intros d Hpts.
  - by destruct d.
  - apply Forall_cons in Hpts as [Hpt Hpts].
    cbn [for_each]. unfold bind at 1. cbn [omap list_omap]. unfold hash_binding at 1.
    destruct (code_hash r) as [h|] eqn:Hh.
    + unfold not_duplicated in *. case_bool_decide as Hnd.
      * destruct (Hpt (ltac:(eauto)) Hnd) as [p Hp]. rewrite Hp.
        unfold code_hash_map_set at 1, modify. by rewrite IH.
      * destruct (point r); unfold ret; by rewrite IH.
    + unfold ret. by rewrite IH.
Qed.

(** Calls of [add_code_hash] for distinct new hashes write their bindings. *)
Lemma add_code_hashes_fresh {B} (calls : list (string * string)) : forall d : Database B,
  NoDup (map fst calls) ->
  (forall h, h ∈ map fst calls -> code_hash_map d !! h = None) ->
  add_code_hashes calls d
  = Ret tt (mkDatabase (store d) (best_cache d)
                       (write_bindings (code_hash_map d) calls) (ticks d)).
Proof.
  induction calls as [|[h k] calls IH]; intros d Hnd Hnew.
  - by destruct d.
  - cbn [map fst] in Hnd. apply NoDup_cons in Hnd as [Hh Hnd].
    change (add_code_hashes ((h, k) :: calls) d)
      with (bind (bind (add_code_hash h k) (fun _ => ret tt))
                 (fun _ => add_code_hashes calls) d).
    unfold bind at 1 2. rewrite add_code_hash_new by (apply Hnew; left).
    unfold ret. rewrite IH; [done|done|].
    intros h' Hh'. cbn [code_hash_map].
    rewrite lookup_insert_ne; [apply Hnew; by right|].
    intros ->. done.
Qed.

Lemma dict_get_app_fresh {V} k (d1 d2 : dict V) :
  k ∉ dict_keys d1 -> dict_get k (d1 ++ d2) = dict_get k d2.
Proof.
  induction d1 as [|[k' v'] d1 IH]; simpl; [done|].
  rewrite not_elem_of_cons. intros [Hne Hnin].
  apply String.eqb_neq in Hne. rewrite Hne. by apply IH.
Qed.

Lemma dict_set_app_fresh {V} k (v v0 : V) (d1 d2 : dict V) :
  k ∉ dict_keys d1 -> dict_set k v (d1 ++ (k, v0) :: d2) = d1 ++ (k, v) :: d2.
Proof.
  induction d1 as [|[k' v'] d1 IH]; simpl.
  - by rewrite String.eqb_refl.
  - rewrite not_elem_of_cons. intros [Hne Hnin].
    apply String.eqb_neq in Hne. rewrite Hne. by rewrite IH.
Qed.

(** The decoding loop of [PickleDatabase.load], key by key. *)
Lemma pickle_decode_loop (todo : list (string * instance)) :
  forall (seen : dict pyval) file lg out,
    NoDup (dict_keys seen ++ map fst todo) ->
    Forall (fun kr => jsonpickle_decode (PyStr (jsonpickle_encode (PyInst (snd kr))))
                      = inr (PyInst (snd kr))) todo ->
    for_each (map fst todo)
      (fun key =>
         value <- PickleDatabase.get key ;;
         obj <- call (jsonpickle_decode value) ;;
         PickleDatabase.set key obj)
      (mkStore (mkPickleDB (seen ++ persisted todo) file) lg out)
    = Ret tt (mkStore (mkPickleDB (seen ++ decoded todo) file) lg out).
Proof.
  induction todo as [|[k r] todo IH]; intros seen file lg out Hnd Hround; [done|].
  apply Forall_cons in Hround as [Hr Hround]. cbn [snd] in Hr.
  assert (Hk : k ∉ dict_keys seen).
  { apply NoDup_app in Hnd as (_ & Hdis & _). intros Hin.
    apply (Hdis k Hin). left. }
  cbn [map fst for_each persisted decoded].
  unfold bind at 1 2, PickleDatabase.get at 1, gets. cbn [database pickle_db].
  change (map (fun kr : string * instance =>
                 (fst kr, PyStr (jsonpickle_encode (PyInst (snd kr))))) todo)
    with (persisted todo).
  rewrite dict_get_app_fresh by done. cbn [dict_get]. rewrite String.eqb_refl.
  unfold default, from_option, id. cbn [fst snd]. rewrite Hr. unfold call, ret, bind at 1 2.
  unfold PickleDatabase.set at 1, modify, set_database. cbn [database log stdout pickle_db pickle_file].
  rewrite dict_set_app_fresh by done.
  change (map (fun kr : string * instance => (fst kr, PyInst (snd kr))) todo)
    with (decoded todo).
  replace (seen ++ (k, PyInst r) :: persisted todo)
    with ((seen ++ [(k, PyInst r)]) ++ persisted todo) by (by rewrite <- app_assoc).
  replace (seen ++ (k, PyInst r) :: decoded todo)
    with ((seen ++ [(k, PyInst r)]) ++ decoded todo) by (by rewrite <- app_assoc).
  apply IH; [|done].
  unfold dict_keys in *. rewrite map_app, <- app_assoc. exact Hnd.
Qed.

Lemma decoded_keys (kvs : list (string * instance)) : dict_keys (decoded kvs) = map fst kvs.
Proof. unfold dict_keys, decoded. rewrite map_map. by apply map_ext. Qed.

Lemma persisted_keys (kvs : list (string * instance)) : dict_keys (persisted kvs) = map fst kvs.
Proof. unfold dict_keys, persisted. rewrite map_map. by apply map_ext. Qed.

Lemma omap_id_Some {A C} (f : A -> C) (l : list A) :
  omap id (map (fun x => Some (f x)) l) = map f l.
Proof. induction l as [|x l IH]; [done|]. cbn. f_equal. exact IH. Qed.

(** Reading back a decoded dictionary yields its results in order. *)
Lemma pickle_query_all_decoded (st : Store PickleDB) kvs :
  pickle_db (database st) = decoded kvs ->
  NoDup (map fst kvs) ->
  query_all st = Ret (map (fun kr => PyInst (snd kr)) kvs) st.
Proof.
  intros Hdb Hnd. rewrite pickle_query_all_run, Hdb, decoded_keys. f_equal.
  rewrite <- (omap_id_Some (fun kr : string * instance => PyInst (snd kr))).
  f_equal. rewrite map_map. apply map_ext_in. intros [k r] Hin.
  unfold pickle_lookup. rewrite Hdb.
  rewrite (dict_get_NoDup k (PyInst r)); [done|by rewrite decoded_keys|].
  apply list_elem_of_fmap. exists (k, r). split; [done|by apply list_elem_of_In].
Qed.

Lemma pickle_count_decoded (st : Store PickleDB) kvs :
  pickle_db (database st) = decoded kvs -> count st = Ret (len kvs) st.
Proof.
  intros Hdb. rewrite pickle_count_run, Hdb. unfold len, decoded.
  by rewrite length_map.
Qed.

Lemma len_zero {A} (l : list A) : (len l =? 0)%Z = true -> l = [].
Proof. destruct l; [done|]. unfold len. simpl. lia. Qed.

Lemma pickle_init_best_cache_run (d : Database PickleDB) kvs :
  put_never_raises ->
  pickle_db (database (store d)) = decoded kvs ->
  NoDup (map fst kvs) ->
  init_best_cache d
  = Ret tt (pushed (filter (fun r => ret_code r ≠ DUPLICATED)
                           (omap valid_HLSResult (map (fun kr => PyInst (snd kr)) kvs)))
                   (store d) d).
Proof.
  intros Hput Hdb Hnd.
  rewrite init_best_cache_unfold by done. rewrite (pickle_count_decoded _ kvs Hdb).
  destruct (len kvs =? 0)%Z eqn:Hn.
  - apply len_zero in Hn. subst kvs. cbn [map omap list_omap].
    rewrite filter_nil. by rewrite pushed_nil.
  - by rewrite (pickle_query_all_decoded _ kvs Hdb Hnd).
Qed.

Lemma pickle_init_code_hash_map_run (d : Database PickleDB) kvs :
  pickle_db (database (store d)) = decoded kvs ->
  NoDup (map fst kvs) ->
  Forall (fun kr => is_MerlinResult (snd kr) = true -> is_Some (code_hash (snd kr)) ->
                    ret_code (snd kr) ≠ DUPLICATED -> is_Some (point (snd kr))) kvs ->
  init_code_hash_map d
  = Ret tt (mkDatabase (store d) (best_cache d)
              (write_bindings (code_hash_map d)
                 (omap hash_binding
                    (omap as_MerlinResult (map (fun kr => PyInst (snd kr)) kvs))))
              (ticks d)).
Proof.
  intros Hdb Hnd Hpts.
  unfold init_code_hash_map, bind at 1, lift at 1.
  rewrite (pickle_count_decoded _ kvs Hdb).
  destruct (len kvs =? 0)%Z eqn:Hn.
  - apply len_zero in Hn. subst kvs. by destruct d.
  - unfold bind at 1, lift at 1. cbn [store with_store].
    rewrite (pickle_query_all_decoded _ kvs Hdb Hnd).
    rewrite code_hash_loop_run; [by destruct d|].
    apply Forall_forall. intros r Hin.
    apply as_MerlinResult_elem in Hin as [Hin HM].
    apply list_elem_of_fmap in Hin as ([k r'] & [= ->] & Hin).
    rewrite Forall_forall in Hpts. apply (Hpts _ Hin HM).
Qed.

(** [commit] after [commit]: the best cache grows by the candidates, the
    code-hash index is not touched. *)
Lemma pickle_commit_all_run kvs : forall d : Database PickleDB,
  put_never_raises ->
  exists st,
    commit_all kvs d
    = Ret tt (pushed (omap best_candidate (map (fun kr => PyInst (snd kr)) kvs)) st d).
Proof.
  induction kvs as [|[k r] kvs IH]; intros d Hput.
  - exists (store d). cbn. unfold ret. by rewrite pushed_nil_store.
  - unfold commit_all. cbn [for_each fst snd]. unfold bind at 1.
    rewrite (commit_accepted (impl := PickleDatabase.impl) k (PyInst r) d _ Hput
               (pickle_commit_impl_run k (PyInst r) (store d))).
    destruct (IH (pushed (omap best_candidate [PyInst r])
                         (mkStore (mkPickleDB (dict_set k (PyInst r)
                                                 (pickle_db (database (store d))))
                                              (pickle_file (database (store d))))
                                  (log (store d)) (stdout (store d)))
                         d) Hput) as [st Hrun].
    exists st. unfold commit_all in Hrun. rewrite Hrun, pushed_pushed.
    change (map (fun kr : string * instance => PyInst (snd kr)) ((k, r) :: kvs))
      with ([PyInst r] ++ map (fun kr : string * instance => PyInst (snd kr)) kvs).
    by rewrite omap_app.
Qed.

(** [load] first decodes the dictionary, then rebuilds the two indices. *)
Lemma pickle_load_decodes kvs file :
  NoDup (map fst kvs) ->
  Forall (fun kr => jsonpickle_decode (PyStr (jsonpickle_encode (PyInst (snd kr))))
                    = inr (PyInst (snd kr))) kvs ->
  PickleDatabase.load (fresh (mkPickleDB (persisted kvs) file))
  = (init_best_cache ;;; init_code_hash_map)
      (mkDatabase
         (mkStore (mkPickleDB (decoded kvs) file)
                  [(INFO, "Load " ++ pretty (len kvs)
                          ++ " data from an existing database")%string]
                  [])
         [] ∅ 0%nat).
Proof.
  intros Hnd Hround.
  unfold PickleDatabase.load, bind at 1, lift at 1, try_except_ValueError.
  unfold bind at 1, PickleDatabase.getall at 1, gets.
  cbn [fresh store database pickle_db]. rewrite persisted_keys.
  unfold bind at 1.
  pose proof (pickle_decode_loop kvs [] file [] [] Hnd Hround) as Hloop.
  cbn [app] in Hloop. rewrite Hloop.
  unfold bind at 1, PickleDatabase.count, PickleDatabase.totalkeys, gets.
  cbn [database pickle_db app]. unfold log_to, modify, with_store.
  cbn [log stdout database best_cache code_hash_map ticks app].
  replace (len (decoded kvs)) with (len kvs); [reflexivity|].
  unfold len, decoded. by rewrite length_map.
Qed.

(** The outcome of [load] on a freshly constructed object. *)
Lemma pickle_load_run kvs file :
  put_never_raises ->
  NoDup (map fst kvs) ->
  Forall (fun kr => jsonpickle_decode (PyStr (jsonpickle_encode (PyInst (snd kr))))
                    = inr (PyInst (snd kr))) kvs ->
  Forall (fun kr => is_MerlinResult (snd kr) = true -> is_Some (code_hash (snd kr)) ->
                    ret_code (snd kr) ≠ DUPLICATED -> is_Some (point (snd kr))) kvs ->
  let rs := filter (fun r => ret_code r ≠ DUPLICATED)
                   (omap valid_HLSResult (map (fun kr => PyInst (snd kr)) kvs)) in
  exists st,
    PickleDatabase.load (fresh (mkPickleDB (persisted kvs) file))
    = Ret tt (mkDatabase st (stamped 0 rs)
                (write_bindings ∅
                   (omap hash_binding
                      (omap as_MerlinResult (map (fun kr => PyInst (snd kr)) kvs))))
                (length rs)).
Proof.
  intros Hput Hnd Hround Hpts rs.
  rewrite (pickle_load_decodes kvs file Hnd Hround).
  set (d1 := mkDatabase _ [] ∅ 0%nat).
  unfold bind at 1.
  rewrite (pickle_init_best_cache_run d1 kvs Hput eq_refl Hnd).
  fold rs. unfold pushed. cbn [d1 store best_cache code_hash_map ticks app Nat.add].
  set (d2 := mkDatabase _ (stamped 0 rs) ∅ (length rs)).
  rewrite (pickle_init_code_hash_map_run d2 kvs eq_refl Hnd Hpts).
  eexists. reflexivity.
Qed.

Lemma write_bindings_app m (bs1 bs2 : list (string * string)) :
  write_bindings m (bs1 ++ bs2) = write_bindings (write_bindings m bs1) bs2.
Proof. apply fold_left_app. Qed.

Lemma write_bindings_other (bs : list (string * string)) : forall m h,
  h ∉ map fst bs -> write_bindings m bs !! h = m !! h.
Proof.
  induction bs as [|[h' k'] bs IH]; intros m h Hnin; [done|].
  cbn [map fst] in Hnin. apply not_elem_of_cons in Hnin as [Hne Hnin].
  cbn. fold (write_bindings (<[h' := k']> m) bs).
  rewrite IH by done. by rewrite lookup_insert_ne.
Qed.

(** The last binding written for a hash is the one that stays. *)
Lemma write_bindings_last m (bs1 bs2 : list (string * string)) h k :
  h ∉ map fst bs2 -> write_bindings m (bs1 ++ (h, k) :: bs2) !! h = Some k.
Proof.
  intros Hnin. rewrite write_bindings_app. cbn.
  fold (write_bindings (<[h := k]> (write_bindings m bs1)) bs2).
  rewrite write_bindings_other by done. apply lookup_insert_eq.
Qed.

(** What [load] records for a hash is the key of the point of the last
    stored Merlin result that carries it and is not [DUPLICATED]. *)
Lemma rebuild_last_writer_wins kvs1 kvs2 k r h p :
  put_never_raises ->
  NoDup (map fst (kvs1 ++ (k, r) :: kvs2)) ->
  Forall (fun kr => jsonpickle_decode (PyStr (jsonpickle_encode (PyInst (snd kr))))
                    = inr (PyInst (snd kr))) (kvs1 ++ (k, r) :: kvs2) ->
  Forall (fun kr => is_MerlinResult (snd kr) = true -> is_Some (code_hash (snd kr)) ->
                    ret_code (snd kr) ≠ DUPLICATED -> is_Some (point (snd kr)))
         (kvs1 ++ (k, r) :: kvs2) ->
  is_MerlinResult r = true -> ret_code r ≠ DUPLICATED ->
  code_hash r = Some h -> point r = Some p ->
  Forall (fun kr => is_MerlinResult (snd kr) = true -> ret_code (snd kr) ≠ DUPLICATED ->
                    code_hash (snd kr) ≠ Some h) kvs2 ->
  exists dl,
    PickleDatabase.load (fresh (mkPickleDB (persisted (kvs1 ++ (k, r) :: kvs2)) None))
    = Ret tt dl
    /\ code_hash_map dl !! h = Some (gen_key_from_design_point p).
Proof.
  intros Hput Hnd Hround Hpts HM Hdup Hh Hp Hlater.
  destruct (pickle_load_run _ None Hput Hnd Hround Hpts) as [st Hload].
  eexists. split; [exact Hload|]. cbn [code_hash_map].
  rewrite map_app, !omap_app. cbn [map snd omap list_omap as_MerlinResult].
  rewrite HM. cbn [omap list_omap]. unfold hash_binding at 2.
  rewrite Hh, Hp. unfold not_duplicated. rewrite (bool_decide_eq_true_2 _ Hdup).
  apply write_bindings_last.
  intros Hin. apply list_elem_of_fmap in Hin as ([h' k'] & -> & Hin).
  apply list_elem_of_omap in Hin as (r' & Hin & Hb).
  apply as_MerlinResult_elem in Hin as [Hin HM'].
  apply list_elem_of_fmap in Hin as ([k0 r0] & [= ->] & Hin).
  rewrite Forall_forall in Hlater. specialize (Hlater _ Hin HM').
  unfold hash_binding in Hb. cbn [snd fst] in *.
  destruct (code_hash r0) as [h0|] eqn:Hh0; [|done].
  destruct (point r0) as [p0|]; [|done].
  unfold not_duplicated in Hb. case_bool_decide as Hnd0; [|done].
  injection Hb as <- <-. by apply Hlater.
Qed.

Lemma stored_HLSResults (kvs : list (string * instance)) :
  Forall (fun kr => is_Result (snd kr) = true /\ is_HLSResult (snd kr) = true
                    /\ valid (snd kr) = true /\ is_MerlinResult (snd kr) = false
                    /\ ret_code (snd kr) ≠ DUPLICATED) kvs ->
  filter (fun r => ret_code r ≠ DUPLICATED)
         (omap valid_HLSResult (map (fun kr => PyInst (snd kr)) kvs)) = map snd kvs
  /\ omap best_candidate (map (fun kr => PyInst (snd kr)) kvs) = map snd kvs
  /\ omap as_MerlinResult (map (fun kr => PyInst (snd kr)) kvs) = [].
Proof.
  induction 1 as [|[k r] kvs (HR & HH & HV & HM & Hnd) _ (IH1 & IH2 & IH3)]; [done|].
  cbn [snd] in *.
  cbn [map omap list_omap valid_HLSResult best_candidate as_MerlinResult snd].
  rewrite HR, HH, HV, HM. unfold not_duplicated.
  rewrite (bool_decide_eq_true_2 _ Hnd). cbn [andb].
  rewrite filter_cons_True by done. by rewrite IH1, IH2, IH3.
Qed.

Lemma stored_MerlinResults (kvs : list (string * instance)) :
  Forall (fun kr => is_MerlinResult (snd kr) = true
                    /\ ret_code (snd kr) ≠ DUPLICATED
                    /\ is_Some (code_hash (snd kr))
                    /\ exists p, point (snd kr) = Some p
                                 /\ gen_key_from_design_point p = fst kr) kvs ->
  omap hash_binding (omap as_MerlinResult (map (fun kr => PyInst (snd kr)) kvs))
  = hash_calls kvs.
Proof.
  induction 1 as [|[k r] kvs (HM & Hnd & [h Hh] & p & Hp & Hk) _ IH]; [done|].
  cbn [fst snd] in *. unfold hash_calls. cbn. rewrite HM. cbn.
  unfold hash_binding at 1, not_duplicated. rewrite Hh, Hp.
  rewrite (bool_decide_eq_true_2 _ Hnd), Hk. cbn. f_equal. exact IH.
Qed.

(** *** The same with the Redis adapter *)

Lemma unpickled_dumps v :
  pickle_loads (pickle_dumps v) = inr v ->
  pickle_dumps v ≠ [] ->
  unpickled (Some (pickle_dumps v)) = inr (Some v)
  /\ forall key, unpickle_log key (Some (pickle_dumps v)) = [].
Proof.
  intros Hround Hne. unfold unpickled, unpickle_log.
  destruct (pickle_dumps v) as [|b bs] eqn:Hd; [done|]. cbn [truthy].
  by rewrite Hround.
Qed.

Lemma redis_batch_query_loop_good (pairs : list (string * pyval)) :
  forall data (st : Store Redis),
    Forall (fun kv => pickle_loads (pickle_dumps (snd kv)) = inr (snd kv)
                      /\ pickle_dumps (snd kv) ≠ []) pairs ->
    RedisDatabase.batch_query_loop
      (map (fun kv => (fst kv, Some (pickle_dumps (snd kv)))) pairs) data st
    = Ret (data ++ map (fun kv => Some (snd kv)) pairs)%list st.
Proof.
  induction pairs as [|[k v] pairs IH]; intros data st Hok.
  - cbn. by rewrite app_nil_r.
  - apply Forall_cons in Hok as [[Hround Hne] Hok]. cbn [snd] in Hround, Hne.
    cbn [map fst snd]. rewrite redis_batch_query_step.
    destruct (unpickled_dumps v Hround Hne) as [-> Hlog].
    rewrite Hlog, add_log_nil, (IH _ _ Hok), <- app_assoc. reflexivity.
Qed.

(** Whatever the order in which Redis lists the fields, [query_all]
    answers the stored results in that order. *)
Lemma redis_query_all_pickled (st : Store Redis) (kvs : list (string * instance)) :
  hash_order (redis_hash (database st)) = map fst kvs ->
  Forall (fun kr => redis_hash (database st) !! fst kr
                    = Some (pickle_dumps (PyInst (snd kr)))) kvs ->
  Forall (fun kr => pickle_loads (pickle_dumps (PyInst (snd kr))) = inr (PyInst (snd kr))
                    /\ pickle_dumps (PyInst (snd kr)) ≠ []) kvs ->
  query_all st = Ret (map (fun kr => PyInst (snd kr)) kvs) st.
Proof.
  intros Hkeys Hblobs Hround.
  unfold query_all, bind at 1. cbn [query_keys batch_query RedisDatabase.impl].
  unfold RedisDatabase.query_keys, RedisDatabase.hkeys, gets. rewrite Hkeys.
  unfold bind at 1. rewrite redis_batch_query_unfold.
  assert (Hitems : map (fun k => (k, redis_hash (database st) !! k)) (map fst kvs)
                   = map (fun kv : string * pyval => (fst kv, Some (pickle_dumps (snd kv))))
                         (map (fun kr : string * instance => (fst kr, PyInst (snd kr))) kvs)).
  { rewrite !map_map. apply map_ext_in. intros kr Hin. cbn [fst snd]. f_equal.
    rewrite Forall_forall in Hblobs. apply Hblobs. by apply list_elem_of_In. }
  rewrite Hitems, redis_batch_query_loop_good.
  - cbn [app]. unfold ret. f_equal. rewrite !map_map. cbn [snd].
    apply (omap_id_Some (fun kr : string * instance => PyInst (snd kr))).
  - apply Forall_fmap. eapply Forall_impl; [exact Hround|]. done.
Qed.

Lemma redis_count_run (st : Store Redis) :
  count st = Ret (len (hash_order (redis_hash (database st)))) st.
Proof. reflexivity. Qed.

End RebuildVersusCommit.

Section RebuildAnyBackend.
Context {env : Env} {B : Type} {impl : DatabaseImpl B}.

(** The two index rebuilds over a backend that reads as the results
    [kvs]. *)
Lemma init_best_cache_reads (d : Database B) (kvs : list (string * instance)) :
  put_never_raises ->
  count (store d) = Ret (len kvs) (store d) ->
  query_all (store d) = Ret (map (fun kr => PyInst (snd kr)) kvs) (store d) ->
  init_best_cache d
  = Ret tt (pushed (filter (fun r => ret_code r ≠ DUPLICATED)
                           (omap valid_HLSResult (map (fun kr => PyInst (snd kr)) kvs)))
                   (store d) d).
Proof.
  intros Hput Hcount Hall.
  rewrite init_best_cache_unfold by done. rewrite Hcount.
  destruct (len kvs =? 0)%Z eqn:Hn.
  - apply len_zero in Hn. subst kvs. cbn [map omap list_omap].
    rewrite filter_nil. by rewrite pushed_nil.
  - by rewrite Hall.
Qed.

Lemma init_code_hash_map_reads (d : Database B) (kvs : list (string * instance)) :
  count (store d) = Ret (len kvs) (store d) ->
  query_all (store d) = Ret (map (fun kr => PyInst (snd kr)) kvs) (store d) ->
  Forall (fun kr => is_MerlinResult (snd kr) = true -> is_Some (code_hash (snd kr)) ->
                    ret_code (snd kr) ≠ DUPLICATED -> is_Some (point (snd kr))) kvs ->
  init_code_hash_map d
  = Ret tt (mkDatabase (store d) (best_cache d)
              (write_bindings (code_hash_map d)
                 (omap hash_binding
                    (omap as_MerlinResult (map (fun kr => PyInst (snd kr)) kvs))))
              (ticks d)).
Proof.
  intros Hcount Hall Hpts.
  unfold init_code_hash_map, bind at 1, lift at 1.
  rewrite Hcount.
  destruct (len kvs =? 0)%Z eqn:Hn.
  - apply len_zero in Hn. subst kvs. by destruct d.
  - unfold bind at 1, lift at 1. cbn [store with_store].
    rewrite Hall.
    rewrite code_hash_loop_run; [by destruct d|].
    apply Forall_forall. intros r Hin.
    apply as_MerlinResult_elem in Hin as [Hin HM].
    apply list_elem_of_fmap in Hin as ([k r'] & [= ->] & Hin).
    rewrite Forall_forall in Hpts. apply (Hpts _ Hin HM).
Qed.

(** [commit] after [commit] over a backend whose writes succeed. *)
Lemma commit_all_run (kvs : list (string * instance)) :
  put_never_raises ->
  (forall k v (st : Store B), exists st', commit_impl k v st = Ret true st') ->
  forall d : Database B,
    exists st,
      commit_all kvs d
      = Ret tt (pushed (omap best_candidate (map (fun kr => PyInst (snd kr)) kvs)) st d).
Proof.
  intros Hput Himpl. induction kvs as [|[k r] kvs IH]; intros d.
  - exists (store d). cbn. unfold ret. by rewrite pushed_nil_store.
  - unfold commit_all. cbn [for_each fst snd]. unfold bind at 1.
    destruct (Himpl k (PyInst r) (store d)) as [st' Hst'].
    rewrite (commit_accepted k (PyInst r) d _ Hput Hst').
    destruct (IH (pushed (omap best_candidate [PyInst r]) st' d)) as [st Hrun].
    exists st. unfold commit_all in Hrun. rewrite Hrun, pushed_pushed.
    change (map (fun kr : string * instance => PyInst (snd kr)) ((k, r) :: kvs))
      with ([PyInst r] ++ map (fun kr : string * instance => PyInst (snd kr)) kvs).
    by rewrite omap_app.
Qed.

End RebuildAnyBackend.

Section RebuildRedis.
Context {env : Env}.

(** Bindings with distinct hashes can be written in any order. *)
Lemma write_bindings_list_to_map (bs : list (string * string)) : forall m,
  NoDup (map fst bs) -> write_bindings m bs = list_to_map bs ∪ m.
Proof.
  induction bs as [|[h k] bs IH]; intros m Hnd.
  - cbn. by rewrite (left_id_L ∅ (∪)).
  - cbn [map fst] in Hnd. apply NoDup_cons in Hnd as [Hh Hnd].
    cbn. fold (write_bindings (<[h := k]> m) bs). rewrite (IH _ Hnd).
    rewrite <- insert_union_l. symmetry. apply insert_union_r.
    by apply not_elem_of_list_to_map_1.
Qed.

Lemma write_bindings_Permutation (bs1 bs2 : list (string * string)) m :
  NoDup (map fst bs1) -> bs1 ≡ₚ bs2 -> write_bindings m bs1 = write_bindings m bs2.
Proof.
  intros Hnd Hperm.
  rewrite !write_bindings_list_to_map; [|by rewrite <- Hperm|done].
  f_equal. by apply list_to_map_proper.
Qed.

(** [load] when the dump file can be read. *)
Lemma redis_load_reads_file (d : Database Redis) content data :
  redis_file (backend d) = Some content ->
  pickle_load_file content = inr data ->
  data <> [] ->
  RedisDatabase.load d
  = (init_best_cache ;;; init_code_hash_map)
      (with_store
         (mkStore (mkRedis (hash_update (redis_hash (backend d)) data) (Some content))
                  (log (store d)
                   ++ [(INFO, "Load " ++ pretty (length data)
                              ++ " data from an existing database")%string])
                  (stdout (store d)))
         d).
Proof.
  intros Hfile Hload Hne. unfold backend in *.
  unfold RedisDatabase.load, bind at 1 2, lift at 1, gets. cbn [with_store store].
  rewrite Hfile. unfold bind at 1, lift at 1, try_except_ValueError.
  cbn [store]. rewrite Hload. unfold call, ret. cbn [with_store store].
  unfold bind at 1, lift at 1, log_to, modify. cbn [with_store store].
  unfold lift at 1, RedisDatabase.hmset.
  destruct data as [|kv data]; [done|]. unfold modify, set_database.
  cbn [with_store store database log stdout redis_hash redis_file best_cache
       code_hash_map ticks].
  by rewrite Hfile.
Qed.

(** A hash that holds the pickled results [kvs] is listed as a
    rearrangement of them. *)
Lemma redis_listing (kvs : list (string * instance)) :
  NoDup (map fst kvs) ->
  exists kvs',
    kvs' ≡ₚ kvs
    /\ hash_order (hash_update ∅ (pickled kvs)) = map fst kvs'
    /\ Forall (fun kr => hash_update ∅ (pickled kvs) !! fst kr
                          = Some (pickle_dumps (PyInst (snd kr)))) kvs'.
Proof.
  intros Hnd.
  assert (Hkeys : map fst (pickled kvs) = map fst kvs).
  { unfold pickled. rewrite map_map. by apply map_ext. }
  assert (Hperm : hash_order (hash_update ∅ (pickled kvs)) ≡ₚ map fst kvs).
  { apply hash_order_Permutation; [done|]. intros k.
    rewrite hash_update_is_Some, Hkeys, lookup_empty.
    split; [by left|]. intros [?|[? ?]]; done. }
  apply Permutation_map_inv in Hperm as (kvs' & Heq & Hperm).
  exists kvs'. split; [by symmetry|]. split; [done|].
  apply Forall_forall. intros [k r] Hin. cbn [fst snd].
  apply hash_update_elem; [by rewrite Hkeys|].
  apply list_elem_of_fmap. exists (k, r). split; [done|]. by rewrite Hperm.
Qed.

(** The outcome of [load] on a new object over a dump of [kvs]: both
    indices are filled from a rearrangement of the results. *)
Lemma redis_load_run (kvs : list (string * instance)) content :
  put_never_raises ->
  kvs <> [] ->
  NoDup (map fst kvs) ->
  pickle_load_file content = inr (pickled kvs) ->
  Forall (fun kr => pickle_loads (pickle_dumps (PyInst (snd kr))) = inr (PyInst (snd kr))
                    /\ pickle_dumps (PyInst (snd kr)) ≠ []) kvs ->
  Forall (fun kr => is_MerlinResult (snd kr) = true -> is_Some (code_hash (snd kr)) ->
                    ret_code (snd kr) ≠ DUPLICATED -> is_Some (point (snd kr))) kvs ->
  exists kvs' st,
    kvs' ≡ₚ kvs
    /\ let rs := filter (fun r => ret_code r ≠ DUPLICATED)
                        (omap valid_HLSResult (map (fun kr => PyInst (snd kr)) kvs')) in
       RedisDatabase.load (fresh (mkRedis ∅ (Some content)))
       = Ret tt (mkDatabase st (stamped 0 rs)
                   (write_bindings ∅
                      (omap hash_binding
                         (omap as_MerlinResult (map (fun kr => PyInst (snd kr)) kvs'))))
                   (length rs)).
Proof.
  intros Hput Hne Hnd Hfile Hround Hpts.
  destruct (redis_listing kvs Hnd) as (kvs' & Hperm & Hkeys & Hblobs).
  exists kvs'. eexists. split; [exact Hperm|]. cbv zeta.
  rewrite (redis_load_reads_file (fresh (mkRedis ∅ (Some content))) content (pickled kvs)
             eq_refl Hfile)
    by (unfold pickled; by destruct kvs).
  set (d1 := with_store _ _).
  assert (Hcount : count (store d1) = Ret (len kvs') (store d1)).
  { rewrite redis_count_run. subst d1. cbn [with_store store database redis_hash fresh backend].
    unfold backend. cbn [fresh store database redis_hash].
    rewrite Hkeys. unfold len. by rewrite length_map. }
  assert (Hall : query_all (store d1)
                 = Ret (map (fun kr => PyInst (snd kr)) kvs') (store d1)).
  { apply redis_query_all_pickled.
    - subst d1. unfold backend. cbn [with_store fresh store database redis_hash].
      exact Hkeys.
    - subst d1. unfold backend. cbn [with_store fresh store database redis_hash].
      exact Hblobs.
    - by rewrite Hperm. }
  unfold bind at 1.
  rewrite (init_best_cache_reads d1 kvs' Hput Hcount Hall).
  set (d2 := pushed _ _ _).
  assert (Hstore : store d2 = store d1) by reflexivity.
  rewrite (init_code_hash_map_reads d2 kvs');
    [|by rewrite Hstore|by rewrite Hstore|by rewrite Hperm].
  subst d2 d1. unfold pushed.
  cbn [with_store fresh store best_cache code_hash_map ticks app Nat.add].
  reflexivity.
Qed.

(** C1, as amended, when [put] does not raise: for persisted valid
    [HLSResult] instances that are not [DUPLICATED], [load] yields the
    best-cache entries (timestamps aside) and the code-hash index that
    committing them in persisted order to an empty store yields, [commit]
    leaving the code-hash index empty; for persisted [MerlinResult]
    instances that are not [DUPLICATED], carry pairwise distinct hashes and
    are stored under the key of their point, [load] yields the code-hash
    index that the [add_code_hash] calls for them yield in persisted
    order.  With the Pickle adapter the entries come in persisted order;
    with the Redis adapter, over a dump file that holds at least one
    result and from which pickle gives the results back, they are the
    same entries in the order in which Redis lists the hash. *)
Theorem rebuild_matches_commit (kvsA kvsB : list (string * instance)) :
  put_never_raises ->
  NoDup (map fst kvsA) ->
  NoDup (map fst kvsB) ->
  Forall (fun kr => jsonpickle_decode (PyStr (jsonpickle_encode (PyInst (snd kr))))
                    = inr (PyInst (snd kr))) (kvsA ++ kvsB) ->
  Forall (fun kr => is_Result (snd kr) = true /\ is_HLSResult (snd kr) = true
                    /\ valid (snd kr) = true /\ is_MerlinResult (snd kr) = false
                    /\ ret_code (snd kr) ≠ DUPLICATED) kvsA ->
  Forall (fun kr => is_MerlinResult (snd kr) = true
                    /\ ret_code (snd kr) ≠ DUPLICATED
                    /\ is_Some (code_hash (snd kr))
                    /\ exists p, point (snd kr) = Some p
                                 /\ gen_key_from_design_point p = fst kr) kvsB ->
  NoDup (map fst (hash_calls kvsB)) ->
  (exists dl dc,
      PickleDatabase.load (fresh (mkPickleDB (persisted kvsA) None)) = Ret tt dl
      /\ commit_all kvsA (fresh (mkPickleDB [] None)) = Ret tt dc
      /\ map untimed (best_cache dl) = map untimed (best_cache dc)
      /\ map untimed (best_cache dl) = map (fun kr => (quality (snd kr), snd kr)) kvsA
      /\ code_hash_map dl = code_hash_map dc
      /\ code_hash_map dc = ∅)
  /\ (exists dl da,
         PickleDatabase.load (fresh (mkPickleDB (persisted kvsB) None)) = Ret tt dl
         /\ add_code_hashes (hash_calls kvsB) (fresh (mkPickleDB [] None)) = Ret tt da
         /\ code_hash_map dl = code_hash_map da
         /\ code_hash_map dl = write_bindings ∅ (hash_calls kvsB))
  /\ (forall content,
         kvsA <> [] ->
         pickle_load_file content = inr (pickled kvsA) ->
         Forall (fun kr => pickle_loads (pickle_dumps (PyInst (snd kr)))
                           = inr (PyInst (snd kr))
                           /\ pickle_dumps (PyInst (snd kr)) ≠ []) kvsA ->
         exists dl dc,
           RedisDatabase.load (fresh (mkRedis ∅ (Some content))) = Ret tt dl
           /\ commit_all kvsA (fresh (mkRedis ∅ None)) = Ret tt dc
           /\ map untimed (best_cache dl) ≡ₚ map untimed (best_cache dc)
           /\ map untimed (best_cache dc)
              = map (fun kr => (quality (snd kr), snd kr)) kvsA
           /\ code_hash_map dl = code_hash_map dc
           /\ code_hash_map dc = ∅)
  /\ (forall content,
         kvsB <> [] ->
         pickle_load_file content = inr (pickled kvsB) ->
         Forall (fun kr => pickle_loads (pickle_dumps (PyInst (snd kr)))
                           = inr (PyInst (snd kr))
                           /\ pickle_dumps (PyInst (snd kr)) ≠ []) kvsB ->
         exists dl da,
           RedisDatabase.load (fresh (mkRedis ∅ (Some content))) = Ret tt dl
           /\ add_code_hashes (hash_calls kvsB) (fresh (mkRedis ∅ None)) = Ret tt da
           /\ code_hash_map dl = code_hash_map da
           /\ code_hash_map dl = write_bindings ∅ (hash_calls kvsB)).
Proof.
  intros Hput HndA HndB Hround HA HB Hhashes.
  apply Forall_app in Hround as [HroundA HroundB].
  assert (HptsA : Forall (fun kr => is_MerlinResult (snd kr) = true ->
                            is_Some (code_hash (snd kr)) ->
                            ret_code (snd kr) ≠ DUPLICATED -> is_Some (point (snd kr))) kvsA).
  { eapply Forall_impl; [exact HA|].
    intros kr (_ & _ & _ & HM & _) HM'. congruence. }
  assert (HptsB : Forall (fun kr => is_MerlinResult (snd kr) = true ->
                            is_Some (code_hash (snd kr)) ->
                            ret_code (snd kr) ≠ DUPLICATED -> is_Some (point (snd kr))) kvsB).
  { eapply Forall_impl; [exact HB|].
    intros kr (_ & _ & _ & p & Hp & _) _ _ _. rewrite Hp. eauto. }
  split; [|split; [|split]].
  - destruct (stored_HLSResults kvsA HA) as (Hhls & Hcand & Hmer).
    destruct (pickle_commit_all_run kvsA (fresh (mkPickleDB [] None)) Hput) as [stc Hc].
    destruct (pickle_load_run kvsA None Hput HndA HroundA) as [st Hload].
    { eapply Forall_impl; [exact HA|].
      intros kr (_ & _ & _ & HM & _) HM'. congruence. }
    eexists _, _. split; [exact Hload|]. split; [exact Hc|].
    cbn [pushed best_cache code_hash_map fresh app ticks].
    rewrite Hhls, Hcand, Hmer, stamped_untimed, map_map. done.
  - destruct (pickle_load_run kvsB None Hput HndB HroundB) as [st Hload].
    { eapply Forall_impl; [exact HB|].
      intros kr (_ & _ & _ & p & Hp & _) _ _ _. rewrite Hp. eauto. }
    eexists _, _. split; [exact Hload|]. split.
    + apply add_code_hashes_fresh; [exact Hhashes|].
      intros h _. apply lookup_empty.
    + cbn [code_hash_map fresh]. by rewrite (stored_MerlinResults kvsB HB).
  - intros content Hne Hfile HpickleA.
    destruct (redis_load_run kvsA content Hput Hne HndA Hfile HpickleA HptsA)
      as (kvs' & st & Hperm & Hload). cbv zeta in Hload.
    destruct (commit_all_run (impl := RedisDatabase.impl) kvsA Hput
                (fun k v st => ltac:(destruct (redis_commit_impl_run k v st); eauto))
                (fresh (mkRedis ∅ None))) as [stc Hc].
    assert (HA' : Forall (fun kr => is_Result (snd kr) = true /\ is_HLSResult (snd kr) = true
                            /\ valid (snd kr) = true /\ is_MerlinResult (snd kr) = false
                            /\ ret_code (snd kr) ≠ DUPLICATED) kvs') by (by rewrite Hperm).
    destruct (stored_HLSResults kvs' HA') as (Hhls' & _ & Hmer').
    destruct (stored_HLSResults kvsA HA) as (_ & Hcand & _).
    eexists _, _. split; [exact Hload|]. split; [exact Hc|].
    cbn [pushed best_cache code_hash_map fresh app ticks store].
    rewrite Hhls', Hcand, Hmer', !stamped_untimed, !map_map.
    split; [by rewrite Hperm|]. done.
  - intros content Hne Hfile HpickleB.
    destruct (redis_load_run kvsB content Hput Hne HndB Hfile HpickleB HptsB)
      as (kvs' & st & Hperm & Hload). cbv zeta in Hload.
    assert (HB' : Forall (fun kr => is_MerlinResult (snd kr) = true
                            /\ ret_code (snd kr) ≠ DUPLICATED
                            /\ is_Some (code_hash (snd kr))
                            /\ exists p, point (snd kr) = Some p
                                         /\ gen_key_from_design_point p = fst kr) kvs')
      by (by rewrite Hperm).
    assert (Hcalls : hash_calls kvs' ≡ₚ hash_calls kvsB).
    { unfold hash_calls. by rewrite Hperm. }
    assert (Hmap : write_bindings ∅ (hash_calls kvs') = write_bindings ∅ (hash_calls kvsB)).
    { symmetry. apply write_bindings_Permutation; [done|by symmetry]. }
    eexists _, _. split; [exact Hload|]. split.
    + apply add_code_hashes_fresh; [exact Hhashes|].
      intros h _. apply lookup_empty.
    + cbn [code_hash_map fresh]. by rewrite (stored_MerlinResults kvs' HB'), Hmap.
Qed.


End RebuildRedis.

(** ** The claims on the sample data *)

Section Samples.
Local Existing Instance sample_env.

(** Decide a closed decidable proposition by evaluation. *)
Ltac by_decide :=
  match goal with |- ?P => apply (@bool_decide_unpack P _) end; vm_compute; exact I.

(** [add_code_hash] on a fresh index, with two calls in between. *)
Lemma add_code_hash_check_and_set_witness :
  exists d1 d2 : Database unit,
    add_code_hash "abc" "PARA-1" (fresh tt) = Ret None d1
    /\ code_hash_map d1 !! "abc" = Some "PARA-1"
    /\ add_code_hashes [("xyz", "PARA-3"); ("abc", "PARA-4")] d1 = Ret tt d2
    /\ add_code_hash "abc" "PARA-2" d2 = Ret (Some "PARA-1") d2
    /\ code_hash_map d2 !! "abc" = Some "PARA-1".
Proof.
  apply (add_code_hash_check_and_set "abc" "PARA-1" "PARA-2"
           [("xyz", "PARA-3"); ("abc", "PARA-4")] (fresh tt)).
  reflexivity.
Defined.

(** A backend that refuses writes makes both commit paths exit. *)
Lemma write_failure_is_fatal_witness :
  (exists d' : Database unit,
      commit "PARA-1" (PyStr "note") (fresh tt) = SysExit 1 d'
      /\ log (store d') = [] ++ [(ERROR, "Failed to commit results to the database")]
      /\ best_cache d' = []
      /\ code_hash_map d' = ∅)
  /\ (exists d' : Database unit,
         batch_commit [("PARA-1", PyStr "note")] (fresh tt) = SysExit 1 d'
         /\ log (store d') = [] ++ [(ERROR, "Failed to commit results to the database")]
         /\ best_cache d' = []
         /\ code_hash_map d' = ∅)
  /\ (1 ≠ 0)%Z.
Proof.
  apply (write_failure_is_fatal (impl := RefusingDatabase)
           "PARA-1" (PyStr "note") [("PARA-1", PyStr "note")] (fresh tt)
           (mkStore tt [] []) 0 (mkStore tt [] [])).
  - reflexivity.
  - reflexivity.
  - reflexivity.
Defined.

(** Committing a string stores it and leaves the best cache alone, on its
    own and in a batch with a result. *)
Lemma commit_type_gate_witness :
  commit "PARA-1" (PyStr "note") (fresh empty_pickle)
  = Ret tt (with_store (mkStore (mkPickleDB [("PARA-1", PyStr "note")] None) [] [])
                       (fresh empty_pickle))
  /\ (exists dP' : Database PickleDB,
         batch_commit [("PARA-1", PyStr "note"); ("PARA-2", PyInst (hls_result point_2 3))]
                      (fresh empty_pickle) = Ret tt dP'
         /\ dict_get "PARA-1" (pickle_db (database (store dP'))) = Some (PyStr "note")
         /\ map entry_result (best_cache dP') = [hls_result point_2 3])
  /\ (exists dR' : Database Redis,
         batch_commit [("PARA-1", PyStr "note"); ("PARA-2", PyInst (hls_result point_2 3))]
                      (fresh empty_redis) = Ret tt dR'
         /\ redis_hash (database (store dR')) !! "PARA-1"
            = Some (pickle_dumps (PyStr "note"))
         /\ map entry_result (best_cache dR') = [hls_result point_2 3]).
Proof.
  destruct (commit_type_gate (impl := PickleDatabase.impl)
              "PARA-1" (PyStr "note")
              [("PARA-1", PyStr "note"); ("PARA-2", PyInst (hls_result point_2 3))]
              (fresh empty_pickle)
              (mkStore (mkPickleDB [("PARA-1", PyStr "note")] None) [] [])
              (mkStore (mkPickleDB [("PARA-1", PyStr "note");
                                    ("PARA-2", PyInst (hls_result point_2 3))] None) [] []))
    as (Hcommit & _ & _ & _ & _ & _ & Hpickle & Hredis).
  - reflexivity.
  - reflexivity.
  - split; [by apply Hcommit|]. split.
    + eexists. split; [vm_compute; reflexivity|]. split; [|reflexivity].
      apply (Hpickle (fresh empty_pickle) _ []
               [("PARA-2", PyInst (hls_result point_2 3))]).
      * reflexivity.
      * by_decide.
      * vm_compute. reflexivity.
    + eexists. split; [vm_compute; reflexivity|]. split; [|reflexivity].
      apply (Hredis (fresh empty_redis) _ []
               [("PARA-2", PyInst (hls_result point_2 3))]).
      * reflexivity.
      * by_decide.
      * vm_compute. reflexivity.
Defined.

(** A committed result is read back from either adapter. *)
Lemma commit_then_query_witness :
  (exists d' : Database PickleDB,
      commit "PARA-1" (PyInst (hls_result point_1 5)) (fresh empty_pickle) = Ret tt d'
      /\ lift (query "PARA-1") d' = Ret (Some (PyInst (hls_result point_1 5))) d')
  /\ (exists d' : Database Redis,
         commit "PARA-1" (PyInst (hls_result point_1 5)) (fresh empty_redis) = Ret tt d'
         /\ lift (query "PARA-1") d' = Ret (Some (PyInst (hls_result point_1 5))) d').
Proof.
  destruct (commit_then_query "PARA-1" (hls_result point_1 5))
    as (Hpickle & Hredis & Hreturns).
  destruct Hreturns as [Hp Hr]; [intros q e; reflexivity|].
  split.
  - destruct (Hp (fresh empty_pickle)) as [d' Hrun].
    exists d'. split; [exact Hrun|]. by apply (Hpickle (fresh empty_pickle)).
  - destruct (Hr (fresh empty_redis)) as [d' Hrun].
    exists d'. split; [exact Hrun|].
    apply (Hredis eq_refl ltac:(vm_compute; discriminate) (fresh empty_redis)).
    exact Hrun.
Defined.

(** A duplicate is stored and read back, and [update_best] ignores it. *)
Lemma duplicated_results_stay_out_witness :
  (exists d' : Database PickleDB,
      commit "PARA-2" (PyInst (duplicated_result point_2 "abc")) (fresh empty_pickle)
      = Ret tt d'
      /\ lift (query "PARA-2") d' = Ret (Some (PyInst (duplicated_result point_2 "abc"))) d'
      /\ best_cache d' = []
      /\ code_hash_map d' = ∅)
  /\ update_best (duplicated_result point_2 "abc") (fresh empty_pickle)
     = Ret tt (fresh empty_pickle).
Proof.
  destruct (duplicated_results_stay_out "PARA-2" (duplicated_result point_2 "abc") eq_refl)
    as (Hpickle & _ & Hupdate & _).
  split.
  - apply (Hpickle (fresh empty_pickle)).
  - apply Hupdate.
Defined.

(** Three insertions under the advancing clock, two of equal quality. *)
Lemma best_cache_order_witness :
  exists d' : Database unit,
    for_each [hls_result point_1 5; hls_result point_2 3; hls_result point_2 5]
             update_best (fresh tt) = Ret tt d'
    /\ time_increasing (best_cache d')
    /\ StronglySorted (fun e1 e2 => float_le (entry_quality e1) (entry_quality e2))
                      (drain_all (best_cache d')).
Proof.
  destruct (best_cache_order
              [hls_result point_1 5; hls_result point_2 3; hls_result point_2 5]
              (fresh tt))
    as (d' & Hrun & _ & Hinc & _ & Hsorted & _).
  - intros q e. reflexivity.
  - intros i j Hij. cbn. lia.
  - constructor.
  - constructor.
  - constructor.
  - repeat constructor; discriminate.
  - exists d'. split; [exact Hrun|]. split; [exact Hinc|exact Hsorted].
Defined.

(** Two persisted HLS results, and two persisted Merlin results with
    different hashes, in a PickleDB dictionary and in a Redis dump. *)
Lemma rebuild_matches_commit_witness :
  (exists dl dc,
      PickleDatabase.load (fresh (mkPickleDB (persisted sample_hls) None)) = Ret tt dl
      /\ commit_all sample_hls (fresh (mkPickleDB [] None)) = Ret tt dc
      /\ map untimed (best_cache dl) = map untimed (best_cache dc)
      /\ map untimed (best_cache dl)
         = map (fun kr => (quality (snd kr), snd kr)) sample_hls
      /\ code_hash_map dl = code_hash_map dc
      /\ code_hash_map dc = ∅)
  /\ (exists dl da,
         PickleDatabase.load (fresh (mkPickleDB (persisted sample_merlin) None)) = Ret tt dl
         /\ add_code_hashes (hash_calls sample_merlin) (fresh (mkPickleDB [] None))
            = Ret tt da
         /\ code_hash_map dl = code_hash_map da
         /\ code_hash_map dl = write_bindings ∅ (hash_calls sample_merlin))
  /\ (exists dl dc,
         RedisDatabase.load
           (fresh (mkRedis ∅ (Some (pickle_dump_file (dumped (pickled sample_hls))))))
         = Ret tt dl
         /\ commit_all sample_hls (fresh (mkRedis ∅ None)) = Ret tt dc
         /\ map untimed (best_cache dl) ≡ₚ map untimed (best_cache dc)
         /\ code_hash_map dl = code_hash_map dc)
  /\ (exists dl da,
         RedisDatabase.load
           (fresh (mkRedis ∅ (Some (pickle_dump_file (dumped (pickled sample_merlin))))))
         = Ret tt dl
         /\ add_code_hashes (hash_calls sample_merlin) (fresh (mkRedis ∅ None)) = Ret tt da
         /\ code_hash_map dl = code_hash_map da).
Proof.
  destruct (rebuild_matches_commit sample_hls sample_merlin)
    as (Hpickle_hls & Hpickle_merlin & Hredis_hls & Hredis_merlin).
  - intros q e. reflexivity.
  - by_decide.
  - by_decide.
  - repeat constructor.
  - repeat constructor; discriminate.
  - repeat constructor; try discriminate; eexists; split; reflexivity.
  - by_decide.
  - split; [exact Hpickle_hls|]. split; [exact Hpickle_merlin|]. split.
    + destruct (Hredis_hls (pickle_dump_file (dumped (pickled sample_hls))))
        as (dl & dc & Hload & Hcommit & Hbest & _ & Hmap & _).
      * discriminate.
      * vm_compute. reflexivity.
      * repeat constructor; vm_compute; discriminate.
      * exists dl, dc. split; [exact Hload|]. split; [exact Hcommit|].
        split; [exact Hbest|exact Hmap].
    + destruct (Hredis_merlin (pickle_dump_file (dumped (pickled sample_merlin))))
        as (dl & da & Hload & Hcalls & Hmap & _).
      * discriminate.
      * vm_compute. reflexivity.
      * repeat constructor; vm_compute; discriminate.
      * exists dl, da. split; [exact Hload|]. split; [exact Hcalls|exact Hmap].
Defined.

(** C1, refuted as stated: one persisted Merlin result with a hash.
    [load] records its hash and leaves the best cache empty; committing it
    to an empty store fills the best cache and records no hash. *)
Lemma rebuild_differs_from_commit :
  exists dl dc,
    PickleDatabase.load
      (fresh (mkPickleDB (persisted [("PARA-1", merlin_result point_1 "abc")]) None))
    = Ret tt dl
    /\ commit_all [("PARA-1", merlin_result point_1 "abc")] (fresh (mkPickleDB [] None))
       = Ret tt dc
    /\ map untimed (best_cache dl) = []
    /\ map untimed (best_cache dc) = [(Num 0, merlin_result point_1 "abc")]
    /\ map untimed (best_cache dl) ≠ map untimed (best_cache dc)
    /\ code_hash_map dl !! "abc" = Some "PARA-1"
    /\ code_hash_map dc !! "abc" = None
    /\ code_hash_map dl ≠ code_hash_map dc.
Proof.
  eexists _, _. split; [vm_compute; reflexivity|].
  split; [vm_compute; reflexivity|].
  split; [reflexivity|]. split; [reflexivity|]. split; [discriminate|].
  split; [reflexivity|]. split; [reflexivity|].
  intros Heq. apply (f_equal (fun m => m !! "abc")) in Heq. discriminate Heq.
Qed.

(** C2, evaluated on two stored results with the same hash: the index
    ends up with the key of the second. *)
Theorem rebuild_keeps_last_writer :
  exists dl,
    PickleDatabase.load (fresh (mkPickleDB (persisted sample_same_hash) None)) = Ret tt dl
    /\ map fst sample_same_hash = ["PARA-1"; "PARA-2"]
    /\ code_hash_map dl !! "abc" = Some "PARA-2"
    /\ code_hash_map dl !! "abc" ≠ Some "PARA-1".
Proof.
  eexists. split; [vm_compute; reflexivity|].
  split; [reflexivity|]. split; [reflexivity|]. discriminate.
Qed.

(** C3, refuted as stated: under a clock that reads the same value twice
    in a row, the second insertion gets the timestamp of the first. *)
Lemma timestamps_can_repeat :
  exists d' : Database unit,
    for_each [hls_result point_1 5; hls_result point_2 3]
             (update_best (env := coarse_clock_env)) (fresh tt) = Ret tt d'
    /\ map entry_time (best_cache d') = [0%Z; 0%Z]
    /\ ~ time_increasing (best_cache d').
Proof.
  eexists. split; [vm_compute; reflexivity|]. split; [reflexivity|].
  intros Hinc. apply StronglySorted_cons in Hinc as [Hlt _].
  apply Forall_cons in Hlt as [Hlt _]. vm_compute in Hlt. discriminate Hlt.
Qed.

(** C8, evaluated on a hash with a corrupted blob: [query] wraps
    [pickle.loads] in a handler that logs the failure and answers [None],
    but the handler catches [ValueError] only.  The [UnpicklingError] of
    the corrupted blob is not degraded to [None]: it leaves [query], and
    it ends [batch_query] for the good key of the same call as well. *)
Theorem corrupt_blob_escapes :
  sample_loads [Byte.x00] = inl (OtherError "UnpicklingError" "invalid load key")
  /\ RedisDatabase.query "corrupt" sample_store
     = Raise (OtherError "UnpicklingError" "invalid load key") sample_store
  /\ ~ (exists st', RedisDatabase.query "corrupt" sample_store = Ret None st')
  /\ RedisDatabase.batch_query ["good"; "corrupt"] sample_store
     = Raise (OtherError "UnpicklingError" "invalid load key") sample_store.
Proof.
  split; [reflexivity|]. split; [reflexivity|]. split; [|reflexivity].
  intros [st' Hq]. vm_compute in Hq. discriminate Hq.
Qed.

(** C10, evaluated on two pairs with the same key: the Redis
    [batch_commit_impl] answers the size of the dictionary it has built,
    1, not the number of pairs, 2, which the Pickle adapter answers for
    the same pairs; so [batch_commit] with the Redis adapter takes the
    exit branch, after the pairs were set in the hash and dumped. *)
Theorem redis_batch_counts_keys :
  let pairs := [("PARA-1", PyStr "note"); ("PARA-1", PyInst (hls_result point_1 5))] in
  len pairs = 2%Z
  /\ (exists st', RedisDatabase.batch_commit_impl pairs (mkStore empty_redis [] [])
                  = Ret 1%Z st'
                  /\ redis_hash (database st') !! "PARA-1"
                     = Some (pickle_dumps (PyInst (hls_result point_1 5)))
                  /\ is_Some (redis_file (database st')))
  /\ ~ (exists st', RedisDatabase.batch_commit_impl pairs (mkStore empty_redis [] [])
                    = Ret (len pairs) st')
  /\ (exists st', PickleDatabase.batch_commit_impl pairs (mkStore empty_pickle [] [])
                  = Ret 2%Z st')
  /\ (exists d', batch_commit pairs (fresh empty_redis) = SysExit 1 d')
  /\ exits (batch_commit pairs (fresh empty_pickle)) = false.
Proof.
  cbv zeta. split; [reflexivity|].
  split; [eexists; split; [vm_compute; reflexivity|split; [reflexivity|by eexists]]|].
  split; [|split; [eexists; vm_compute; reflexivity|]].
  - intros [st' Hrun]. vm_compute in Hrun. discriminate Hrun.
  - split; [eexists; vm_compute; reflexivity|reflexivity].
Qed.

End Samples.

(** * Further properties *)

(** ** What a method leaves alone *)

Section Frames.
Context {env : Env}.

Lemma keeps_ret {S A X} (part : S -> X) (a : A) : keeps part (ret a).
Proof. by intros s. Qed.

Lemma keeps_bind {S A C X} (part : S -> X) (m : M S A) (f : A -> M S C) :
  keeps part m -> (forall a, keeps part (f a)) -> keeps part (bind m f).
Proof.
  intros Hm Hf s. unfold bind. specialize (Hm s).
  destruct (m s) as [a s'|c s'|e s']; simpl in *; [|done..].
  by rewrite Hf.
Qed.

Lemma keeps_gets {S A X} (part : S -> X) (f : S -> A) : keeps part (gets f).
Proof. by intros s. Qed.

Lemma keeps_raise {S A X} (part : S -> X) (e : exn) : keeps part (raise (A := A) e).
Proof. by intros s. Qed.

Lemma keeps_call {S A X} (part : S -> X) (r : exn + A) : keeps part (call r).
Proof. intros s. by destruct r. Qed.

Lemma keeps_try {S A X} (part : S -> X) (m : M S A) (h : string -> M S A) :
  keeps part m -> (forall msg, keeps part (h msg)) ->
  keeps part (try_except_ValueError m h).
Proof.
  intros Hm Hh s. unfold try_except_ValueError. specialize (Hm s).
  destruct (m s) as [a s'|c s'|[msg| | |cls msg] s']; simpl in *; try done.
  by rewrite Hh.
Qed.

Lemma keeps_for_each {S A X} (part : S -> X) (l : list A) (body : A -> M S unit) :
  (forall x, keeps part (body x)) -> keeps part (for_each l body).
Proof.
  intros Hbody. induction l as [|x l IH]; simpl.
  - apply keeps_ret.
  - apply keeps_bind; auto.
Qed.

Lemma keeps_log {B} lvl msg : keeps (database (B := B)) (log_to lvl msg).
Proof. by intros st. Qed.

(** An adapter method that leaves the data alone does so as a method of
    the object, and no adapter method touches the indices. *)
Lemma keeps_lift_backend {B A} (m : M (Store B) A) :
  keeps database m -> keeps backend (lift m).
Proof.
  intros Hm d. unfold lift, backend. specialize (Hm (store d)).
  by destruct (m (store d)) as [a st|c st|e st].
Qed.

Lemma keeps_lift_best_cache {B A} (m : M (Store B) A) : keeps best_cache (lift m).
Proof. intros d. unfold lift. by destruct (m (store d)). Qed.

Lemma keeps_lift_code_hash_map {B A} (m : M (Store B) A) : keeps code_hash_map (lift m).
Proof. intros d. unfold lift. by destruct (m (store d)). Qed.

(** Walk through a method built from reads, log lines and handlers. *)
Ltac frame :=
  repeat first
    [ apply keeps_ret | apply keeps_gets | apply keeps_log | apply keeps_call
    | apply keeps_raise
    | apply keeps_try; [|intros ?]
    | apply keeps_bind; [|intros ?] ].

Lemma redis_query_keeps_data key : keeps database (RedisDatabase.query key).
Proof.
  unfold RedisDatabase.query, RedisDatabase.hexists, RedisDatabase.hget.
  apply keeps_bind; [frame|]. intros present.
  destruct (negb present); [frame|].
  apply keeps_bind; [frame|]. intros pickled_obj.
  destruct (truthy pickled_obj); frame.
Qed.

Lemma redis_batch_query_loop_keeps_data items : forall data,
  keeps database (RedisDatabase.batch_query_loop items data).
Proof.
  induction items as [|[key pickled_obj] items IH]; intros data; simpl; [frame|].
  apply keeps_bind; [|auto].
  destruct (truthy pickled_obj); frame.
Qed.

Lemma redis_batch_query_keeps_data keys : keeps database (RedisDatabase.batch_query keys).
Proof.
  destruct keys as [|key keys]; [frame|].
  unfold RedisDatabase.batch_query, RedisDatabase.hmget.
  apply keeps_bind; [frame|]. intros blobs.
  apply redis_batch_query_loop_keeps_data.
Qed.

Lemma redis_count_keeps_data : keeps database RedisDatabase.count.
Proof. unfold RedisDatabase.count, RedisDatabase.hkeys. frame. Qed.

Lemma redis_query_keys_keeps_data : keeps database RedisDatabase.query_keys.
Proof. unfold RedisDatabase.query_keys, RedisDatabase.hkeys. frame. Qed.

Lemma pickle_batch_query_keeps_data keys : keeps database (PickleDatabase.batch_query keys).
Proof. intros st. by rewrite pickle_batch_query_run. Qed.

Lemma query_all_keeps_data {B} {impl : DatabaseImpl B} :
  keeps (database (B := B)) query_keys ->
  (forall keys, keeps (database (B := B)) (batch_query keys)) ->
  keeps (database (B := B)) query_all.
Proof.
  intros Hk Hb. unfold query_all.
  apply keeps_bind; [done|]. intros keys.
  apply keeps_bind; [done|]. intros vs. frame.
Qed.

Lemma redis_query_all_keeps_data : keeps database (query_all (B := Redis)).
Proof.
  apply query_all_keeps_data;
    [apply redis_query_keys_keeps_data | apply redis_batch_query_keeps_data].
Qed.

Lemma pickle_query_all_keeps_data : keeps database (query_all (B := PickleDB)).
Proof.
  apply query_all_keeps_data; [by intros st | apply pickle_batch_query_keeps_data].
Qed.

Lemma keeps_put_backend {B} e : keeps backend (PriorityQueue_put (B := B) e).
Proof.
  intros d. unfold PriorityQueue_put. by destruct (put_raises _ _) as [[err kept]|].
Qed.

Lemma keeps_put_code_hash_map {B} e : keeps code_hash_map (PriorityQueue_put (B := B) e).
Proof.
  intros d. unfold PriorityQueue_put. by destruct (put_raises _ _) as [[err kept]|].
Qed.

Section Init.
Context {B : Type} {impl : DatabaseImpl B}.
Hypothesis count_reads : keeps (database (B := B)) count.
Hypothesis query_all_reads : keeps (database (B := B)) query_all.

Lemma init_best_cache_keeps_backend : keeps backend (init_best_cache (B := B)).
Proof.
  unfold init_best_cache.
  apply keeps_bind; [by apply keeps_lift_backend|]. intros n.
  destruct (n =? 0)%Z; [apply keeps_ret|].
  apply keeps_bind; [by apply keeps_lift_backend|]. intros rs.
  apply keeps_for_each. intros r.
  destruct (not_duplicated r); [|apply keeps_ret].
  apply keeps_bind; [by intros x|]. intros t. apply keeps_put_backend.
Qed.

Lemma init_code_hash_map_keeps_backend : keeps backend (init_code_hash_map (B := B)).
Proof.
  unfold init_code_hash_map.
  apply keeps_bind; [by apply keeps_lift_backend|]. intros n.
  destruct (n =? 0)%Z; [apply keeps_ret|].
  apply keeps_bind; [by apply keeps_lift_backend|]. intros rs.
  apply keeps_for_each. intros r.
  destruct (code_hash r); [|apply keeps_ret].
  destruct (not_duplicated r); [|apply keeps_ret].
  destruct (point r); [by intros x|apply keeps_raise].
Qed.

End Init.

Lemma init_best_cache_keeps_code_hash_map {B} {impl : DatabaseImpl B} :
  keeps code_hash_map (init_best_cache (B := B)).
Proof.
  unfold init_best_cache.
  apply keeps_bind; [apply keeps_lift_code_hash_map|]. intros n.
  destruct (n =? 0)%Z; [apply keeps_ret|].
  apply keeps_bind; [apply keeps_lift_code_hash_map|]. intros rs.
  apply keeps_for_each. intros r.
  destruct (not_duplicated r); [|apply keeps_ret].
  apply keeps_bind; [by intros x|]. intros t. apply keeps_put_code_hash_map.
Qed.

Lemma init_code_hash_map_keeps_best_cache {B} {impl : DatabaseImpl B} :
  keeps best_cache (init_code_hash_map (B := B)).
Proof.
  unfold init_code_hash_map.
  apply keeps_bind; [apply keeps_lift_best_cache|]. intros n.
  destruct (n =? 0)%Z; [apply keeps_ret|].
  apply keeps_bind; [apply keeps_lift_best_cache|]. intros rs.
  apply keeps_for_each. intros r.
  destruct (code_hash r); [|apply keeps_ret].
  destruct (not_duplicated r); [|apply keeps_ret].
  destruct (point r); [by intros x|apply keeps_raise].
Qed.

(** X1: whatever their outcome, neither [init_best_cache] nor
    [init_code_hash_map] writes to the backend of either adapter;
    [init_best_cache] leaves the code-hash index as it was, and
    [init_code_hash_map] the best cache. *)
Theorem rebuilding_only_reads :
  keeps backend (init_best_cache (B := Redis))
  /\ keeps backend (init_code_hash_map (B := Redis))
  /\ keeps backend (init_best_cache (B := PickleDB))
  /\ keeps backend (init_code_hash_map (B := PickleDB))
  /\ (forall (B : Type) (impl : DatabaseImpl B),
         keeps code_hash_map (init_best_cache (B := B))
         /\ keeps best_cache (init_code_hash_map (B := B))).
Proof.
  split; [|split; [|split; [|split]]].
  - apply init_best_cache_keeps_backend;
      [apply redis_count_keeps_data | apply redis_query_all_keeps_data].
  - apply init_code_hash_map_keeps_backend;
      [apply redis_count_keeps_data | apply redis_query_all_keeps_data].
  - apply init_best_cache_keeps_backend;
      [by intros st | apply pickle_query_all_keeps_data].
  - apply init_code_hash_map_keeps_backend;
      [by intros st | apply pickle_query_all_keeps_data].
  - intros B impl. split.
    + apply init_best_cache_keeps_code_hash_map.
    + apply init_code_hash_map_keeps_best_cache.
Qed.

End Frames.

(** ** Writing and reading back *)

Section Writes.
Context {env : Env}.

Lemma pickle_lift_query key (d : Database PickleDB) :
  lift (query key) d = Ret (pickle_lookup (store d) key) d.
Proof. by apply lift_run. Qed.

Lemma pickle_query_all_no_bool (st : Store PickleDB) :
  exists vs, query_all st = Ret vs st /\ Forall (fun v => isinstance_bool v = false) vs.
Proof.
  eexists. split; [apply pickle_query_all_run|].
  apply Forall_forall. intros v Hin.
  apply list_elem_of_omap in Hin as (o & Hin & Ho). simpl in Ho. subst o.
  apply list_elem_of_fmap in Hin as (k & Hk & _).
  unfold pickle_lookup, PickleDatabase.none_if_bool in Hk.
  destruct (isinstance_bool (default _ _)) eqn:Hb; [done|].
  injection Hk as ->. done.
Qed.

(** X2: the Pickle adapter stores a committed boolean, but [query] answers
    [None] for it, as it does for a key that was never written, and
    [query_all] never returns a boolean. *)
Theorem pickle_boolean_reads_as_None key b (d : Database PickleDB) :
  exists d',
    commit key (PyBool b) d = Ret tt d'
    /\ dict_get key (pickle_db (backend d')) = Some (PyBool b)
    /\ lift (query key) d' = Ret None d'
    /\ lift (batch_query [key]) d' = Ret [None] d'
    /\ exists vs, lift query_all d' = Ret vs d'
                  /\ Forall (fun v => isinstance_bool v = false) vs.
Proof.
  pose proof (commit_skip (impl := PickleDatabase.impl) key (PyBool b) d _
                (pickle_commit_impl_run key (PyBool b) (store d)) eq_refl) as Hc.
  eexists. split; [exact Hc|].
  assert (Hget : dict_get key (dict_set key (PyBool b) (pickle_db (database (store d))))
                 = Some (PyBool b)) by apply dict_get_set_eq.
  split; [exact Hget|].
  split; [|split].
  - rewrite pickle_lift_query. unfold pickle_lookup. cbn [with_store store database pickle_db].
    by rewrite Hget.
  - apply lift_run. cbn [batch_query PickleDatabase.impl].
    rewrite pickle_batch_query_run. unfold pickle_lookup.
    cbn [with_store store database pickle_db map]. by rewrite Hget.
  - match goal with |- context [lift query_all ?x] =>
      destruct (pickle_query_all_no_bool (store x)) as (vs & Hvs & Hnb) end.
    exists vs. split; [by apply lift_run|done].
Qed.

(** X3: committing a second result under the same key makes [query] answer
    the second, while the best cache keeps the entries of both. *)
Theorem overwritten_result_stays_in_best_cache key r1 r2 (d : Database PickleDB) :
  put_never_raises ->
  is_Result r1 = true -> ret_code r1 ≠ DUPLICATED ->
  is_Result r2 = true -> ret_code r2 ≠ DUPLICATED ->
  exists d',
    (commit key (PyInst r1) ;;; commit key (PyInst r2)) d = Ret tt d'
    /\ lift (query key) d' = Ret (Some (PyInst r2)) d'
    /\ best_cache d'
       = best_cache d ++ [(quality r1, time (ticks d), r1);
                          (quality r2, time (S (ticks d)), r2)]
    /\ dict_keys (pickle_db (backend d'))
       = dict_keys (dict_set key (PyInst r1) (pickle_db (backend d))).
Proof.
  intros Hput HR1 Hnd1 HR2 Hnd2.
  assert (Hc : forall r, is_Result r = true -> ret_code r ≠ DUPLICATED ->
                         omap best_candidate [PyInst r] = [r]).
  { intros r HR Hnd. cbn. rewrite HR. unfold not_duplicated.
    by rewrite (bool_decide_eq_true_2 _ Hnd). }
  unfold bind.
  rewrite (commit_accepted (impl := PickleDatabase.impl) key (PyInst r1) d _ Hput
             (pickle_commit_impl_run key (PyInst r1) (store d))).
  rewrite (Hc r1 HR1 Hnd1).
  match goal with |- context [commit key (PyInst r2) ?x] =>
    rewrite (commit_accepted (impl := PickleDatabase.impl) key (PyInst r2) x _ Hput
               (pickle_commit_impl_run key (PyInst r2) (store x))) end.
  rewrite (Hc r2 HR2 Hnd2).
  eexists. split; [reflexivity|].
  split; [|split].
  - rewrite pickle_lift_query. unfold pickle_lookup.
    cbn [pushed store database pickle_db]. by rewrite dict_get_set_eq.
  - cbn [pushed best_cache ticks stamped length]. rewrite <- app_assoc.
    by rewrite Nat.add_1_r.
  - unfold backend. cbn [pushed store database pickle_db].
    apply dict_keys_set_known. apply dict_keys_set_elem. by left.
Qed.

Lemma redis_lift_query key (d : Database Redis) :
  lift (query key) d
  = match unpickled (redis_hash (backend d) !! key) with
    | inr r => Ret r (with_store
                        (add_log (unpickle_log key (redis_hash (backend d) !! key))
                                 (store d)) d)
    | inl e => Raise e d
    end.
Proof.
  unfold lift, backend. cbn [query RedisDatabase.impl].
  rewrite redis_query_run. cbv zeta.
  destruct (unpickled _); [|done]. by rewrite with_store_store.
Qed.

(** X4: a commit under one key does not change what [query] answers for
    another key, with either adapter. *)
Theorem commit_leaves_other_keys key key' v :
  key ≠ key' ->
  (forall d d' : Database PickleDB,
      commit key v d = Ret tt d' ->
      exists a, lift (query key') d = Ret a d /\ lift (query key') d' = Ret a d')
  /\ (forall d d' : Database Redis,
         commit key v d = Ret tt d' ->
         (forall a d1, lift (query key') d = Ret a d1 ->
                       exists d2, lift (query key') d' = Ret a d2)
         /\ (forall e d1, lift (query key') d = Raise e d1 ->
                          exists d2, lift (query key') d' = Raise e d2)).
Proof.
  intros Hne. split.
  - intros d d' Hrun.
    rewrite (commit_returns (impl := PickleDatabase.impl) key v d _ d'
               (pickle_commit_impl_run key v (store d)) Hrun).
    eexists. split; [apply pickle_lift_query|].
    rewrite pickle_lift_query. unfold pickle_lookup.
    cbn [pushed store database pickle_db]. by rewrite dict_get_set_ne.
  - intros d d' Hrun.
    destruct (redis_commit_impl_run key v (store d)) as [file Himpl].
    rewrite (commit_returns (impl := RedisDatabase.impl) key v d _ d' Himpl Hrun).
    rewrite !redis_lift_query. unfold backend at 3 4 7 8.
    cbn [pushed store database redis_hash]. rewrite lookup_insert_ne by done.
    fold (backend d).
    destruct (unpickled (redis_hash (backend d) !! key')) as [e|r];
      split; intros ? ? [= <- <-] || intros ? ? [=]; eauto.
Qed.

End Writes.

(** ** Keys, counts and batches *)

Section Batches.
Context {env : Env}.

(** X5: a commit under a new key adds the key to [query_keys] and raises
    [count] by one; a commit under a key that is already there changes
    neither.  The Pickle adapter lists the new key last; the Redis adapter
    lists the same keys in the order in which Redis lists the hash. *)
Theorem commit_appends_new_key key v :
  (forall d d' : Database PickleDB,
      commit key v d = Ret tt d' ->
      exists keys,
        lift query_keys d = Ret keys d
        /\ lift query_keys d'
           = Ret (if decide (key ∈ keys) then keys else keys ++ [key]) d'
        /\ lift count d'
           = Ret (if decide (key ∈ keys) then len keys else len keys + 1)%Z d')
  /\ (forall d d' : Database Redis,
         commit key v d = Ret tt d' ->
         exists keys keys',
           lift query_keys d = Ret keys d
           /\ lift query_keys d' = Ret keys' d'
           /\ keys' ≡ₚ (if decide (key ∈ keys) then keys else keys ++ [key])
           /\ lift count d'
              = Ret (if decide (key ∈ keys) then len keys else len keys + 1)%Z d').
Proof.
  assert (Hlen : forall V (db : dict V) (x : V),
             len (dict_set key x db)
             = (if decide (key ∈ dict_keys db) then len (dict_keys db)
                else len (dict_keys db) + 1)%Z).
  { intros V db x. unfold len.
    rewrite <- (length_map fst (dict_set key x db)).
    change (map fst (dict_set key x db)) with (dict_keys (dict_set key x db)).
    rewrite dict_keys_set. case_decide; [done|]. rewrite length_app. simpl. lia. }
  split.
  - intros d d' Hrun.
    rewrite (commit_returns (impl := PickleDatabase.impl) key v d _ d'
               (pickle_commit_impl_run key v (store d)) Hrun).
    exists (dict_keys (pickle_db (backend d))).
    split; [by apply lift_run|]. split.
    + apply lift_run. cbn [query_keys PickleDatabase.impl].
      unfold PickleDatabase.query_keys, PickleDatabase.getall, gets.
      cbn [pushed store database pickle_db]. unfold backend. by rewrite dict_keys_set.
    + apply lift_run. cbn [count PickleDatabase.impl].
      unfold PickleDatabase.count, PickleDatabase.totalkeys, gets.
      cbn [pushed store database pickle_db]. unfold backend. by rewrite Hlen.
  - intros d d' Hrun.
    destruct (redis_commit_impl_run key v (store d)) as [file Himpl].
    rewrite (commit_returns (impl := RedisDatabase.impl) key v d _ d' Himpl Hrun).
    set (h := redis_hash (backend d)).
    assert (Hperm : hash_order (<[key := pickle_dumps v]> h)
                    ≡ₚ (if decide (key ∈ hash_order h) then hash_order h
                        else hash_order h ++ [key])).
    { apply hash_order_Permutation.
      - case_decide as Hin; [apply hash_order_NoDup|].
        apply NoDup_app. split; [apply hash_order_NoDup|]. split; [|apply NoDup_singleton].
        intros k Hk ->%list_elem_of_singleton. done.
      - intros k. rewrite lookup_insert_is_Some'.
        case_decide as Hin.
        + rewrite elem_of_hash_order. apply elem_of_hash_order in Hin.
          split; [by right|]. by intros [<-|?].
        + rewrite elem_of_app, list_elem_of_singleton, elem_of_hash_order.
          split; intros [?|?]; auto. }
    exists (hash_order h), (hash_order (<[key := pickle_dumps v]> h)).
    split; [by apply lift_run|]. split; [by apply lift_run|]. split; [exact Hperm|].
    apply lift_run. rewrite redis_count_run.
    cbn [pushed store database redis_hash]. fold (backend d). fold h.
    f_equal. unfold len. rewrite (Permutation_length Hperm).
    case_decide; [done|]. rewrite length_app. simpl. lia.
Qed.

(** One commit after the other with the Pickle adapter. *)
Lemma pickle_commits_run pairs : forall d : Database PickleDB,
  put_never_raises ->
  commits pairs d
  = Ret tt (pushed (omap best_candidate (map snd pairs))
                   (mkStore (mkPickleDB (dict_update (pickle_db (backend d)) pairs)
                                        (pickle_file (backend d)))
                            (log (store d)) (stdout (store d)))
                   d).
Proof.
  induction pairs as [|[k v] pairs IH]; intros d Hput.
  - cbn. unfold ret. rewrite pushed_nil. by destruct d as [[[] ? ?] ? ? ?].
  - unfold commits. cbn [for_each fst snd]. unfold bind at 1.
    rewrite (commit_accepted (impl := PickleDatabase.impl) k v d _ Hput
               (pickle_commit_impl_run k v (store d))).
    fold (commits (B := PickleDB) pairs). rewrite IH by done.
    rewrite pushed_pushed. unfold backend. cbn [pushed store database pickle_db pickle_file log stdout].
    change (map snd ((k, v) :: pairs)) with ([v] ++ map snd pairs).
    by rewrite omap_app.
Qed.

(** X6: as long as [put] does not raise, [batch_commit] with the Pickle
    adapter does what committing the pairs one after the other does. *)
Theorem pickle_batch_commit_is_commits pairs (d : Database PickleDB) :
  put_never_raises ->
  batch_commit pairs d = commits pairs d.
Proof.
  intros Hput. rewrite pickle_commits_run by done.
  by rewrite (batch_commit_accepted (impl := PickleDatabase.impl) pairs d _ Hput
                (pickle_batch_commit_impl_run pairs (store d))).
Qed.

(** X7: when a batch holds several pairs for one key, the Pickle adapter
    keeps the value of the last of them. *)
Theorem pickle_batch_keeps_last_value pairs1 key v pairs2 (d d' : Database PickleDB) :
  key ∉ map fst pairs2 ->
  isinstance_bool v = false ->
  batch_commit (pairs1 ++ (key, v) :: pairs2) d = Ret tt d' ->
  lift (query key) d' = Ret (Some v) d'.
Proof.
  intros Hlast Hv Hrun.
  rewrite (batch_commit_returns (impl := PickleDatabase.impl) _ d _ d'
             (pickle_batch_commit_impl_run _ (store d)) Hrun).
  rewrite pickle_lift_query. unfold pickle_lookup.
  cbn [pushed store database pickle_db].
  rewrite dict_get_update_last by done. cbn.
  unfold PickleDatabase.none_if_bool. by rewrite Hv.
Qed.

Lemma remove_dups_shorter (l : list string) :
  ~ NoDup l -> (length (remove_dups l) < length l)%nat.
Proof.
  induction l as [|x l IH]; intros Hdup.
  - destruct Hdup. constructor.
  - assert (Hle : (length (remove_dups l) <= length l)%nat).
    { clear. induction l as [|y l IH]; simpl; [done|]. case_decide; simpl; lia. }
    simpl. case_decide as Hin; simpl; [lia|].
    assert (~ NoDup l) as Hl by (intros Hnd; apply Hdup; by constructor).
    specialize (IH Hl). lia.
Qed.

Lemma redis_batch_commit_impl_file pairs (st : Store Redis) :
  pairs <> [] ->
  let data := dict_of_pairs (map (fun kv => (fst kv, pickle_dumps (snd kv))) pairs) in
  let h := hash_update (redis_hash (database st)) data in
  RedisDatabase.batch_commit_impl pairs st
  = Ret (len data)
        (mkStore (mkRedis h (Some (pickle_dump_file (dumped (listed h)))))
                 (log st) (stdout st)).
Proof.
  intros Hne data h.
  assert (Hdata : data <> []) by (by apply dict_of_pairs_nonempty; destruct pairs).
  unfold RedisDatabase.batch_commit_impl, bind at 1. fold data.
  unfold RedisDatabase.hmset. subst h. destruct data as [|kv data']; [done|].
  unfold modify. unfold bind at 1. rewrite redis_persist_file. reflexivity.
Qed.

(** X8: with the Redis adapter, [batch_commit] of pairs that repeat a key
    leaves through [sys.exit(1)], after every pair has been set in the
    hash, the last value staying for a repeated key, and the whole hash
    has been dumped to the file; the best cache is not fed. *)
Theorem redis_batch_commit_repeated_key pairs (d : Database Redis) :
  ~ NoDup (map fst pairs) ->
  exists d',
    batch_commit pairs d = SysExit 1 d'
    /\ redis_hash (backend d')
       = hash_update (redis_hash (backend d))
                     (dict_of_pairs (map (fun kv => (fst kv, pickle_dumps (snd kv))) pairs))
    /\ (forall pairs1 key v pairs2,
           pairs = (pairs1 ++ (key, v) :: pairs2)%list ->
           key ∉ map fst pairs2 ->
           redis_hash (backend d') !! key = Some (pickle_dumps v))
    /\ redis_file (backend d')
       = Some (pickle_dump_file (dumped (listed (redis_hash (backend d')))))
    /\ best_cache d' = best_cache d
    /\ log (store d')
       = log (store d) ++ [(ERROR, "Failed to commit results to the database")]
    /\ stdout (store d') = stdout (store d) ++ ["Error: Database connection error"].
Proof.
  intros Hdup.
  assert (Hne : pairs <> []) by (intros ->; apply Hdup; constructor).
  pose proof (redis_batch_commit_impl_file pairs (store d) Hne) as Himpl.
  cbv zeta in Himpl.
  eexists. split.
  - eapply (batch_commit_rejected (impl := RedisDatabase.impl)); [exact Himpl|].
    assert (Hkeys : map fst (map (fun kv : string * pyval =>
                                    (fst kv, pickle_dumps (snd kv))) pairs)
                    = map fst pairs).
    { rewrite map_map. by apply map_ext. }
    unfold len. rewrite dict_of_pairs_length, Hkeys.
    apply remove_dups_shorter in Hdup. rewrite length_map in Hdup. lia.
  - unfold backend. cbn [with_store store database redis_hash redis_file log stdout].
    split; [done|]. split; [|done].
    intros pairs1 key v pairs2 -> Hlast. by apply redis_batch_stores_last.
Qed.

End Batches.

(** ** Persisting and loading with the Pickle adapter *)

Section PicklePersist.
Context {env : Env}.

Lemma for_each_app {S A} (l1 l2 : list A) (body : A -> M S unit) (s : S) :
  for_each (l1 ++ l2) body s = (for_each l1 body ;;; for_each l2 body) s.
Proof.
  revert s. induction l1 as [|x l1 IH]; intros s; [done|].
  cbn [for_each app]. unfold bind in *.
  destruct (body x s) as [[] s'|c s'|e s']; [|done..].
  apply IH.
Qed.

Lemma pickle_rebuild_keeps_backend :
  keeps backend (init_best_cache (B := PickleDB) ;;; init_code_hash_map).
Proof.
  apply keeps_bind; [|intros _];
    [apply init_best_cache_keeps_backend | apply init_code_hash_map_keeps_backend];
    first [by intros st | apply pickle_query_all_keeps_data].
Qed.

Lemma redis_rebuild_keeps_backend :
  keeps backend (init_best_cache (B := Redis) ;;; init_code_hash_map).
Proof.
  apply keeps_bind; [|intros _];
    [apply init_best_cache_keeps_backend | apply init_code_hash_map_keeps_backend];
    first [apply redis_count_keeps_data | apply redis_query_all_keeps_data].
Qed.

(** The loop of [persist], key by key. *)
Lemma pickle_encode_loop (todo : dict pyval) : forall (seen : dict pyval) file lg out,
  NoDup (dict_keys seen ++ dict_keys todo) ->
  for_each (dict_keys todo)
    (fun key =>
       value <- PickleDatabase.get key ;;
       let pickled_obj := jsonpickle_encode value in
       PickleDatabase.set key (PyStr pickled_obj))
    (mkStore (mkPickleDB (seen ++ todo) file) lg out)
  = Ret tt (mkStore (mkPickleDB (seen ++ encoded todo) file) lg out).
Proof.
  induction todo as [|[k v] todo IH]; intros seen file lg out Hnd; [done|].
  assert (Hk : k ∉ dict_keys seen).
  { apply NoDup_app in Hnd as (_ & Hdis & _). intros Hin.
    apply (Hdis k Hin). left. }
  cbn [dict_keys map fst for_each encoded].
  unfold bind at 1 2, PickleDatabase.get at 1, gets. cbn [database pickle_db].
  rewrite dict_get_app_fresh by done. cbn [dict_get]. rewrite String.eqb_refl.
  unfold default, from_option, id. cbn [fst snd].
  unfold PickleDatabase.set at 1, modify, set_database.
  cbn [database log stdout pickle_db pickle_file].
  rewrite dict_set_app_fresh by done.
  replace (seen ++ (k, PyStr (jsonpickle_encode v)) :: todo)
    with ((seen ++ [(k, PyStr (jsonpickle_encode v))]) ++ todo)
    by (by rewrite <- app_assoc).
  replace (seen ++ (k, PyStr (jsonpickle_encode v))
                :: map (fun kv : string * pyval =>
                          (fst kv, PyStr (jsonpickle_encode (snd kv)))) todo)
    with ((seen ++ [(k, PyStr (jsonpickle_encode v))]) ++ encoded todo)
    by (by rewrite <- app_assoc).
  apply IH. unfold dict_keys in *. rewrite map_app, <- app_assoc. exact Hnd.
Qed.

Lemma pickle_persist_run (st : Store PickleDB) :
  NoDup (dict_keys (pickle_db (database st))) ->
  persist st
  = Ret true (mkStore (mkPickleDB (encoded (pickle_db (database st)))
                                  (Some (encoded (pickle_db (database st)))))
                      (log st) (stdout st)).
Proof.
  intros Hnd. destruct st as [[db file] lg out]. cbn [database pickle_db log stdout] in *.
  cbn [persist PickleDatabase.impl].
  unfold PickleDatabase.persist, bind at 1, PickleDatabase.getall, gets.
  cbn [database pickle_db]. unfold bind at 1.
  pose proof (pickle_encode_loop db [] file lg out Hnd) as Hloop.
  cbn [app] in Hloop. rewrite Hloop. reflexivity.
Qed.

Lemma encoded_keys (db : dict pyval) : dict_keys (encoded db) = dict_keys db.
Proof. unfold dict_keys, encoded. rewrite map_map. by apply map_ext. Qed.

Lemma dict_get_encoded (db : dict pyval) k :
  dict_get k (encoded db) = (fun v => PyStr (jsonpickle_encode v)) <$> dict_get k db.
Proof.
  induction db as [|[k' v'] db IH]; [done|].
  cbn. destruct (String.eqb k k'); [done|exact IH].
Qed.

(** X9: [PickleDatabase.persist] answers [True], keeps the keys and dumps
    the dictionary, but it leaves every value in memory replaced by its
    jsonpickle encoding: afterwards [query] answers the encoding of what
    was stored, not the stored object. *)
Theorem pickle_persist_encodes_in_place (st : Store PickleDB) :
  NoDup (dict_keys (pickle_db (database st))) ->
  exists st',
    persist st = Ret true st'
    /\ query_keys st' = Ret (dict_keys (pickle_db (database st))) st'
    /\ pickle_file (database st') = Some (pickle_db (database st'))
    /\ forall k v,
         dict_get k (pickle_db (database st)) = Some v ->
         query k st' = Ret (Some (PyStr (jsonpickle_encode v))) st'.
Proof.
  intros Hnd. eexists. split; [by apply pickle_persist_run|].
  split; [|split; [done|]].
  - cbn [query_keys PickleDatabase.impl].
    unfold PickleDatabase.query_keys, PickleDatabase.getall, gets.
    cbn [database pickle_db]. by rewrite encoded_keys.
  - intros k v Hget. cbn [query PickleDatabase.impl].
    rewrite pickle_query_run. unfold pickle_lookup. cbn [database pickle_db].
    by rewrite dict_get_encoded, Hget.
Qed.

Lemma encoded_decoded kvs : encoded (decoded kvs) = persisted kvs.
Proof. unfold encoded, decoded, persisted. rewrite map_map. by apply map_ext. Qed.

(** X10: what [persist] has dumped, [load] on a new object reads back: the
    dictionary holds the results again, provided jsonpickle decodes what
    it encoded and [put] does not raise. *)
Theorem pickle_persist_then_load kvs file lg out :
  put_never_raises ->
  NoDup (map fst kvs) ->
  Forall (fun kr => jsonpickle_decode (PyStr (jsonpickle_encode (PyInst (snd kr))))
                    = inr (PyInst (snd kr))) kvs ->
  Forall (fun kr => is_MerlinResult (snd kr) = true -> is_Some (code_hash (snd kr)) ->
                    ret_code (snd kr) ≠ DUPLICATED -> is_Some (point (snd kr))) kvs ->
  exists st' d',
    persist (mkStore (mkPickleDB (decoded kvs) file) lg out) = Ret true st'
    /\ pickle_file (database st') = Some (persisted kvs)
    /\ PickleDatabase.load (fresh (mkPickleDB (persisted kvs) (pickle_file (database st'))))
       = Ret tt d'
    /\ pickle_db (backend d') = decoded kvs.
Proof.
  intros Hput Hnd Hround Hpts.
  eexists. 
  destruct (pickle_load_run kvs (Some (persisted kvs)) Hput Hnd Hround Hpts) as [st Hload].
  eexists. split.
  { apply pickle_persist_run. cbn [database pickle_db]. by rewrite decoded_keys. }
  cbn [database pickle_file pickle_db]. rewrite encoded_decoded.
  split; [done|]. split; [exact Hload|].
  pose proof (f_equal final_state Hload) as Hfinal. cbn [final_state] in Hfinal.
  rewrite <- Hfinal, (pickle_load_decodes kvs _ Hnd Hround).
  by rewrite pickle_rebuild_keeps_backend.
Qed.

End PicklePersist.

(** ** When [load] fails *)

Section LoadFailures.
Context {env : Env}.

(** The decoding loop of [PickleDatabase.load] over a prefix of the
    dictionary. *)
Lemma pickle_decode_prefix (todo : list (string * instance)) :
  forall (seen rest : dict pyval) file lg out,
    NoDup (dict_keys seen ++ map fst todo) ->
    Forall (fun kr => jsonpickle_decode (PyStr (jsonpickle_encode (PyInst (snd kr))))
                      = inr (PyInst (snd kr))) todo ->
    for_each (map fst todo)
      (fun key =>
         value <- PickleDatabase.get key ;;
         obj <- call (jsonpickle_decode value) ;;
         PickleDatabase.set key obj)
      (mkStore (mkPickleDB (seen ++ persisted todo ++ rest) file) lg out)
    = Ret tt (mkStore (mkPickleDB (seen ++ decoded todo ++ rest) file) lg out).
Proof.
  induction todo as [|[k r] todo IH]; intros seen rest file lg out Hnd Hround; [done|].
  apply Forall_cons in Hround as [Hr Hround]. cbn [snd] in Hr.
  assert (Hk : k ∉ dict_keys seen).
  { apply NoDup_app in Hnd as (_ & Hdis & _). intros Hin.
    apply (Hdis k Hin). left. }
  cbn [map fst for_each persisted decoded app].
  unfold bind at 1 2, PickleDatabase.get at 1, gets. cbn [database pickle_db].
  change (map (fun kr : string * instance =>
                 (fst kr, PyStr (jsonpickle_encode (PyInst (snd kr))))) todo)
    with (persisted todo).
  rewrite dict_get_app_fresh by done. cbn [dict_get]. rewrite String.eqb_refl.
  unfold default, from_option, id. cbn [fst snd]. rewrite Hr. unfold call, ret, bind at 1 2.
  unfold PickleDatabase.set at 1, modify, set_database. cbn [database log stdout pickle_db pickle_file].
  rewrite dict_set_app_fresh by done.
  change (map (fun kr : string * instance => (fst kr, PyInst (snd kr))) todo)
    with (decoded todo).
  replace (seen ++ (k, PyInst r) :: persisted todo ++ rest)
    with ((seen ++ [(k, PyInst r)]) ++ persisted todo ++ rest) by (by rewrite <- app_assoc).
  replace (seen ++ (k, PyInst r) :: decoded todo ++ rest)
    with ((seen ++ [(k, PyInst r)]) ++ decoded todo ++ rest) by (by rewrite <- app_assoc).
  apply IH; [|done].
  unfold dict_keys in *. rewrite map_app, <- app_assoc. exact Hnd.
Qed.

(** X11: [PickleDatabase.load] stops at the first value that jsonpickle
    cannot decode.  On a [ValueError] it prints the message and leaves
    through [sys.exit(1)]; any other exception escapes.  Either way the
    values before the bad one stay decoded in the dictionary, nothing is
    logged, and neither index is rebuilt. *)
Theorem pickle_load_stops_at_bad_value kvs k bad (rest : dict pyval) file e :
  NoDup (map fst kvs ++ k :: dict_keys rest) ->
  Forall (fun kr => jsonpickle_decode (PyStr (jsonpickle_encode (PyInst (snd kr))))
                    = inr (PyInst (snd kr))) kvs ->
  jsonpickle_decode bad = inl e ->
  let left_behind out :=
    mkDatabase (mkStore (mkPickleDB (decoded kvs ++ (k, bad) :: rest) file) [] out)
               [] ∅ 0%nat in
  PickleDatabase.load (fresh (mkPickleDB (persisted kvs ++ (k, bad) :: rest) file))
  = match e with
    | ValueError msg =>
        SysExit 1 (left_behind ["Failed to load the data from the database: " ++ msg]%string)
    | _ => Raise e (left_behind [])
    end.
Proof.
  intros Hnd Hround Hbad left_behind.
  assert (Hnd1 : NoDup (dict_keys (@nil (string * pyval)) ++ map fst kvs)).
  { cbn [dict_keys map app]. by apply NoDup_app in Hnd as (? & _ & _). }
  assert (Hk : k ∉ dict_keys (decoded kvs)).
  { rewrite decoded_keys. apply NoDup_app in Hnd as (_ & Hdis & _).
    intros Hin. apply (Hdis k Hin). left. }
  unfold PickleDatabase.load, bind at 1, lift at 1, try_except_ValueError.
  unfold bind at 1, PickleDatabase.getall at 1, gets.
  cbn [fresh store database pickle_db].
  unfold dict_keys at 1. rewrite map_app. fold (dict_keys (persisted kvs)).
  rewrite persisted_keys. cbn [map fst].
  unfold bind at 1. rewrite for_each_app. unfold bind at 1.
  pose proof (pickle_decode_prefix kvs [] ((k, bad) :: rest) file [] [] Hnd1 Hround)
    as Hloop.
  cbn [app] in Hloop. rewrite Hloop.
  cbn [for_each]. unfold bind at 1 2, PickleDatabase.get at 1, gets.
  cbn [database pickle_db].
  rewrite dict_get_app_fresh by done. cbn [dict_get]. rewrite String.eqb_refl.
  unfold default, from_option, id. rewrite Hbad. unfold call, raise, bind at 1.
  destruct e; try reflexivity.
Qed.

(** X12: when the dump file exists but [pickle.load] fails on it,
    [RedisDatabase.load] prints the message and exits with status 1 on a
    [ValueError], and lets any other exception escape; the Redis hash and
    both indices are as they were. *)
Theorem redis_load_unreadable_file (d : Database Redis) content e :
  redis_file (backend d) = Some content ->
  pickle_load_file content = inl e ->
  RedisDatabase.load d
  = match e with
    | ValueError msg =>
        SysExit 1
          (with_store
             (mkStore (backend d) (log (store d))
                (stdout (store d) ++ ["Failed to initialize the database: " ++ msg]%string))
             d)
    | _ => Raise e (with_store (store d) d)
    end.
Proof.
  intros Hfile Hload. unfold backend in *.
  unfold RedisDatabase.load, bind at 1 2, lift at 1, gets. cbn [with_store store].
  rewrite Hfile. unfold bind at 1, lift at 1, try_except_ValueError.
  cbn [store]. rewrite Hload. unfold call, raise.
  destruct e; try reflexivity.
Qed.

End LoadFailures.

(** ** The Redis dump file *)

Section RedisFile.
Context {env : Env}.

Lemma redis_commit_impl_file key v (st : Store Redis) :
  let h := <[key := pickle_dumps v]> (redis_hash (database st)) in
  RedisDatabase.commit_impl key v st
  = Ret true (mkStore (mkRedis h (Some (pickle_dump_file (dumped (listed h)))))
                      (log st) (stdout st)).
Proof.
  intros h.
  unfold RedisDatabase.commit_impl, bind at 1, RedisDatabase.hset, modify.
  unfold bind at 1. rewrite redis_persist_file. reflexivity.
Qed.

(** X13: a Redis commit is durable.  Each commit dumps the whole hash to
    the file, so when the object is deleted, which removes its hash from
    Redis, [load] on a new object over the same file brings the hash
    back, whatever becomes of the index rebuilding, and [query] answers
    the committed value again.  The file is assumed to read back as the
    dictionary that was dumped. *)
Theorem redis_commit_survives_restart key v (d d' : Database Redis) :
  pickle_loads (pickle_dumps v) = inr v ->
  pickle_dumps v ≠ [] ->
  (let h := <[key := pickle_dumps v]> (redis_hash (backend d)) in
   pickle_load_file (pickle_dump_file (dumped (listed h))) = inr (listed h)) ->
  commit key v d = Ret tt d' ->
  let deleted := final_state (lift RedisDatabase.del d') in
  let restarted := final_state (RedisDatabase.load (fresh (backend deleted))) in
  redis_hash (backend deleted) = ∅
  /\ redis_file (backend deleted)
     = Some (pickle_dump_file (dumped (listed (redis_hash (backend d')))))
  /\ redis_hash (backend restarted) = redis_hash (backend d')
  /\ lift (query key) restarted = Ret (Some v) restarted.
Proof.
  intros Hround Hne Hfile Hrun deleted restarted. cbv zeta in Hfile.
  set (h := <[key := pickle_dumps v]> (redis_hash (backend d))) in *.
  pose proof (redis_commit_impl_file key v (store d)) as Himpl. cbv zeta in Himpl.
  fold (backend d) in Himpl. fold h in Himpl.
  pose proof (commit_returns (impl := RedisDatabase.impl) key v d _ d' Himpl Hrun) as Hd'.
  assert (Hback : backend d' = mkRedis h (Some (pickle_dump_file (dumped (listed h))))).
  { by rewrite Hd'. }
  assert (Hdel : backend deleted = mkRedis ∅ (Some (pickle_dump_file (dumped (listed h))))).
  { subst deleted. unfold lift, RedisDatabase.del, modify, set_database, backend in *.
    cbn [final_state with_store store database]. by rewrite Hback. }
  assert (Hlisted : listed h <> []).
  { intros Hnil.
    assert (Hin : (key, pickle_dumps v) ∈ listed h).
    { apply listed_elem. subst h. apply lookup_insert_eq. }
    rewrite Hnil in Hin. by apply elem_of_nil in Hin. }
  assert (Hres : backend restarted
                 = mkRedis h (Some (pickle_dump_file (dumped (listed h))))).
  { subst restarted. rewrite Hdel.
    rewrite (redis_load_reads_file
               (fresh (mkRedis ∅ (Some (pickle_dump_file (dumped (listed h))))))
               (pickle_dump_file (dumped (listed h))) (listed h) eq_refl Hfile Hlisted).
    rewrite redis_rebuild_keeps_backend. unfold backend.
    cbn [with_store store fresh database redis_hash].
    f_equal. apply hash_update_listed. }
  rewrite Hdel, Hres, Hback. cbn [redis_hash redis_file].
  split; [done|]. split; [done|]. split; [done|].
  rewrite redis_lift_query, Hres. cbn [redis_hash].
  subst h. rewrite lookup_insert_eq. unfold unpickled, unpickle_log.
  destruct (pickle_dumps v) as [|b bs] eqn:Hd; [done|]. cbn [truthy].
  rewrite Hround. by rewrite add_log_nil, with_store_store.
Qed.

End RedisFile.

(** ** Failures while the indices are filled *)

Section IndexFailures.
Context {env : Env}.

Lemma decoded_app kvs1 kvs2 : decoded (kvs1 ++ kvs2) = (decoded kvs1 ++ decoded kvs2)%list.
Proof. unfold decoded. by rewrite map_app. Qed.

(** X14: with assertions enabled, [init_code_hash_map] stops with an
    [AssertionError] at the first Merlin result that has a code hash, is
    not [DUPLICATED] and has no design point; the bindings of the results
    before it have been written and stay. *)
Theorem init_code_hash_map_asserts_point (d : Database PickleDB) kvs1 k r kvs2 :
  pickle_db (backend d) = decoded (kvs1 ++ (k, r) :: kvs2) ->
  NoDup (map fst (kvs1 ++ (k, r) :: kvs2)) ->
  Forall (fun kr => is_MerlinResult (snd kr) = true -> is_Some (code_hash (snd kr)) ->
                    ret_code (snd kr) ≠ DUPLICATED -> is_Some (point (snd kr))) kvs1 ->
  is_MerlinResult r = true ->
  is_Some (code_hash r) ->
  ret_code r ≠ DUPLICATED ->
  point r = None ->
  init_code_hash_map d
  = Raise AssertionError
      (mkDatabase (store d) (best_cache d)
         (write_bindings (code_hash_map d)
            (omap hash_binding
               (omap as_MerlinResult (map (fun kr => PyInst (snd kr)) kvs1))))
         (ticks d)).
Proof.
  intros Hdb Hnd Hpts HM [h Hh] Hdup Hpoint. unfold backend in Hdb.
  unfold init_code_hash_map, bind at 1, lift at 1.
  rewrite (pickle_count_decoded _ _ Hdb).
  destruct (len _ =? 0)%Z eqn:Hn.
  { apply len_zero in Hn. by destruct kvs1. }
  unfold bind at 1, lift at 1. cbn [store with_store].
  rewrite (pickle_query_all_decoded _ _ Hdb Hnd).
  rewrite map_app, omap_app. cbn [map snd omap list_omap as_MerlinResult].
  rewrite HM. rewrite for_each_app. unfold bind at 1.
  rewrite code_hash_loop_run.
  - cbn [for_each]. unfold bind at 1. rewrite Hh, Hpoint.
    unfold not_duplicated. rewrite bool_decide_eq_true_2 by done.
    unfold raise. by destruct d.
  - apply Forall_forall. intros r' Hin.
    apply as_MerlinResult_elem in Hin as [Hin HM'].
    apply list_elem_of_fmap in Hin as ([k' r''] & [= ->] & Hin).
    rewrite Forall_forall in Hpts. apply (Hpts _ Hin HM').
Qed.

(** X15: [commit] is not atomic.  When the backend has stored the result
    and [PriorityQueue.put] then raises, [commit] logs the failure and
    raises [RuntimeError], but the result stays in the database: [query]
    answers it, while the best cache holds what the failed [put] left. *)
Theorem commit_is_not_atomic key r (d : Database PickleDB) err kept :
  is_Result r = true ->
  ret_code r ≠ DUPLICATED ->
  put_raises (best_cache d) (quality r, time (ticks d), r) = Some (err, kept) ->
  exists d',
    commit key (PyInst r) d = Raise RuntimeError d'
    /\ lift (query key) d' = Ret (Some (PyInst r)) d'
    /\ best_cache d' = kept
    /\ log (store d')
       = (log (store d)
          ++ [(ERROR, "Failed to update best cache: " ++ str_of_exn err)%string])%list
    /\ stdout (store d') = stdout (store d).
Proof.
  intros HR Hdup Hput.
  unfold commit, bind at 1, lift at 1. cbn [commit_impl PickleDatabase.impl].
  rewrite pickle_commit_impl_run. cbn [negb]. unfold bind at 1, ret at 1.
  cbn [update_best_if_Result]. rewrite HR, update_best_run.
  unfold not_duplicated. rewrite bool_decide_eq_true_2 by done.
  cbn [with_store best_cache ticks store code_hash_map]. rewrite Hput.
  eexists. split; [reflexivity|]. split; [|done].
  apply lift_run. cbn [store query PickleDatabase.impl].
  rewrite pickle_query_run. f_equal. unfold pickle_lookup, add_log.
  cbn [database pickle_db]. by rewrite dict_get_set_eq.
Qed.

(** The loop of [init_best_cache] fails only where [put] raises. *)
Lemma best_cache_loop_raises {B} (rs : list instance) : forall (d d' : Database B) e,
  for_each rs (fun result =>
    if not_duplicated result then
      t <- time_now ;;
      PriorityQueue_put (quality result, t, result)
    else ret tt) d = Raise e d' ->
  store d' = store d
  /\ code_hash_map d' = code_hash_map d
  /\ exists q entry, put_raises q entry = Some (e, best_cache d').
Proof.
  induction rs as [|r rs IH]; intros d d' e; [done|].
  cbn [for_each]. unfold bind at 1.
  destruct (not_duplicated r).
  - unfold bind at 1, time_now, PriorityQueue_put.
    cbn [best_cache store code_hash_map ticks].
    destruct (put_raises _ _) as [[err kept]|] eqn:Hput.
    + intros [= <- <-]. cbn [store code_hash_map best_cache]. eauto.
    + intros Hrun. apply IH in Hrun as (Hst & Hmap & Hq). done.
  - unfold ret at 1. apply IH.
Qed.

(** X16: unlike [update_best], [init_best_cache] neither logs nor wraps a
    failure of [PriorityQueue.put]: if it raises, the exception is the one
    that [put] raised, the log and the output are as before, and so is
    the code-hash index. *)
Theorem init_best_cache_passes_put_failure (d d' : Database PickleDB) e :
  init_best_cache d = Raise e d' ->
  store d' = store d
  /\ code_hash_map d' = code_hash_map d
  /\ exists q entry, put_raises q entry = Some (e, best_cache d').
Proof.
  unfold init_best_cache, bind at 1, lift at 1. rewrite pickle_count_run.
  destruct (_ =? 0)%Z; [done|].
  unfold bind at 1, lift at 1. cbn [store with_store].
  rewrite pickle_query_all_run. intros Hrun.
  apply best_cache_loop_raises in Hrun as (Hst & Hmap & Hq).
  by destruct d.
Qed.

End IndexFailures.

(** ** A blob that cannot be unpickled *)

Section CorruptBlob.
Context {env : Env}.

Lemma unpickled_escapes pickled_obj e :
  unpickled pickled_obj = inl e -> forall msg, e ≠ ValueError msg.
Proof.
  unfold unpickled. destruct (truthy pickled_obj) as [blob|]; [|done].
  destruct (pickle_loads blob) as [[msg'| | |cls msg']|v]; intros [= <-] msg; done.
Qed.

Lemma redis_batch_query_loop_blocked items : forall data (st : Store Redis),
  Exists (fun kb => answers (unpickled (snd kb)) = false) items ->
  exists e lines,
    RedisDatabase.batch_query_loop items data st = Raise e (add_log lines st)
    /\ forall msg, e ≠ ValueError msg.
Proof.
  induction items as [|[key blob] items IH]; intros data st Hex.
  - by apply Exists_nil in Hex.
  - rewrite redis_batch_query_step.
    destruct (unpickled blob) as [e|r] eqn:Hb.
    + exists e, []. rewrite add_log_nil. split; [done|]. by eapply unpickled_escapes.
    + apply Exists_cons in Hex as [Hhd|Hex]; [cbn [snd] in Hhd; by rewrite Hb in Hhd|].
      destruct (IH (data ++ [r])%list (add_log (unpickle_log key blob) st) Hex)
        as (e & lines & -> & He).
      exists e, (unpickle_log key blob ++ lines)%list.
      by rewrite add_log_add_log.
Qed.

Lemma redis_query_all_blocked (st : Store Redis) key blob e :
  redis_hash (database st) !! key = Some blob ->
  blob ≠ [] ->
  pickle_loads blob = inl e ->
  (forall msg, e ≠ ValueError msg) ->
  exists e' lines,
    query_all st = Raise e' (add_log lines st) /\ forall msg, e' ≠ ValueError msg.
Proof.
  intros Hget Hne Hload He.
  unfold query_all, bind at 1. cbn [query_keys batch_query RedisDatabase.impl].
  unfold RedisDatabase.query_keys, RedisDatabase.hkeys, gets.
  unfold bind at 1. rewrite redis_batch_query_unfold.
  destruct (redis_batch_query_loop_blocked
              (map (fun k => (k, redis_hash (database st) !! k))
                   (hash_order (redis_hash (database st)))) [] st)
    as (e' & lines & -> & He'); [|by eauto].
  apply Exists_exists. exists (key, Some blob). split.
  - apply list_elem_of_fmap. exists key. split; [by f_equal|].
    apply elem_of_hash_order. eauto.
  - cbn [snd]. unfold unpickled. destruct blob as [|b bs]; [done|]. cbn [truthy].
    rewrite Hload. destruct e as [msg| | |cls msg]; try done. by destruct (He msg).
Qed.

(** X17: one blob in the Redis hash on which [pickle.loads] raises
    something other than [ValueError] blocks every rebuild:
    [init_best_cache], [init_code_hash_map] and, without a dump file,
    [load] all raise an exception that is not a [ValueError], and leave
    the hash and both indices as they were. *)
Theorem redis_corrupt_blob_blocks_rebuild (d : Database Redis) key blob e :
  redis_hash (backend d) !! key = Some blob ->
  blob ≠ [] ->
  pickle_loads blob = inl e ->
  (forall msg, e ≠ ValueError msg) ->
  exists e' lines,
    let d' := with_store (add_log lines (store d)) d in
    (forall msg, e' ≠ ValueError msg)
    /\ init_best_cache d = Raise e' d'
    /\ init_code_hash_map d = Raise e' d'
    /\ (redis_file (backend d) = None -> RedisDatabase.load d = Raise e' d').
Proof.
  intros Hget Hne Hload He. unfold backend in *.
  destruct (redis_query_all_blocked (store d) key blob e Hget Hne Hload He)
    as (e' & lines & Hall & He').
  exists e', lines. cbv zeta. split; [done|].
  assert (Hcount : count (store d)
                   = Ret (len (hash_order (redis_hash (database (store d))))) (store d))
    by reflexivity.
  assert (Hn : (len (hash_order (redis_hash (database (store d)))) =? 0)%Z = false).
  { destruct (_ =? 0)%Z eqn:Hn; [|done]. apply len_zero in Hn.
    assert (Hin : key ∈ hash_order (redis_hash (database (store d))))
      by (apply elem_of_hash_order; eauto).
    rewrite Hn in Hin. by apply elem_of_nil in Hin. }
  assert (Hbest : init_best_cache d
                  = Raise e' (with_store (add_log lines (store d)) d)).
  { unfold init_best_cache, bind at 1, lift at 1. rewrite Hcount, Hn.
    unfold bind at 1, lift at 1. cbn [store with_store]. by rewrite Hall. }
  split; [exact Hbest|]. split.
  - unfold init_code_hash_map, bind at 1, lift at 1. rewrite Hcount, Hn.
    unfold bind at 1, lift at 1. cbn [store with_store]. by rewrite Hall.
  - intros Hfile.
    unfold RedisDatabase.load, bind at 1 2, lift at 1, gets. cbn [with_store store].
    rewrite Hfile. unfold ret at 1. rewrite with_store_store.
    unfold bind at 1. by rewrite Hbest.
Qed.

End CorruptBlob.


(** ** Batches with the Redis adapter *)

Section RedisBatches.
Context {env : Env}.

(** X18: with distinct keys, what [batch_commit] has stored in Redis
    [batch_query] reads back for the same keys, in the same order; the
    values are assumed to survive pickling and to have non-empty
    pickles. *)
Theorem redis_batch_commit_then_batch_query pairs (d d' : Database Redis) :
  NoDup (map fst pairs) ->
  Forall (fun kv => pickle_loads (pickle_dumps (snd kv)) = inr (snd kv)
                    /\ pickle_dumps (snd kv) ≠ []) pairs ->
  batch_commit pairs d = Ret tt d' ->
  lift (batch_query (map fst pairs)) d' = Ret (map (fun kv => Some (snd kv)) pairs) d'.
Proof.
  intros Hnd Hok Hrun.
  set (blobs := map (fun kv : string * pyval => (fst kv, pickle_dumps (snd kv))) pairs).
  assert (Hkeys : map fst blobs = map fst pairs).
  { subst blobs. rewrite map_map. by apply map_ext. }
  assert (Hdata : dict_of_pairs blobs = blobs).
  { apply dict_of_pairs_NoDup. by rewrite Hkeys. }
  apply redis_batch_commit_returns in Hrun as (file & ->).
  fold blobs. rewrite Hdata.
  apply lift_run. cbn [store pushed batch_query RedisDatabase.impl].
  rewrite redis_batch_query_unfold. cbn [database redis_hash].
  set (h' := hash_update (redis_hash (database (store d))) blobs).
  assert (Hitems : map (fun k => (k, h' !! k)) (map fst pairs)
                   = map (fun kv => (fst kv, Some (pickle_dumps (snd kv)))) pairs).
  { rewrite map_map. apply map_ext_in. intros [k v] Hin. cbn [fst snd]. f_equal.
    apply in_split in Hin as (p1 & p2 & ->).
    subst h' blobs. rewrite map_app. cbn [map fst snd].
    apply hash_update_last.
    rewrite map_app in Hnd. apply NoDup_app in Hnd as (_ & _ & Hnd).
    cbn [map fst] in Hnd. apply NoDup_cons in Hnd as [Hk _].
    rewrite map_map. exact Hk. }
  rewrite Hitems. by rewrite redis_batch_query_loop_good.
Qed.

End RedisBatches.

(** ** The further properties on the sample data *)

(** Decide a closed decidable proposition by evaluation. *)
Ltac evaluate :=
  match goal with |- ?P => apply (@bool_decide_unpack P _) end; vm_compute; exact I.

Section MoreSamples.
Local Existing Instance sample_env.

(** A second HLS result under the key of the first. *)
Lemma overwritten_result_stays_in_best_cache_witness :
  exists d' : Database PickleDB,
    (commit "PARA-1" (PyInst (hls_result point_1 5))
     ;;; commit "PARA-1" (PyInst (hls_result point_1 3))) (fresh empty_pickle) = Ret tt d'
    /\ lift (query "PARA-1") d' = Ret (Some (PyInst (hls_result point_1 3))) d'
    /\ best_cache d' = [(Num 5, 0%Z, hls_result point_1 5); (Num 3, 1%Z, hls_result point_1 3)].
Proof.
  destruct (overwritten_result_stays_in_best_cache "PARA-1"
              (hls_result point_1 5) (hls_result point_1 3) (fresh empty_pickle))
    as (d' & Hrun & Hquery & Hbest & _).
  - intros q e. reflexivity.
  - reflexivity.
  - discriminate.
  - reflexivity.
  - discriminate.
  - exists d'. split; [exact Hrun|]. split; [exact Hquery|exact Hbest].
Defined.

(** A commit next to a stored note. *)
Lemma commit_leaves_other_keys_witness :
  exists a (d' : Database PickleDB),
    commit "PARA-1" (PyInst (hls_result point_1 5))
           (fresh (mkPickleDB [("PARA-2", PyStr "note")] None)) = Ret tt d'
    /\ lift (query "PARA-2") (fresh (mkPickleDB [("PARA-2", PyStr "note")] None))
       = Ret a (fresh (mkPickleDB [("PARA-2", PyStr "note")] None))
    /\ lift (query "PARA-2") d' = Ret a d'.
Proof.
  destruct (commit_leaves_other_keys "PARA-1" "PARA-2" (PyInst (hls_result point_1 5)))
    as [Hpickle _]; [discriminate|].
  destruct (Hpickle (fresh (mkPickleDB [("PARA-2", PyStr "note")] None))
                    (final_state
                       (commit "PARA-1" (PyInst (hls_result point_1 5))
                               (fresh (mkPickleDB [("PARA-2", PyStr "note")] None)))))
    as (a & Hbefore & Hafter); [vm_compute; reflexivity|].
  eexists a, _. split; [vm_compute; reflexivity|]. split; [exact Hbefore|exact Hafter].
Defined.

(** A commit under a new key in Redis. *)
Lemma commit_appends_new_key_witness :
  exists keys keys' (d' : Database Redis),
    commit "PARA-1" (PyInst (hls_result point_1 5)) (fresh (mkRedis sample_hash None))
    = Ret tt d'
    /\ lift query_keys (fresh (mkRedis sample_hash None))
       = Ret keys (fresh (mkRedis sample_hash None))
    /\ lift query_keys d' = Ret keys' d'
    /\ keys' ≡ₚ (if decide ("PARA-1" ∈ keys) then keys else keys ++ ["PARA-1"])
    /\ lift count d' = Ret 5%Z d'.
Proof.
  destruct (commit_appends_new_key "PARA-1" (PyInst (hls_result point_1 5)))
    as [_ Hredis].
  destruct (Hredis (fresh (mkRedis sample_hash None))
                   (final_state
                      (commit "PARA-1" (PyInst (hls_result point_1 5))
                              (fresh (mkRedis sample_hash None)))))
    as (keys & keys' & Hbefore & Hafter & Hperm & _); [vm_compute; reflexivity|].
  eexists keys, keys', _. split; [vm_compute; reflexivity|].
  split; [exact Hbefore|]. split; [exact Hafter|]. split; [exact Hperm|].
  vm_compute. reflexivity.
Defined.

(** A batch of two pairs against two commits. *)
Lemma pickle_batch_commit_is_commits_witness :
  batch_commit [("PARA-1", PyInst (hls_result point_1 5)); ("note", PyStr "note")]
               (fresh empty_pickle)
  = commits [("PARA-1", PyInst (hls_result point_1 5)); ("note", PyStr "note")]
            (fresh empty_pickle).
Proof.
  apply (pickle_batch_commit_is_commits
           [("PARA-1", PyInst (hls_result point_1 5)); ("note", PyStr "note")]
           (fresh empty_pickle)).
  intros q e. reflexivity.
Defined.

(** A batch that writes one key twice. *)
Lemma pickle_batch_keeps_last_value_witness :
  exists d' : Database PickleDB,
    batch_commit [("PARA-1", PyStr "note"); ("PARA-1", PyInst (hls_result point_1 5));
                  ("PARA-2", PyInst (hls_result point_2 3))]
                 (fresh empty_pickle) = Ret tt d'
    /\ lift (query "PARA-1") d' = Ret (Some (PyInst (hls_result point_1 5))) d'.
Proof.
  eexists. split; [vm_compute; reflexivity|].
  apply (pickle_batch_keeps_last_value
           [("PARA-1", PyStr "note")] "PARA-1" (PyInst (hls_result point_1 5))
           [("PARA-2", PyInst (hls_result point_2 3))] (fresh empty_pickle)).
  - evaluate.
  - reflexivity.
  - vm_compute. reflexivity.
Defined.

(** The same batch with the Redis adapter. *)
Lemma redis_batch_commit_repeated_key_witness :
  exists d' : Database Redis,
    batch_commit [("PARA-1", PyStr "note"); ("PARA-1", PyInst (hls_result point_1 5))]
                 (fresh empty_redis) = SysExit 1 d'
    /\ redis_hash (backend d') !! "PARA-1"
       = Some (pickle_dumps (PyInst (hls_result point_1 5)))
    /\ redis_file (backend d')
       = Some (pickle_dump_file (dumped (listed (redis_hash (backend d')))))
    /\ best_cache d' = best_cache (fresh empty_redis).
Proof.
  destruct (redis_batch_commit_repeated_key
              [("PARA-1", PyStr "note"); ("PARA-1", PyInst (hls_result point_1 5))]
              (fresh empty_redis))
    as (d' & Hrun & _ & Hlast & Hfile & Hbest & _); [evaluate|].
  exists d'. split; [exact Hrun|]. split; [|split; [exact Hfile|exact Hbest]].
  apply (Hlast [("PARA-1", PyStr "note")] "PARA-1" (PyInst (hls_result point_1 5)) []).
  - reflexivity.
  - evaluate.
Defined.

(** Persisting two HLS results. *)
Lemma pickle_persist_encodes_in_place_witness :
  exists st',
    persist (mkStore (mkPickleDB (decoded sample_hls) None) [] []) = Ret true st'
    /\ query "PARA-1" st'
       = Ret (Some (PyStr (jsonpickle_encode (PyInst (hls_result point_1 5))))) st'.
Proof.
  destruct (pickle_persist_encodes_in_place
              (mkStore (mkPickleDB (decoded sample_hls) None) [] []))
    as (st' & Hrun & _ & _ & Hquery); [evaluate|].
  exists st'. split; [exact Hrun|]. apply Hquery. reflexivity.
Defined.

(** Persisting them and loading them again. *)
Lemma pickle_persist_then_load_witness :
  exists st' d',
    persist (mkStore (mkPickleDB (decoded sample_hls) None) [] []) = Ret true st'
    /\ PickleDatabase.load
         (fresh (mkPickleDB (persisted sample_hls) (pickle_file (database st'))))
       = Ret tt d'
    /\ pickle_db (backend d') = decoded sample_hls.
Proof.
  destruct (pickle_persist_then_load sample_hls None [] [])
    as (st' & d' & Hpersist & _ & Hload & Hdb).
  - intros q e. reflexivity.
  - evaluate.
  - repeat constructor.
  - repeat constructor; try discriminate; eexists; reflexivity.
  - exists st', d'. split; [exact Hpersist|]. split; [exact Hload|exact Hdb].
Defined.

(** A dictionary whose second value is not the encoding of anything. *)
Lemma pickle_load_stops_at_bad_value_witness :
  PickleDatabase.load
    (fresh (mkPickleDB (persisted [("PARA-1", hls_result point_1 5)]
                        ++ [("PARA-2", PyStr "##########")]) None))
  = SysExit 1
      (mkDatabase
         (mkStore (mkPickleDB (decoded [("PARA-1", hls_result point_1 5)]
                               ++ [("PARA-2", PyStr "##########")]) None)
                  [] ["Failed to load the data from the database: Expecting value"])
         [] ∅ 0%nat).
Proof.
  apply (pickle_load_stops_at_bad_value
           [("PARA-1", hls_result point_1 5)] "PARA-2" (PyStr "##########") [] None
           (ValueError "Expecting value")).
  - evaluate.
  - repeat constructor.
  - reflexivity.
Defined.

(** A dump file of an unsupported protocol. *)
Lemma redis_load_unreadable_file_witness :
  RedisDatabase.load (fresh (mkRedis ∅ (Some [Byte.x80; Byte.xff])))
  = SysExit 1
      (mkDatabase
         (mkStore (mkRedis ∅ (Some [Byte.x80; Byte.xff])) []
                  ["Failed to initialize the database: unsupported pickle protocol"])
         [] ∅ 0%nat).
Proof.
  apply (redis_load_unreadable_file
           (fresh (mkRedis ∅ (Some [Byte.x80; Byte.xff]))) [Byte.x80; Byte.xff]
           (ValueError "unsupported pickle protocol")); reflexivity.
Defined.

(** A Merlin result without a design point after one with a point. *)
Lemma init_code_hash_map_asserts_point_witness :
  exists d' : Database PickleDB,
    init_code_hash_map
      (fresh (mkPickleDB
                (decoded [("PARA-1", merlin_result point_1 "xyz");
                          ("PARA-2", mkInstance true false true None VALID false (Num 0)
                                                (Some "abc"))])
                None))
    = Raise AssertionError d'
    /\ code_hash_map d' !! "xyz" = Some "PARA-1"
    /\ code_hash_map d' !! "abc" = None.
Proof.
  eexists. split.
  - apply (init_code_hash_map_asserts_point _
             [("PARA-1", merlin_result point_1 "xyz")] "PARA-2"
             (mkInstance true false true None VALID false (Num 0) (Some "abc")) []).
    + reflexivity.
    + evaluate.
    + repeat constructor; eexists; reflexivity.
    + reflexivity.
    + eexists. reflexivity.
    + discriminate.
    + reflexivity.
  - split; reflexivity.
Defined.

(** A hash with a corrupted blob. *)
Lemma redis_corrupt_blob_blocks_rebuild_witness :
  exists e' (d' : Database Redis),
    init_best_cache (fresh (mkRedis sample_hash None)) = Raise e' d'
    /\ init_code_hash_map (fresh (mkRedis sample_hash None)) = Raise e' d'
    /\ RedisDatabase.load (fresh (mkRedis sample_hash None)) = Raise e' d'.
Proof.
  destruct (redis_corrupt_blob_blocks_rebuild (fresh (mkRedis sample_hash None))
              "corrupt" [Byte.x00] (OtherError "UnpicklingError" "invalid load key"))
    as (e' & lines & _ & Hbest & Hhash & Hload).
  - reflexivity.
  - discriminate.
  - reflexivity.
  - intros msg. discriminate.
  - eexists e', _. split; [exact Hbest|]. split; [exact Hhash|]. apply Hload. reflexivity.
Defined.

(** A batch of two results with distinct keys. *)
Lemma redis_batch_commit_then_batch_query_witness :
  exists d' : Database Redis,
    batch_commit [("PARA-1", PyInst (hls_result point_1 5));
                  ("PARA-2", PyInst (hls_result point_2 3))] (fresh empty_redis)
    = Ret tt d'
    /\ lift (batch_query ["PARA-1"; "PARA-2"]) d'
       = Ret [Some (PyInst (hls_result point_1 5)); Some (PyInst (hls_result point_2 3))] d'.
Proof.
  eexists. split; [vm_compute; reflexivity|].
  apply (redis_batch_commit_then_batch_query
           [("PARA-1", PyInst (hls_result point_1 5));
            ("PARA-2", PyInst (hls_result point_2 3))] (fresh empty_redis)).
  - evaluate.
  - repeat constructor; vm_compute; discriminate.
  - vm_compute. reflexivity.
Defined.

(** A commit next to a stored note, a deletion and a restart. *)
Lemma redis_commit_survives_restart_witness :
  let d := fresh (mkRedis (<["note" := sample_dumps (PyStr "note")]> ∅) None) in
  let d' := final_state (commit "PARA-1" (PyInst (hls_result point_1 5)) d) in
  let deleted := final_state (lift RedisDatabase.del d') in
  let restarted := final_state (RedisDatabase.load (fresh (backend deleted))) in
  commit "PARA-1" (PyInst (hls_result point_1 5)) d = Ret tt d'
  /\ redis_hash (backend deleted) = ∅
  /\ redis_hash (backend restarted) = redis_hash (backend d')
  /\ lift (query "PARA-1") restarted = Ret (Some (PyInst (hls_result point_1 5))) restarted
  /\ lift (query "note") restarted = Ret (Some (PyStr "note")) restarted.
Proof.
  intros d d' deleted restarted.
  assert (Hrun : commit "PARA-1" (PyInst (hls_result point_1 5)) d = Ret tt d')
    by (vm_compute; reflexivity).
  destruct (redis_commit_survives_restart "PARA-1" (PyInst (hls_result point_1 5)) d d')
    as (Hdel & _ & Hhash & Hquery).
  - reflexivity.
  - vm_compute. discriminate.
  - vm_compute. reflexivity.
  - exact Hrun.
  - split; [exact Hrun|]. split; [exact Hdel|]. split; [exact Hhash|].
    split; [exact Hquery|]. vm_compute. reflexivity.
Defined.

End MoreSamples.

Section FailingQueue.
Local Existing Instance put_fails_env.

(** A commit into a queue whose [put] raises. *)
Lemma commit_is_not_atomic_witness :
  exists d' : Database PickleDB,
    commit "PARA-1" (PyInst (hls_result point_1 5)) (fresh empty_pickle)
    = Raise RuntimeError d'
    /\ lift (query "PARA-1") d' = Ret (Some (PyInst (hls_result point_1 5))) d'
    /\ best_cache d' = [(Num 5, 0%Z, hls_result point_1 5)].
Proof.
  destruct (commit_is_not_atomic "PARA-1" (hls_result point_1 5) (fresh empty_pickle)
              (OtherError "TypeError" "'<' not supported between instances")
              [(Num 5, 0%Z, hls_result point_1 5)])
    as (d' & Hrun & Hquery & Hbest & _).
  - reflexivity.
  - discriminate.
  - reflexivity.
  - exists d'. split; [exact Hrun|]. split; [exact Hquery|exact Hbest].
Defined.

(** Rebuilding the best cache with the same queue. *)
Lemma init_best_cache_passes_put_failure_witness :
  exists d' : Database PickleDB,
    init_best_cache (fresh (mkPickleDB (decoded sample_hls) None))
    = Raise (OtherError "TypeError" "'<' not supported between instances") d'
    /\ store d' = store (fresh (mkPickleDB (decoded sample_hls) None)).
Proof.
  eexists. split; [vm_compute; reflexivity|].
  apply (init_best_cache_passes_put_failure
           (fresh (mkPickleDB (decoded sample_hls) None)) _
           (OtherError "TypeError" "'<' not supported between instances")).
  vm_compute. reflexivity.
Defined.

End FailingQueue.

